(** * Sloth: the Python wrapper around the sloth delay-function library

    A shallow embedding of [src/main/sloth/sloth.py]: the [Sloth] class
    (constructor, [data] setter, [compute], [verify], [_run], [wait]) and the
    module-level progress bar, together with the properties of the task
    orchestration layer.

    The C library behind [lib.sloth] and [lib.sloth_verification] is not
    part of the file; it enters the development as two section variables. *)

From Stdlib Require Import ZArith NArith List Lia Bool String Ascii.
From Stdlib.Strings Require Import Byte.
From Stdlib Require Import DecimalString.
From stdpp Require Import base option list gmap strings.

Local Open Scope Z_scope.

(** ** Python values *)

Module Py.

(** [bytes] objects. *)
Definition bytes := list byte.

#[global] Instance byte_eq_decision : EqDecision byte := Byte.byte_eq_dec.

(** The exceptions the file can raise.  Both [assert] statements of the
    constructor and the one of [verify_task] raise [AssertionError].
    [ForeignError n] stands for any exception that comes out of a call
    through the foreign-function interface. *)
Inductive Exn :=
| AssertionError
| TypeError
| AttributeError
| RuntimeError
| UnicodeEncodeError
| ForeignError (n : nat).

Inductive outcome (A : Type) :=
| Returned (a : A)
| Raised (e : Exn).
Arguments Returned {A} a.
Arguments Raised {A} e.

(** The values a caller hands to the constructor: [None], booleans and
    integers (the scalars), [str] (a list of code points) and [bytes]. *)
Inductive Scalar :=
| SNone
| SBool (b : bool)
| SInt (z : Z).

Inductive PyVal :=
| VScalar (a : Scalar)
| VStr (s : list N)
| VBytes (b : bytes).

Abbreviation VNone := (VScalar SNone).
Abbreviation VBool b := (VScalar (SBool b)).
Abbreviation VInt z := (VScalar (SInt z)).

(** [isinstance(v, int)]: [bool] is a subclass of [int]. *)
Definition isinstance_int (v : PyVal) : bool :=
  match v with
  | VInt _ | VBool _ => true
  | _ => false
  end.

(** The integer an [int] instance denotes ([True] is 1, [False] is 0). *)
Definition int_value (v : PyVal) : option Z :=
  match v with
  | VInt z => Some z
  | VBool b => Some (if b then 1 else 0)
  | _ => None
  end.

(** [a % b] on integers, for a positive [b]: the result has the sign of
    the divisor, as [Z.modulo]. *)
Definition py_mod (a b : Z) : Z := a mod b.

Definition byte_of_N (n : N) : byte :=
  match Byte.of_N (n mod 256)%N with
  | Some b => b
  | None => x00
  end.

(** [str.encode("utf8")] on one code point.  Surrogates cannot be
    encoded; values above [0x10FFFF] are not code points. *)
Definition utf8_encode_cp (c : N) : option bytes :=
  (if c <? 0x80 then Some [byte_of_N c]
   else if c <? 0x800 then
     Some [byte_of_N (0xC0 + c / 64); byte_of_N (0x80 + c mod 64)]
   else if (0xD800 <=? c) && (c <=? 0xDFFF) then None
   else if c <? 0x10000 then
     Some [byte_of_N (0xE0 + c / 4096);
           byte_of_N (0x80 + (c / 64) mod 64);
           byte_of_N (0x80 + c mod 64)]
   else if c <? 0x110000 then
     Some [byte_of_N (0xF0 + c / 262144);
           byte_of_N (0x80 + (c / 4096) mod 64);
           byte_of_N (0x80 + (c / 64) mod 64);
           byte_of_N (0x80 + c mod 64)]
   else None)%N.

Fixpoint encode_utf8 (s : list N) : outcome bytes :=
  match s with
  | [] => Returned []
  | c :: s' =>
      match utf8_encode_cp c, encode_utf8 s' with
      | Some b, Returned bs => Returned (b ++ bs)
      | _, _ => Raised UnicodeEncodeError
      end
  end.

Definition codepoints (s : string) : list N :=
  map N_of_ascii (list_ascii_of_string s).

(** [str(v)] on a scalar.  For an [int] the interpreter may refuse the
    conversion to decimal above a limit of digits (4300 by default, never
    less than 640 when it is set); [py_str] is [str] on the values of
    [str_defined], where the conversion always succeeds. *)
Definition py_str (v : Scalar) : list N :=
  match v with
  | SNone => codepoints "None"
  | SBool true => codepoints "True"
  | SBool false => codepoints "False"
  | SInt z => codepoints (NilZero.string_of_int (Z.to_int z))
  end.

(** The values whose [str()] no interpreter setting refuses: everything
    but an [int] of more than 640 digits. *)
Definition str_defined (v : PyVal) : bool :=
  match v with
  | VInt z => Z.abs z <? 10 ^ 640
  | _ => true
  end.

End Py.
Export Py.

(** ** The [Sloth] object *)

(** The fields of a constructed [Sloth].  [bits] and [iterations] hold the
    integer the stored [int] instance denotes; [_thread] is the index of the
    worker in the thread pool, [None] when no worker was ever created.  The
    [_lock] field lives in the world state below. *)
Record Sloth := mkSloth {
  _data : option bytes;
  bits : Z;
  iterations : Z;
  final_hash : option bytes;
  witness : option bytes;
  valid : option bool;
  blocking : bool;
  _thread : option nat
}.

(** *** Construction

    [__init__] assigns the attributes of [self] one after the other; the
    instance dictionary is the state of the constructor. *)

Inductive Attr :=
| Val (v : PyVal)
| LockObj.

Definition InitM (A : Type) : Type :=
  gmap string Attr -> gmap string Attr * outcome A.

#[global] Instance InitM_ret : MRet InitM :=
  fun A a d => (d, Returned a).

#[global] Instance InitM_bind : MBind InitM :=
  fun A B f m d =>
    match m d with
    | (d', Returned a) => f a d'
    | (d', Raised e) => (d', Raised e)
    end.

Definition setattr (name : string) (v : Attr) : InitM unit :=
  fun d => (<[name := v]> d, Returned tt).

Definition raise {A} (e : Exn) : InitM A :=
  fun d => (d, Raised e).

Definition assert_ (c : bool) : InitM unit :=
  if c then mret tt else raise AssertionError.

Definition lift_outcome {A} (o : outcome A) : InitM A :=
  fun d => (d, o).

(** The operand of [bits % 512]; anything but an [int] instance has been
    turned away by the assertion before. *)
Definition int_operand (v : PyVal) : InitM Z :=
  match int_value v with
  | Some z => mret z
  | None => raise TypeError
  end.

Definition of_opt_bytes (o : option bytes) : PyVal :=
  match o with
  | Some b => VBytes b
  | None => VNone
  end.

(** The [data] property setter (source lines 76-83). *)
Definition data_setter (value : PyVal) : InitM unit :=
  match value with
  | VBytes b => setattr "_data" (Val (VBytes b))
  | VStr s =>
      b ← lift_outcome (encode_utf8 s);
      setattr "_data" (Val (VBytes b))
  | VScalar a =>
      b ← lift_outcome (encode_utf8 (py_str a));
      setattr "_data" (Val (VBytes b))
  end.

(** [Sloth.__init__] (source lines 48-70). *)
Definition __init__ (data bits iterations : PyVal)
    (final_hash witness : option bytes) (blocking : bool) : InitM unit :=
  assert_ (isinstance_int bits);;
  b ← int_operand bits;
  assert_ (py_mod b 512 =? 0);;
  assert_ (isinstance_int iterations);;
  setattr "_data" (Val VNone);;
  match data with
  | VNone => mret tt
  | _ => data_setter data
  end;;
  setattr "bits" (Val bits);;
  setattr "iterations" (Val iterations);;
  setattr "final_hash" (Val (of_opt_bytes final_hash));;
  setattr "witness" (Val (of_opt_bytes witness));;
  setattr "valid" (Val VNone);;
  setattr "blocking" (Val (VBool blocking));;
  setattr "_thread" (Val VNone);;
  setattr "_lock" LockObj.

(** Reading the instance dictionary back as a typed record. *)
Definition attr_opt_bytes (d : gmap string Attr) (name : string)
  : option (option bytes) :=
  match d !! name with
  | Some (Val VNone) => Some None
  | Some (Val (VBytes b)) => Some (Some b)
  | _ => None
  end.

Definition attr_int (d : gmap string Attr) (name : string) : option Z :=
  match d !! name with
  | Some (Val v) => int_value v
  | _ => None
  end.

Definition attr_bool (d : gmap string Attr) (name : string) : option bool :=
  match d !! name with
  | Some (Val (VBool b)) => Some b
  | _ => None
  end.

Definition Sloth_of_attrs (d : gmap string Attr) : option Sloth :=
  dat ← attr_opt_bytes d "_data";
  b ← attr_int d "bits";
  it ← attr_int d "iterations";
  fh ← attr_opt_bytes d "final_hash";
  w ← attr_opt_bytes d "witness";
  bl ← attr_bool d "blocking";
  match d !! "valid", d !! "_thread", d !! "_lock" with
  | Some (Val VNone), Some (Val VNone), Some LockObj =>
      Some (mkSloth dat b it fh w None bl None)
  | _, _, _ => None
  end.

(** The arguments of a constructor call. *)
Record InitArgs := mkArgs {
  arg_data : PyVal;
  arg_bits : PyVal;
  arg_iterations : PyVal;
  arg_final_hash : option bytes;
  arg_witness : option bytes;
  arg_blocking : bool
}.

(** [Sloth(...)]: a fresh instance with an empty dictionary is handed to
    [__init__].  The result is the final dictionary and the outcome. *)
Definition construct (a : InitArgs) : gmap string Attr * outcome unit :=
  __init__ (arg_data a) (arg_bits a) (arg_iterations a)
           (arg_final_hash a) (arg_witness a) (arg_blocking a) ∅.

Definition Sloth_new (a : InitArgs) : outcome Sloth :=
  match construct a with
  | (d, Returned _) =>
      match Sloth_of_attrs d with
      | Some s => Returned s
      | None => Raised TypeError
      end
  | (_, Raised e) => Raised e
  end.

(** ** Threads, the progress bar and the world *)

Inductive tid :=
| Main
| Worker (i : nat).

#[global] Instance tid_eq_dec : EqDecision tid.
Proof. solve_decision. Defined.

(** A [tqdm] bar: its total, the progress made, how often it was closed. *)
Record Bar := mkBar {
  bar_total : Z;
  bar_n : Z;
  bar_closed : nat
}.

Inductive Field := Fwitness | Ffinal_hash | Fvalid | F_thread.

(** What an instrumented run records, newest event first. *)
Inductive Event :=
| EvTqdm (b : nat) (total : Z)
| EvClose (b : nat)
| EvEnter (t : tid) (k : nat)
| EvLeave (t : tid) (k : nat)
| EvAcquire (t : tid)
| EvRelease (t : tid)
| EvSet (t : tid) (f : Field)
| EvStart (w : nat).

(** What one run of a library function did: the deltas it reported through
    [update_progress], and how it ended. *)
Record LibRun (X : Type) := mkLibRun {
  reported : list Z;
  result : outcome X
}.
Arguments mkLibRun {X} _ _.
Arguments reported {X} _.
Arguments result {X} _.

(** What [lib.sloth] leaves behind: the bytes written to the witness
    buffer, the value stored in [witness_size], the bytes written to [out]. *)
Record SlothOut := mkSlothOut {
  wrote_witness : bytes;
  wrote_size : N;
  wrote_out : bytes
}.

(** The atomic actions of a thread; the index is the type of the value the
    action returns. *)
Inductive Action : Type -> Type :=
| GetAttr {X : Type} (f : Sloth -> X) : Action X
| SetWitness (b : bytes) : Action unit
| SetFinalHash (b : bytes) : Action unit
| SetValid (v : bool) : Action unit
| SetThread (w : nat) : Action unit
| GetProgressbar : Action (option nat)
| SetProgressbar (b : nat) : Action unit
| Tqdm (total : Z) : Action nat
| TqdmUpdate (b : nat) (delta : Z) : Action unit
| TqdmClose (b : nat) : Action unit
| LockAcquire : Action unit
| LockRelease : Action unit
| ThreadStart (w : nat) : Action (outcome unit)
| ThreadJoin (w : nat) (timeout : option Z) : Action (outcome unit)
| LibEnter : Action nat
| LibLeave (k : nat) : Action unit.

(** Programs: trees of actions.  [NewThread target k] is
    [Thread(target=target, daemon=True)]; it hands the new thread object to
    [k]. *)
Inductive Prog (A : Type) : Type :=
| Ret (a : A)
| Raise (e : Exn)
| Act {X : Type} (a : Action X) (k : X -> Prog A)
| NewThread (target : Prog unit) (k : nat -> Prog A).
Arguments Ret {A} a.
Arguments Raise {A} e.
Arguments Act {A X} a k.
Arguments NewThread {A} target k.

Fixpoint bind {A B} (p : Prog A) (f : A -> Prog B) : Prog B :=
  match p with
  | Ret a => f a
  | Raise e => Raise e
  | Act a k => Act a (fun x => bind (k x) f)
  | NewThread target k => NewThread target (fun t => bind (k t) f)
  end.

#[global] Instance Prog_ret : MRet Prog := @Ret.
#[global] Instance Prog_bind : MBind Prog := fun A B f p => bind p f.

Definition perform {X} (a : Action X) : Prog X := Act a Ret.

(** An action that can raise. *)
Definition perform_raising {X} (a : Action (outcome X)) : Prog X :=
  Act a (fun r => match r with Returned x => Ret x | Raised e => Raise e end).

(** [try: p finally: h]. *)
Fixpoint finally {A} (p : Prog A) (h : Prog unit) : Prog A :=
  match p with
  | Ret a => bind h (fun _ => Ret a)
  | Raise e => bind h (fun _ => Raise e)
  | Act a k => Act a (fun x => finally (k x) h)
  | NewThread target k => NewThread target (fun t => finally (k t) h)
  end.

Record Thread := mkThread {
  started : bool;
  code : Prog unit
}.

(** The state of the process: the [Sloth] object under study with its lock
    and its threads, and the module-level state (the global [progressbar]
    and the bars), which every other [Sloth] object of the process shares
    (see [rebound] below). *)
Record World := mkWorld {
  self : Sloth;               (* the [Sloth] object under study *)
  progressbar : option nat;   (* the module global, an index into [bars] *)
  bars : list Bar;            (* every bar created so far *)
  lock : option tid;          (* [self._lock]: who holds it *)
  pool : list Thread;         (* every [Thread] object created so far *)
  ncalls : nat;               (* calls into the C library so far *)
  inlib : list tid;           (* the threads inside the C library *)
  log : list Event
}.

Definition finished {A} (p : Prog A) : bool :=
  match p with
  | Ret _ | Raise _ => true
  | _ => false
  end.

(** A worker is alive from [start()] until its target returns or raises. *)
Definition alive (th : Thread) : bool :=
  started th && negb (finished (code th)).

Definition with_self (f : Sloth -> Sloth) (w : World) : World :=
  mkWorld (f (self w)) (progressbar w) (bars w) (lock w) (pool w)
          (ncalls w) (inlib w) (log w).

Definition with_progressbar (pb : option nat) (w : World) : World :=
  mkWorld (self w) pb (bars w) (lock w) (pool w) (ncalls w) (inlib w) (log w).

Definition with_bars (bs : list Bar) (w : World) : World :=
  mkWorld (self w) (progressbar w) bs (lock w) (pool w)
          (ncalls w) (inlib w) (log w).

Definition with_lock_state (l : option tid) (w : World) : World :=
  mkWorld (self w) (progressbar w) (bars w) l (pool w)
          (ncalls w) (inlib w) (log w).

Definition with_pool (p : list Thread) (w : World) : World :=
  mkWorld (self w) (progressbar w) (bars w) (lock w) p
          (ncalls w) (inlib w) (log w).

Definition with_lib (n : nat) (ts : list tid) (w : World) : World :=
  mkWorld (self w) (progressbar w) (bars w) (lock w) (pool w) n ts (log w).

Definition record (e : Event) (w : World) : World :=
  mkWorld (self w) (progressbar w) (bars w) (lock w) (pool w)
          (ncalls w) (inlib w) (e :: log w).

Definition set_witness (b : option bytes) (s : Sloth) : Sloth :=
  mkSloth (_data s) (bits s) (iterations s) (final_hash s) b
          (valid s) (blocking s) (_thread s).

Definition set_final_hash (b : option bytes) (s : Sloth) : Sloth :=
  mkSloth (_data s) (bits s) (iterations s) b (witness s)
          (valid s) (blocking s) (_thread s).

Definition set_valid (v : option bool) (s : Sloth) : Sloth :=
  mkSloth (_data s) (bits s) (iterations s) (final_hash s) (witness s)
          v (blocking s) (_thread s).

Definition set_thread (t : option nat) (s : Sloth) : Sloth :=
  mkSloth (_data s) (bits s) (iterations s) (final_hash s) (witness s)
          (valid s) (blocking s) t.

(** [bar.update(delta)]: the count grows by [delta]; once the bar was
    closed, [update] does nothing. *)
Definition bar_update (delta : Z) (b : Bar) : Bar :=
  match bar_closed b with
  | O => mkBar (bar_total b) (bar_n b + delta) (bar_closed b)
  | S _ => b
  end.

Definition bar_close (b : Bar) : Bar :=
  mkBar (bar_total b) (bar_n b) (S (bar_closed b)).

Definition start_thread (th : Thread) : Thread := mkThread true (code th).

(** [Thread.join] refuses a timeout above [threading.TIMEOUT_MAX] with an
    [OverflowError]; 4294967 seconds is within that constant on every
    platform of the interpreter. *)
Definition TIMEOUT_MAX : Z := 4294967.

(** The effect of one action of thread [t]; [None] when the thread has to
    wait.  [join] waits for the worker to end; [acquire] waits for the
    lock.  The case of [join] is the behaviour of [Thread.join] for a
    caller that is not the thread joined and a timeout within
    [TIMEOUT_MAX]; [wait] is only ever called by the client. *)
Definition act {X} (t : tid) (a : Action X) (w : World) : option (X * World) :=
  match a in Action X return option (X * World) with
  | GetAttr f => Some (f (self w), w)
  | SetWitness b =>
      Some (tt, record (EvSet t Fwitness) (with_self (set_witness (Some b)) w))
  | SetFinalHash b =>
      Some (tt, record (EvSet t Ffinal_hash) (with_self (set_final_hash (Some b)) w))
  | SetValid v =>
      Some (tt, record (EvSet t Fvalid) (with_self (set_valid (Some v)) w))
  | SetThread i =>
      Some (tt, record (EvSet t F_thread) (with_self (set_thread (Some i)) w))
  | GetProgressbar => Some (progressbar w, w)
  | SetProgressbar b => Some (tt, with_progressbar (Some b) w)
  | Tqdm total =>
      let b := length (bars w) in
      Some (b, record (EvTqdm b total) (with_bars (bars w ++ [mkBar total 0 0%nat]) w))
  | TqdmUpdate b delta =>
      Some (tt, with_bars (alter (bar_update delta) b (bars w)) w)
  | TqdmClose b =>
      Some (tt, record (EvClose b) (with_bars (alter bar_close b (bars w)) w))
  | LockAcquire =>
      match lock w with
      | None => Some (tt, record (EvAcquire t) (with_lock_state (Some t) w))
      | Some _ => None
      end
  | LockRelease => Some (tt, record (EvRelease t) (with_lock_state None w))
  | ThreadStart i =>
      match pool w !! i with
      | Some th =>
          if started th then Some (Raised RuntimeError, w)
          else Some (Returned tt,
                     record (EvStart i) (with_pool (<[i := start_thread th]> (pool w)) w))
      | None => Some (Raised RuntimeError, w)
      end
  | ThreadJoin i timeout =>
      match pool w !! i with
      | Some th =>
          if negb (started th) then Some (Raised RuntimeError, w)
          else if finished (code th) then Some (Returned tt, w)
          else None
      | None => Some (Raised RuntimeError, w)
      end
  | LibEnter =>
      let k := ncalls w in
      Some (k, record (EvEnter t k) (with_lib (S k) (t :: inlib w) w))
  | LibLeave k =>
      Some (tt, record (EvLeave t k)
                  (with_lib (ncalls w) (filter (fun t' => t' <> t) (inlib w)) w))
  end.

(** A [join] with a timeout can also give up. *)
Definition expire {X} (a : Action X) (w : World) : option (X * World) :=
  match a in Action X return option (X * World) with
  | ThreadJoin i (Some _) =>
      match pool w !! i with
      | Some th =>
          if started th then Some (Returned tt, w) else None
      | None => None
      end
  | _ => None
  end.

Definition spawn (target : Prog unit) (w : World) : World :=
  with_pool (pool w ++ [mkThread false target]) w.

(** One step of thread [t] running [p]. *)
Definition step {A} (t : tid) (p : Prog A) (w : World) : option (Prog A * World) :=
  match p with
  | Ret _ | Raise _ => None
  | Act a k =>
      match act t a w with
      | Some (x, w') => Some (k x, w')
      | None => None
      end
  | NewThread target k => Some (k (length (pool w)), spawn target w)
  end.

Definition step_expire {A} (p : Prog A) (w : World) : option (Prog A * World) :=
  match p with
  | Act a k =>
      match expire a w with
      | Some (x, w') => Some (k x, w')
      | None => None
      end
  | _ => None
  end.

(** Running thread [t] on its own until it returns, raises or has to wait. *)
Inductive Result (A : Type) :=
| Done (a : A)
| Failed (e : Exn)
| Blocked (p : Prog A).
Arguments Done {A} a.
Arguments Failed {A} e.
Arguments Blocked {A} p.

Fixpoint run {A} (t : tid) (p : Prog A) (w : World) : World * Result A :=
  match p with
  | Ret a => (w, Done a)
  | Raise e => (w, Failed e)
  | Act a k =>
      match act t a w with
      | Some (x, w') => run t (k x) w'
      | None => (w, Blocked p)
      end
  | NewThread target k => run t (k (length (pool w))) (spawn target w)
  end.

(** ** The module and the class, as programs *)

(** Source lines 6-11: the flag is on when [tqdm] can be imported and the
    environment variable is unset or set to a non-empty string. *)
Definition PROGRESS_of (tqdm_installed : bool) (env : option string) : bool :=
  if tqdm_installed then
    match env with
    | None => true
    | Some v => negb (String.eqb v "")
    end
  else false.

(** [ffi.new("unsigned char[n]")]: a zeroed buffer of [n] bytes. *)
Definition ffi_new_uchar {A} (n : Z) (k : bytes -> Prog A) : Prog A :=
  if n <? 0 then Raise (ForeignError 0) else k (replicate (Z.to_nat n) x00).

(** The content of buffer [buf] after [data] was written to its start.  The
    library is taken to write inside the buffer: what goes beyond its end is
    cut off here, where the C code would run over the buffer. *)
Definition written (buf data : bytes) : bytes :=
  take (length buf) (data ++ drop (length data) buf).

(** [int(a / 8)]: the quotient truncated towards zero.  The division goes
    through a float, which holds [a / 8] exactly for [|a| < 2 ^ 53] (and,
    for a multiple of 512, for [|a| < 2 ^ 62]); beyond, the code rounds, and
    far beyond it raises.  The model is the exact quotient. *)
Definition int_div8 (a : Z) : Z := Z.quot a 8.

(** [with self._lock: body]. *)
Definition with_lock {A} (body : Prog A) : Prog A :=
  perform LockAcquire;; finally body (perform LockRelease).

Inductive Call :=
| CallCompute
| CallVerify
| CallWait (timeout : option Z).

Section Source.

(** The module flag and the two functions of the C library.  The first
    argument is the number of the invocation: two calls with the same
    arguments need not give the same result. *)
Variable PROGRESS : bool.
Variable c_sloth : nat -> option bytes -> Z -> Z -> LibRun SlothOut.
Variable c_sloth_verification :
  nat -> option bytes -> Z -> option bytes -> option bytes -> Z -> Z -> LibRun Z.

(** Source lines 17-28. *)
Definition update_progress (delta_iterations : Z) : Prog unit :=
  if PROGRESS then
    pb ← perform GetProgressbar;
    match pb with
    | Some b => perform (TqdmUpdate b delta_iterations)
    | None => Ret tt
    end
  else Ret tt.

Fixpoint callbacks (deltas : list Z) : Prog unit :=
  match deltas with
  | [] => Ret tt
  | d :: ds => update_progress d;; callbacks ds
  end.

(** A call of a library function: the thread enters the library, the
    library calls [update_progress] back, the thread leaves with the
    result or an exception. *)
Definition lib_call {X} (f : nat -> LibRun X) : Prog X :=
  k ← perform LibEnter;
  callbacks (reported (f k));;
  perform (LibLeave k);;
  match result (f k) with
  | Returned x => Ret x
  | Raised e => Raise e
  end.

(** [compute_task] (source lines 86-94). *)
Definition compute_task : Prog unit :=
  ffi_new_uchar 64 (fun out =>
  b ← perform (GetAttr bits);
  ffi_new_uchar (int_div8 b) (fun witness_buf =>
  d ← perform (GetAttr _data);
  b' ← perform (GetAttr bits);
  it ← perform (GetAttr iterations);
  r ← lib_call (fun k => c_sloth k d b' it);
  let witness_size := N.to_nat (wrote_size r) in
  with_lock (
    perform (SetWitness (take witness_size (written witness_buf (wrote_witness r))));;
    perform (SetFinalHash (written out (wrote_out r)))))).

(** [verify_task] (source lines 99-110). *)
Definition verify_task : Prog unit :=
  w ← perform (GetAttr witness);
  match w with
  | None => Raise AssertionError
  | Some _ =>
      w1 ← perform (GetAttr witness);
      w2 ← perform (GetAttr witness);
      match w2 with
      | None => Raise TypeError
      | Some wb =>
          fh ← perform (GetAttr final_hash);
          d ← perform (GetAttr _data);
          b ← perform (GetAttr bits);
          it ← perform (GetAttr iterations);
          verification ←
            lib_call (fun k =>
              c_sloth_verification k w1 (Z.of_nat (length wb)) fh d b it);
          with_lock (perform (SetValid (verification =? 1)))
      end
  end.

(** [wait] (source lines 132-134). *)
Definition wait (timeout : option Z) : Prog unit :=
  th ← perform (GetAttr _thread);
  match th with
  | Some i => perform_raising (ThreadJoin i timeout)
  | None => Ret tt
  end.

(** [wrapped_task] (source lines 121-124). *)
Definition wrapped_task (task : Prog unit) : Prog unit :=
  task;;
  if PROGRESS then
    pb ← perform GetProgressbar;
    match pb with
    | Some b => perform (TqdmClose b)
    | None => Raise AttributeError
    end
  else Ret tt.

(** [_run] (source lines 114-130). *)
Definition _run (task : Prog unit) : Prog unit :=
  bl ← perform (GetAttr blocking);
  (if negb bl then wait None else Ret tt);;
  (if PROGRESS then
     it ← perform (GetAttr iterations);
     b ← perform (Tqdm it);
     perform (SetProgressbar b)
   else Ret tt);;
  bl' ← perform (GetAttr blocking);
  if (bl' : bool) then wrapped_task task
  else
    th ← NewThread (wrapped_task task) Ret;
    perform (SetThread th);;
    th' ← perform (GetAttr _thread);
    match th' with
    | Some i => perform_raising (ThreadStart i)
    | None => Raise AttributeError
    end.

Definition compute : Prog unit := _run compute_task.
Definition verify : Prog unit := _run verify_task.

(** A client that calls the methods of the object one after the other. *)
Definition call (c : Call) : Prog unit :=
  match c with
  | CallCompute => compute
  | CallVerify => verify
  | CallWait timeout => wait timeout
  end.

Fixpoint script (cs : list Call) : Prog unit :=
  match cs with
  | [] => Ret tt
  | c :: cs' => call c;; script cs'
  end.

End Source.

(** ** The client and the workers together *)

Record Config := mkConfig {
  main : Prog unit;
  world : World
}.

Inductive Decision :=
| Go (t : tid)
| TimeOut (t : tid).

Definition thread_code (t : tid) (c : Config) : option (Prog unit) :=
  match t with
  | Main => Some (main c)
  | Worker i =>
      match pool (world c) !! i with
      | Some th => if started th then Some (code th) else None
      | None => None
      end
  end.

Definition put_code (t : tid) (p : Prog unit) (w : World) (c : Config) : Config :=
  match t with
  | Main => mkConfig p w
  | Worker i => mkConfig (main c) (with_pool (<[i := mkThread true p]> (pool w)) w)
  end.

(** The scheduler lets one thread take one step. *)
Definition sched (d : Decision) (c : Config) : option Config :=
  match d with
  | Go t =>
      p ← thread_code t c;
      '(p', w') ← step t p (world c);
      Some (put_code t p' w' c)
  | TimeOut t =>
      p ← thread_code t c;
      '(p', w') ← step_expire p (world c);
      Some (put_code t p' w' c)
  end.

Fixpoint exec (ds : list Decision) (c : Config) : option Config :=
  match ds with
  | [] => Some c
  | d :: ds' => c' ← sched d c; exec ds' c'
  end.

(** The world right after the module was imported and [s] constructed. *)
Definition init_world (s : Sloth) : World :=
  mkWorld s None [] None [] 0 [] [].

(** ** What the runs below leave behind *)

(** The bars after the library reported [deltas] while the module global
    was [pb]. *)
Definition advance (PROGRESS : bool) (pb : option nat) (deltas : list Z)
    (bs : list Bar) : list Bar :=
  if PROGRESS then
    match pb with
    | Some b => foldl (fun bs d => alter (bar_update d) b bs) bs deltas
    | None => bs
    end
  else bs.

(** The world after thread [t] went through one library call. *)
Definition after_lib (PROGRESS : bool) (t : tid) (deltas : list Z) (w : World)
  : World :=
  mkWorld (self w) (progressbar w)
          (advance PROGRESS (progressbar w) deltas (bars w))
          (lock w) (pool w) (S (ncalls w))
          (filter (fun t' => t' <> t) (inlib w))
          (EvLeave t (ncalls w) :: EvEnter t (ncalls w) :: log w).

(** The witness and the digest [compute_task] reads out of the buffers. *)
Definition published_witness (b : Z) (o : SlothOut) : bytes :=
  take (N.to_nat (wrote_size o))
       (written (replicate (Z.to_nat (int_div8 b)) x00) (wrote_witness o)).

Definition published_digest (o : SlothOut) : bytes :=
  written (replicate 64 x00) (wrote_out o).

(** The world after thread [t] published a witness and a digest, and after
    it published a verdict. *)
Definition after_publish (t : tid) (wit dig : bytes) (w : World) : World :=
  mkWorld (set_final_hash (Some dig) (set_witness (Some wit) (self w)))
          (progressbar w) (bars w) None (pool w) (ncalls w) (inlib w)
          (EvRelease t :: EvSet t Ffinal_hash :: EvSet t Fwitness
             :: EvAcquire t :: log w).

Definition after_verdict (t : tid) (v : bool) (w : World) : World :=
  mkWorld (set_valid (Some v) (self w))
          (progressbar w) (bars w) None (pool w) (ncalls w) (inlib w)
          (EvRelease t :: EvSet t Fvalid :: EvAcquire t :: log w).

(** The world after [_run] set up the progress bar, and after
    [wrapped_task] closed it. *)
Definition open_bar (PROGRESS : bool) (w : World) : World :=
  if PROGRESS then
    mkWorld (self w) (Some (length (bars w)))
            (bars w ++ [mkBar (iterations (self w)) 0 0%nat])
            (lock w) (pool w) (ncalls w) (inlib w)
            (EvTqdm (length (bars w)) (iterations (self w)) :: log w)
  else w.

Definition close_bar (b : nat) (w : World) : World :=
  mkWorld (self w) (progressbar w) (alter bar_close b (bars w))
          (lock w) (pool w) (ncalls w) (inlib w) (EvClose b :: log w).

(** The module-level state is shared by every [Sloth] object of the
    process.  What the [_run] of another object does to it: a new bar, and
    the global names that bar from then on. *)
Definition rebound (total : Z) (w : World) : World :=
  mkWorld (self w) (Some (length (bars w)))
          (bars w ++ [mkBar total 0 0%nat])
          (lock w) (pool w) (ncalls w) (inlib w)
          (EvTqdm (length (bars w)) total :: log w).

(** The world after [_run] created, stored and started a worker. *)
Definition launch (target : Prog unit) (w : World) : World :=
  mkWorld (set_thread (Some (length (pool w))) (self w))
          (progressbar w) (bars w) (lock w)
          (pool w ++ [mkThread true target]) (ncalls w) (inlib w)
          (EvStart (length (pool w)) :: EvSet Main F_thread :: log w).

(** [_run] does not have to wait: no worker yet, or a worker that ended. *)
Definition joinable (w : World) : Prop :=
  match _thread (self w) with
  | None => True
  | Some i =>
      exists th, pool w !! i = Some th /\ started th = true
                 /\ finished (code th) = true
  end.

Definition lib_result {X} (o : outcome X) : Result X :=
  match o with
  | Returned x => Done x
  | Raised e => Failed e
  end.

(** The two library runs [compute_task] and [verify_task] start in world
    [w]. *)
Definition sloth_run
    (c_sloth : nat -> option bytes -> Z -> Z -> LibRun SlothOut) (w : World)
  : LibRun SlothOut :=
  c_sloth (ncalls w) (_data (self w)) (bits (self w)) (iterations (self w)).

Definition verification_run
    (c_sloth_verification :
       nat -> option bytes -> Z -> option bytes -> option bytes -> Z -> Z -> LibRun Z)
    (w : World) : LibRun Z :=
  c_sloth_verification (ncalls w) (witness (self w))
    (Z.of_nat (length (default [] (witness (self w)))))
    (final_hash (self w)) (_data (self w)) (bits (self w)) (iterations (self w)).

(** ** The words of the specification *)

(** "A positive integer", "an integer multiple of 512". *)
Definition is_positive_int (v : PyVal) : bool :=
  match int_value v with
  | Some z => 0 <? z
  | None => false
  end.

Definition multiple_of_512 (v : PyVal) : bool :=
  match int_value v with
  | Some z => py_mod z 512 =? 0
  | None => false
  end.

(** The inputs for which the specification wants the constructor to fail:
    [bitWidth] is not an integer multiple of 512, or [bitWidth] or
    [iterations] is not a positive integer. *)
Definition spec_invalid_parameter (a : InitArgs) : bool :=
  negb (multiple_of_512 (arg_bits a))
  || negb (is_positive_int (arg_bits a))
  || negb (is_positive_int (arg_iterations a)).

(** The contract of the computation primitive: the verification accepts
    every witness and digest that a computation on the same data, bit width
    and iteration count produced. *)
Definition PrimitiveContract
    (c_sloth : nat -> option bytes -> Z -> Z -> LibRun SlothOut)
    (c_sloth_verification :
       nat -> option bytes -> Z -> option bytes -> option bytes -> Z -> Z -> LibRun Z)
  : Prop :=
  forall (k k' : nat) (data : bytes) (b it : Z) (o : SlothOut),
    0 < b -> b mod 512 = 0 -> 0 < it ->
    result (c_sloth k (Some data) b it) = Returned o ->
    result (c_sloth_verification k'
              (Some (published_witness b o))
              (Z.of_nat (length (published_witness b o)))
              (Some (published_digest o)) (Some data) b it)
    = Returned 1.

(** ** A small library to run the model on

    The witness is the data reversed, cut to the size of the buffer; the
    digest is 64 bytes of [0x01]; the computation refuses to run without
    data, and reports its progress in one delta. *)
Definition toy_witness (b : Z) (x : bytes) : bytes :=
  take (Z.to_nat (int_div8 b)) (rev x).

Definition toy_sloth (k : nat) (d : option bytes) (b it : Z) : LibRun SlothOut :=
  match d with
  | Some x =>
      mkLibRun [it]
        (Returned (mkSlothOut (toy_witness b x)
                     (N.of_nat (length (toy_witness b x)))
                     (replicate 64 x01)))
  | None => mkLibRun [] (Raised (ForeignError 1))
  end.

Definition toy_verification (k : nat) (w : option bytes) (n : Z)
    (fh d : option bytes) (b it : Z) : LibRun Z :=
  mkLibRun [it]
    (Returned (if decide (w = toy_witness b <$> d
                          /\ fh = Some (replicate 64 x01))
               then 1 else 0)).

(** A verification that fails at the interface. *)
Definition broken_verification (k : nat) (w : option bytes) (n : Z)
    (fh d : option bytes) (b it : Z) : LibRun Z :=
  mkLibRun [] (Raised (ForeignError 2)).

(** The events [_run] adds around the task when the progress bar is on. *)
Definition bar_opened (P : bool) (w : World) : list Event :=
  if P then [EvTqdm (length (bars w)) (iterations (self w))] else [].

Definition bar_closing (P : bool) (w : World) : list Event :=
  if P then [EvClose (length (bars w))] else [].

(** ** Objects to run the model on *)

Definition hello : bytes := ["h"; "e"; "l"; "l"; "o"]%byte.

(** [Sloth("hello", bits=1024, iterations=10, blocking=...)]. *)
Definition hello_task (blocking : bool) : Sloth :=
  mkSloth (Some hello) 1024 10 None None None blocking None.

(** The same object with a witness and a digest handed in. *)
Definition hello_proof (blocking : bool) : Sloth :=
  mkSloth (Some hello) 1024 10 (Some (replicate 64 x01)) (Some (rev hello))
          None blocking None.

(** [Sloth(bits=1024, iterations=10, blocking=...)]: no data. *)
Definition empty_task (blocking : bool) : Sloth :=
  mkSloth None 1024 10 None None None blocking None.

(** ** Frame conditions *)

(** No bar was added, removed, re-targeted or closed. *)
Definition bars_kept (bs bs' : list Bar) : Prop :=
  length bs' = length bs
  /\ forall i bar, bs' !! i = Some bar ->
       exists bar0, bs !! i = Some bar0
                    /\ bar_total bar = bar_total bar0
                    /\ bar_closed bar = bar_closed bar0.

(** What a task body leaves alone: the lock is free again, no thread was
    created, the module global and the inputs of the object are unchanged,
    and the log was only extended. *)
Definition task_frame (w w' : World) : Prop :=
  lock w' = lock w
  /\ pool w' = pool w
  /\ progressbar w' = progressbar w
  /\ blocking (self w') = blocking (self w)
  /\ _thread (self w') = _thread (self w)
  /\ _data (self w') = _data (self w)
  /\ bits (self w') = bits (self w)
  /\ iterations (self w') = iterations (self w)
  /\ bars_kept (bars w) (bars w')
  /\ exists l, log w' = l ++ log w.

(** How a run ended, for the caller: returned, raised, or still waiting. *)
Definition outcome_of {A} (r : Result A) : option (outcome A) :=
  match r with
  | Done a => Some (Returned a)
  | Failed e => Some (Raised e)
  | Blocked _ => None
  end.

(** Two worlds that differ in the progress bars and the log at most. *)
Definition same_task_state (w1 w2 : World) : Prop :=
  self w1 = self w2 /\ ncalls w1 = ncalls w2
  /\ lock w1 = lock w2 /\ pool w1 = pool w2.

(** The calls whose timeout is within [TIMEOUT_MAX]. *)
Definition timeout_in_range (timeout : option Z) : Prop :=
  match timeout with
  | Some z => z <= TIMEOUT_MAX
  | None => True
  end.

Definition call_in_range (c : Call) : Prop :=
  match c with
  | CallWait timeout => timeout_in_range timeout
  | _ => True
  end.

(** What [__init__] stores, read back from the record. *)
Definition constructed (a : InitArgs) (s : Sloth) : Prop :=
  blocking s = arg_blocking a
  /\ _thread s = None
  /\ valid s = None
  /\ witness s = arg_witness a
  /\ final_hash s = arg_final_hash a
  /\ int_value (arg_bits a) = Some (bits s)
  /\ int_value (arg_iterations a) = Some (iterations s).

(** What a whole call in blocking mode leaves alone. *)
Definition call_frame (w w' : World) : Prop :=
  lock w' = lock w
  /\ pool w' = pool w
  /\ blocking (self w') = blocking (self w)
  /\ _thread (self w') = _thread (self w)
  /\ _data (self w') = _data (self w)
  /\ bits (self w') = bits (self w)
  /\ iterations (self w') = iterations (self w).

(** The arguments of [Sloth("hello", bits=1024, iterations=10,
    blocking=True)]. *)
Definition hello_args : InitArgs :=
  mkArgs (VStr (codepoints "hello")) (VInt 1024) (VInt 10) None None true.

(** The output of the small library on ["hello"] and 1024 bits. *)
Definition hello_out : SlothOut :=
  mkSlothOut (toy_witness 1024 hello) (N.of_nat (length (toy_witness 1024 hello)))
             (replicate 64 x01).

(** [n] steps of thread [t] in a row. *)
Definition go (n : nat) (t : tid) : list Decision := replicate n (Go t).

(** A client of a background object without witness: [verify()], then
    [wait()]. *)
Definition verify_then_wait : Config :=
  mkConfig (script true toy_sloth toy_verification [CallVerify; CallWait None])
           (init_world (hello_task false)).

(** A client of a background object without data: [compute()], then
    [wait()]. *)
Definition compute_then_wait : Config :=
  mkConfig (script true toy_sloth toy_verification [CallCompute; CallWait None])
           (init_world (empty_task false)).

(** The client runs until it has to wait, the worker runs to its end, the
    client goes on. *)
Definition client_worker_client (n1 n2 n3 : nat) : list Decision :=
  go n1 Main ++ go n2 (Worker 0) ++ go n3 Main.

Definition worker_code (i : nat) (c : Config) : option (Prog unit) :=
  code <$> pool (world c) !! i.

(** ** The protocol between the client and its workers

    What the client of a background object knows about the threads, as a
    phase: [Quiet gate known] between thread operations ([gate]: every
    worker has ended; [known]: the value the client read from [_thread]),
    [Created i] after [Thread(...)], [Assigned i] after [self._thread = ...]. *)
Inductive Phase :=
| Quiet (gate : bool) (known : option nat)
| Created (i : nat)
| Assigned (i : nat).

(** What a phase says about [self._thread]. *)
Definition knows (ph : Phase) (cur : option nat) : Prop :=
  match ph with
  | Quiet _ (Some i) => cur = Some i
  | Assigned i => cur = Some i
  | _ => True
  end.

(** What reading the object adds to the phase. *)
Definition refine (ph : Phase) (cur : option nat) : Phase :=
  match ph with
  | Quiet g _ =>
      match cur with
      | None => Quiet true None
      | Some i => Quiet g (Some i)
      end
  | _ => ph
  end.

(** The actions the client may take in a phase, with the values they can
    return and the phase they lead to. *)
Definition client_action {X} (a : Action X) (ph : Phase)
    (Q : X -> Phase -> Prop) : Prop :=
  match a in Action X return (X -> Phase -> Prop) -> Prop with
  | GetAttr f => fun Q =>
      forall s, blocking s = false -> knows ph (_thread s) ->
                Q (f s) (refine ph (_thread s))
  | SetThread j => fun Q => ph = Created j /\ Q tt (Assigned j)
  | ThreadStart j => fun Q =>
      ph = Assigned j /\ Q (Returned tt) (Quiet false (Some j))
  | ThreadJoin j None => fun Q =>
      exists g, ph = Quiet g (Some j) /\ Q (Returned tt) (Quiet true (Some j))
  | ThreadJoin j (Some _) => fun Q =>
      exists g, ph = Quiet g (Some j) /\ Q (Returned tt) (Quiet g (Some j))
  | GetProgressbar => fun Q => forall x, Q x ph
  | SetProgressbar _ => fun Q => Q tt ph
  | Tqdm _ => fun Q => forall b, Q b ph
  | TqdmUpdate _ _ => fun Q => Q tt ph
  | TqdmClose _ => fun Q => Q tt ph
  | _ => fun _ => False
  end Q.

(** The actions a worker may take; the flag says whether it is inside the
    library. *)
Definition worker_action {X} (a : Action X) (inside : bool)
    (Q : X -> bool -> Prop) : Prop :=
  match a in Action X return (X -> bool -> Prop) -> Prop with
  | LibEnter => fun Q => inside = false /\ forall x, Q x true
  | LibLeave _ => fun Q => inside = true /\ Q tt false
  | SetThread _ => fun _ => False
  | ThreadStart _ => fun _ => False
  | ThreadJoin _ _ => fun _ => False
  | _ => fun Q => forall x, Q x inside
  end Q.

(** A worker program keeps to its actions, and is outside the library when
    it returns or raises. *)
Fixpoint worker_wp {A} (p : Prog A) (Q : A -> bool -> Prop) (inside : bool)
  : Prop :=
  match p with
  | Ret a => Q a inside
  | Raise _ => inside = false
  | Act a k => worker_action a inside (fun x b => worker_wp (k x) Q b)
  | NewThread _ _ => False
  end.

Definition worker_ok (target : Prog unit) : Prop :=
  worker_wp target (fun _ b => b = false) false.

(** A client program keeps to the protocol and never raises. *)
Fixpoint client_wp {A} (p : Prog A) (Q : A -> Phase -> Prop) (ph : Phase)
  : Prop :=
  match p with
  | Ret a => Q a ph
  | Raise _ => False
  | Act a k => client_action a ph (fun x ph' => client_wp (k x) Q ph')
  | NewThread target k =>
      (exists kn, ph = Quiet true kn) /\ worker_ok target
      /\ forall i, client_wp (k i) Q (Created i)
  end.

(** The threads as a phase describes them. *)
Definition thread_ok (il : list tid) (j : nat) (th : Thread) : Prop :=
  worker_wp (code th) (fun _ b => b = false) (bool_decide (Worker j ∈ il)).

Definition threads_ok (ph : Phase) (cur : option nat) (pl : list Thread)
    (il : list tid) : Prop :=
  match ph with
  | Quiet g _ =>
      (forall j th, pl !! j = Some th ->
         started th = true /\ thread_ok il j th
         /\ (finished (code th) = false -> cur = Some j)
         /\ (g = true -> finished (code th) = true))
      /\ (forall i, cur = Some i -> (i < length pl)%nat)
  | Created i | Assigned i =>
      exists pl' target,
        pl = pl' ++ [mkThread false target] /\ length pl' = i
        /\ worker_ok target
        /\ (forall j th, pl' !! j = Some th ->
              started th = true /\ finished (code th) = true)
        /\ il = []
  end.

Definition lib_ok (pl : list Thread) (il : list tid) : Prop :=
  NoDup il /\ forall t, t ∈ il -> exists j, t = Worker j /\ (j < length pl)%nat.

(** The invariant of a background object and its client. *)
Definition protocol (ph : Phase) (c : Config) : Prop :=
  blocking (self (world c)) = false
  /\ knows ph (_thread (self (world c)))
  /\ threads_ok ph (_thread (self (world c))) (pool (world c)) (inlib (world c))
  /\ lib_ok (pool (world c)) (inlib (world c))
  /\ client_wp (main c) (fun _ _ => True) ph.


(** A client of a background object: [compute()] twice in a row. *)
Definition compute_twice : Config :=
  mkConfig (script true toy_sloth toy_verification [CallCompute; CallCompute])
           (init_world (hello_task false)).

(** ** The helpers of the module *)

(** [bytes.hex()]: two lower-case hexadecimal digits for each byte. *)
Definition hex_digit (n : N) : ascii :=
  default "0"%char (list_ascii_of_string "0123456789abcdef" !! N.to_nat n).

Fixpoint hex (b : bytes) : string :=
  match b with
  | [] => EmptyString
  | x :: b' =>
      String (hex_digit (Byte.to_N x / 16))
        (String (hex_digit (Byte.to_N x mod 16)) (hex b'))
  end.

(** Reading the digits of [hex] back. *)
Definition hex_value (c : ascii) : option N :=
  (fun p => N.of_nat (fst p))
    <$> list_find (fun d => d = c) (list_ascii_of_string "0123456789abcdef").

Fixpoint unhex (s : string) : option bytes :=
  match s with
  | EmptyString => Some []
  | String a (String b s') =>
      hi ← hex_value a;
      lo ← hex_value b;
      bs ← unhex s';
      Some (byte_of_N (16 * hi + lo) :: bs)
  | String _ EmptyString => None
  end.

(** A [Sloth] object that was just constructed takes the place of [self];
    its lock is new. *)
Definition fresh (s : Sloth) (w : World) : World :=
  mkWorld s (progressbar w) (bars w) None (pool w) (ncalls w) (inlib w) (log w).

Section Helpers.

Variable PROGRESS : bool.
Variable c_sloth : nat -> option bytes -> Z -> Z -> LibRun SlothOut.
Variable c_sloth_verification :
  nat -> option bytes -> Z -> option bytes -> option bytes -> Z -> Z -> LibRun Z.

(** [s.compute()] and the list [sloth] returns (source lines 140-141). *)
Definition sloth_body : Prog (list string) :=
  compute PROGRESS c_sloth;;
  wi ← perform (GetAttr witness);
  match wi with
  | None => Raise AttributeError
  | Some wi' =>
      fh ← perform (GetAttr final_hash);
      match fh with
      | None => Raise AttributeError
      | Some fh' =>
          d ← perform (GetAttr _data);
          match d with
          | None => Raise AttributeError
          | Some d' => Ret [hex wi'; hex fh'; hex d']
          end
      end
  end.

(** [sloth(data, iterations)] (source lines 138-141). *)
Definition sloth (data iterations : PyVal) (w : World)
  : World * Result (list string) :=
  match Sloth_new (mkArgs data (VInt 1024) iterations None None true) with
  | Returned s => run Main sloth_body (fresh s w)
  | Raised e => (w, Failed e)
  end.

(** [verify_sloth(witness, final_hash, data_to_match, iterations)] (source
    lines 142-145). *)
Definition verify_sloth (witness final_hash : option bytes)
    (data_to_match iterations : PyVal) (w : World)
  : World * Result (option bool) :=
  match Sloth_new
          (mkArgs data_to_match (VInt 1024) iterations final_hash witness true) with
  | Returned s =>
      run Main (verify PROGRESS c_sloth_verification;; perform (GetAttr valid))
          (fresh s w)
  | Raised e => (w, Failed e)
  end.

End Helpers.

(** ** The lock discipline of the workers *)

(** The lock actions of a thread; the flag says whether it holds the
    lock. *)
Definition lock_action {X} (a : Action X) (held : bool)
    (Q : X -> bool -> Prop) : Prop :=
  match a in Action X return (X -> bool -> Prop) -> Prop with
  | LockAcquire => fun Q => held = false /\ Q tt true
  | LockRelease => fun Q => held = true /\ Q tt false
  | _ => fun Q => forall x, Q x held
  end Q.

(** A program acquires the lock only when it does not hold it, releases it
    only when it does, and does not hold it when it raises. *)
Fixpoint lock_wp {A} (p : Prog A) (Q : A -> bool -> Prop) (held : bool) : Prop :=
  match p with
  | Ret a => Q a held
  | Raise _ => held = false
  | Act a k => lock_action a held (fun x h => lock_wp (k x) Q h)
  | NewThread _ _ => False
  end.

Definition lock_ok (target : Prog unit) : Prop :=
  lock_wp target (fun _ h => h = false) false.

(** Every thread a program creates runs a target with property [P]. *)
Fixpoint spawns {A} (P : Prog unit -> Prop) (p : Prog A) : Prop :=
  match p with
  | Ret _ | Raise _ => True
  | Act a k => forall x, spawns P (k x)
  | NewThread target k => P target /\ forall i, spawns P (k i)
  end.

(** The lock is held by a worker, every worker keeps to the discipline,
    and so will the workers the client creates. *)
Definition lock_protocol (c : Config) : Prop :=
  (forall t, lock (world c) = Some t ->
     exists j, t = Worker j /\ (j < length (pool (world c)))%nat)
  /\ (forall j th, pool (world c) !! j = Some th ->
        lock_wp (code th) (fun _ h => h = false)
          (bool_decide (lock (world c) = Some (Worker j))))
  /\ spawns lock_ok (main c).

(** ** One operation in the background, then [wait()] *)

(** The client after [compute()] or [verify()] returned: about to call
    [wait()], inside [join], done. *)
Definition about_to_wait : Prog unit := wait None;; Ret tt.

Definition joining : Prog unit :=
  perform_raising (ThreadJoin 0 None);; Ret tt.

(** The steps [_run] takes until the worker is started. *)
Definition launch_steps (PROGRESS : bool) : nat := if PROGRESS then 10 else 7.

Section OneOperation.

Variable PROGRESS : bool.
Variable task : Prog unit.
Variable s : Sloth.

(** The client: the operation, then [wait()]. *)
Definition one_operation : Config :=
  mkConfig (_run PROGRESS task;; about_to_wait) (init_world s).

(** The world in which the worker starts, and its run when nothing
    interferes. *)
Definition world_at_start : World :=
  launch (wrapped_task PROGRESS task) (open_bar PROGRESS (init_world s)).

Definition worker_alone : World * Result unit :=
  run (Worker 0) (wrapped_task PROGRESS task) world_at_start.

(** The states of the operation once the worker is started: the client
    waits, the rest of the worker's run leads where the undisturbed run
    leads. *)
Definition op_running (c : Config) : Prop :=
  exists q,
    pool (world c) = [mkThread true q]
    /\ _thread (self (world c)) = Some 0%nat
    /\ (main c = about_to_wait \/ main c = joining
        \/ (main c = Ret tt /\ finished q = true))
    /\ snd (run (Worker 0) q (world c)) = snd worker_alone
    /\ with_pool (pool world_at_start) (fst (run (Worker 0) q (world c)))
       = fst worker_alone.

Definition op_inv (c : Config) : Prop :=
  (exists k, (k < launch_steps PROGRESS)%nat
             /\ exec (go k Main) one_operation = Some c)
  \/ op_running c.

End OneOperation.

(** ** Two operations in the background, one after the other *)

(** [_run] from the point where it has waited for the previous worker
    (source lines 118-130). *)
Definition launching (PROGRESS : bool) (task : Prog unit) : Prog unit :=
  (if PROGRESS then
     it ← perform (GetAttr iterations);
     b ← perform (Tqdm it);
     perform (SetProgressbar b)
   else Ret tt);;
  bl' ← perform (GetAttr blocking);
  if (bl' : bool) then wrapped_task PROGRESS task
  else
    th ← NewThread (wrapped_task PROGRESS task) Ret;
    perform (SetThread th);;
    th' ← perform (GetAttr _thread);
    match th' with
    | Some i => perform_raising (ThreadStart i)
    | None => Raise AttributeError
    end.

(** The steps [launching] takes until the worker is started. *)
Definition relaunch_steps (PROGRESS : bool) : nat := if PROGRESS then 8 else 5.

(** A client that waits for worker [j]: it reads attributes of the
    background object, whose [_thread] is [j], and then joins [j]; [after]
    is what it goes on with when [join] has returned. *)
Definition waits_action {X} (a : Action X) (j : nat)
    (next last : X -> Prop) : Prop :=
  match a in Action X return (X -> Prop) -> (X -> Prop) -> Prop with
  | GetAttr f => fun next _ =>
      forall s, blocking s = false -> _thread s = Some j -> next (f s)
  | ThreadJoin i None => fun _ last => i = j /\ last (Returned tt)
  | _ => fun _ _ => False
  end next last.

Fixpoint waits_for (j : nat) (after : Prog unit) (p : Prog unit) : Prop :=
  match p with
  | Act a k =>
      waits_action a j (fun x => waits_for j after (k x)) (fun x => k x = after)
  | _ => False
  end.

Section Segment.

(** The threads of the operations before, the client after the join, and
    the run of the worker when nothing interferes. *)
Variable pl : list Thread.
Variable after : Prog unit.
Variable alone : World * Result unit.

(** The worker is started and the client waits for it: the rest of the
    worker's run leads where the undisturbed run leads. *)
Definition seg_running (c : Config) : Prop :=
  exists q,
    pool (world c) = pl ++ [mkThread true q]
    /\ _thread (self (world c)) = Some (length pl)
    /\ waits_for (length pl) after (main c)
    /\ snd (run (Worker (length pl)) q (world c)) = snd alone
    /\ with_pool [] (fst (run (Worker (length pl)) q (world c)))
       = with_pool [] (fst alone).

(** The worker has ended and [join] has returned. *)
Definition seg_ended (c : Config) : Prop :=
  exists q,
    pool (world c) = pl ++ [mkThread true q]
    /\ _thread (self (world c)) = Some (length pl)
    /\ main c = after
    /\ with_pool [] (world c) = with_pool [] (fst alone)
    /\ match snd alone with
       | Done _ => q = Ret tt
       | Failed e => q = Raise e
       | Blocked _ => False
       end.

End Segment.

Section TwoOperations.

Variable PROGRESS : bool.
Variable task1 task2 : Prog unit.
Variable s : Sloth.

(** The client: the first operation, the second, then [wait()]. *)
Definition two_operations : Config :=
  mkConfig (_run PROGRESS task1;; _run PROGRESS task2;; about_to_wait)
           (init_world s).

(** The world between the operations: the first worker has ended as [q]
    and left the world of its undisturbed run. *)
Definition between (q : Prog unit) (w : World) : Prop :=
  finished q = true
  /\ pool w = [mkThread true q]
  /\ _thread (self w) = Some 0%nat
  /\ blocking (self w) = false
  /\ with_pool [] w = with_pool [] (fst (worker_alone PROGRESS task1 s)).

(** The world in which the second worker starts, and its undisturbed
    run. *)
Definition second_start (w : World) : World :=
  launch (wrapped_task PROGRESS task2) (open_bar PROGRESS w).

Definition second_alone (w : World) : World * Result unit :=
  run (Worker 1) (wrapped_task PROGRESS task2) (second_start w).

(** The states of the two operations: before the first worker is started;
    the first worker runs; the second operation is being set up; the second
    worker runs; both have ended. *)
Definition chain_inv (c : Config) : Prop :=
  (exists k, (k < launch_steps PROGRESS)%nat
             /\ exec (go k Main) two_operations = Some c)
  \/ seg_running [] (launching PROGRESS task2;; about_to_wait)
       (worker_alone PROGRESS task1 s) c
  \/ exists q w,
       between q w
       /\ ((exists k, (k < relaunch_steps PROGRESS)%nat
                      /\ exec (go k Main)
                           (mkConfig (launching PROGRESS task2;; about_to_wait) w)
                         = Some c)
           \/ seg_running [mkThread true q] (Ret tt) (second_alone w) c
           \/ seg_ended [mkThread true q] (Ret tt) (second_alone w) c).

End TwoOperations.

(** A client of a background object with data: [compute()], then
    [wait()]; and of one with a witness: [verify()], then [wait()]. *)
Definition hello_compute_then_wait : Config :=
  mkConfig (script true toy_sloth toy_verification [CallCompute; CallWait None])
           (init_world (hello_task false)).

Definition hello_verify_then_wait : Config :=
  mkConfig (script true toy_sloth toy_verification [CallVerify; CallWait None])
           (init_world (hello_proof false)).

(** A schedule that interleaves the client and the worker: the client
    starts the worker, the worker takes [n1] steps, the client goes on to
    [join], the worker takes its other [n2] steps, the client ends. *)
Definition interleaved (n1 n2 : nat) : list Decision :=
  go 10 Main ++ go n1 (Worker 0) ++ go 1 Main ++ go n2 (Worker 0) ++ go 1 Main.

(** A client of a background object with data: [compute()], [verify()],
    then [wait()]; and the same client without the [wait()]. *)
Definition hello_compute_verify_wait : Config :=
  mkConfig (script true toy_sloth toy_verification
              [CallCompute; CallVerify; CallWait None])
           (init_world (hello_task false)).

Definition hello_compute_verify : Config :=
  mkConfig (script true toy_sloth toy_verification [CallCompute; CallVerify])
           (init_world (hello_task false)).

(** A schedule for the first of these clients that interleaves it with its
    two workers. *)
Definition two_rounds : list Decision :=
  go 10 Main ++ go 5 (Worker 0) ++ go 2 Main ++ go 9 (Worker 0) ++ go 9 Main
  ++ go 3 (Worker 1) ++ go 1 Main ++ go 13 (Worker 1) ++ go 1 Main.
(** * Properties *)

(** ** Sanity checks of the Python layer *)

Example encode_hello :
  encode_utf8 (codepoints "hello") = Returned ["h"; "e"; "l"; "l"; "o"]%byte.
Proof. reflexivity. Qed.

Example encode_euro : encode_utf8 [0x20AC%N] = Returned [xe2; x82; xac].
Proof. reflexivity. Qed.

Example encode_surrogate : encode_utf8 [0xD800%N] = Raised UnicodeEncodeError.
Proof. reflexivity. Qed.

Example str_of_minus_42 : py_str (SInt (-42)) = codepoints "-42".
Proof. reflexivity. Qed.

Example construct_1024 :
  Sloth_new (mkArgs (VStr (codepoints "hello")) (VInt 1024) (VInt 10) None None true)
  = Returned (mkSloth (Some ["h"; "e"; "l"; "l"; "o"]%byte) 1024 10 None None None true None).
Proof. vm_compute. reflexivity. Qed.

Example construct_513 :
  construct (mkArgs VNone (VInt 513) (VInt 10) None None true)
  = (∅, Raised AssertionError).
Proof. vm_compute. reflexivity. Qed.

Lemma encode_utf8_raises s e :
  encode_utf8 s = Raised e -> e = UnicodeEncodeError.
Proof.
  destruct s as [|c s]; cbn; [discriminate|].
  destruct (utf8_encode_cp c), (encode_utf8 s); congruence.
Qed.

(** ** The constructor *)

Ltac init_unfold :=
  unfold __init__, mbind, InitM_bind, assert_, int_operand, raise,
    mret, InitM_ret, setattr, data_setter, lift_outcome, multiple_of_512.

Ltac init_finish :=
  unfold mbind, InitM_bind, setattr, lift_outcome;
  repeat match goal with
         | |- context [encode_utf8 ?s] =>
             let E := fresh "E" in
             destruct (encode_utf8 s) eqn:E;
             [| apply encode_utf8_raises in E; subst]
         end;
  first [ reflexivity
        | left; reflexivity
        | right; eexists; split; [reflexivity |];
          match goal with
          | |- exists s, Sloth_of_attrs ?D = Some s /\ _ =>
              let r := eval vm_compute in (Sloth_of_attrs D) in
              match r with
              | Some ?s =>
                  exists s; split; [vm_compute; reflexivity | repeat split]
              end
          end ].

(** The three ways a constructor call can end: the assertions turn the
    arguments away before anything is assigned; the data cannot be encoded,
    after [_data] alone was assigned; or every attribute is assigned. *)
Lemma construct_cases (a : InitArgs) :
  if isinstance_int (arg_bits a) && multiple_of_512 (arg_bits a)
     && isinstance_int (arg_iterations a)
  then construct a = ({[ "_data" := Val VNone ]}, Raised UnicodeEncodeError)
       \/ (exists d, construct a = (d, Returned tt)
                      /\ exists s, Sloth_of_attrs d = Some s /\ constructed a s)
  else construct a = (∅, Raised AssertionError).
Proof.
  destruct a as [dat b it fh wi bl]; unfold construct;
    cbn [arg_bits arg_iterations arg_data arg_final_hash arg_witness arg_blocking].
  init_unfold.
  destruct b as [[| vb | zb] | |]; cbn [isinstance_int int_value andb]; try reflexivity.
  - destruct vb; [reflexivity|].
    change (py_mod 0 512 =? 0) with true. cbn [andb].
    destruct it as [[| vi | zi] | |]; cbn [isinstance_int int_value andb]; try reflexivity;
      destruct dat as [[| vd | zd] | sd | bd], fh, wi; init_finish.
  - destruct (py_mod zb 512 =? 0); cbn [andb]; [|reflexivity].
    destruct it as [[| vi | zi] | |]; cbn [isinstance_int int_value andb]; try reflexivity;
      destruct dat as [[| vd | zd] | sd | bd], fh, wi; init_finish.
Qed.

(** C2, as the code has it: the constructor fails with the assertion error
    exactly when [bits] is not an [int] instance, [bits] is not a multiple of
    512, or [iterations] is not an [int] instance (it does not ask for
    positive values); that failure comes before any attribute of the object
    is assigned, and a constructor call that returns has assigned all of
    them. *)
Theorem construct_fails_iff (a : InitArgs) :
  (snd (construct a) = Raised AssertionError <->
     isinstance_int (arg_bits a) = false
     \/ multiple_of_512 (arg_bits a) = false
     \/ isinstance_int (arg_iterations a) = false)
  /\ (snd (construct a) = Raised AssertionError <->
        construct a = (∅, Raised AssertionError))
  /\ (snd (construct a) = Returned tt <->
        is_Some (Sloth_of_attrs (fst (construct a)))
        /\ exists s, Sloth_new a = Returned s).
Proof.
  pose proof (construct_cases a) as H. unfold Sloth_new.
  destruct (isinstance_int (arg_bits a)), (multiple_of_512 (arg_bits a)),
    (isinstance_int (arg_iterations a)); cbn [andb] in H.
  2-8: rewrite H; cbn [fst snd]; repeat split; try tauto; try discriminate;
       try (intros [_ [s Hs]]; discriminate).
  destruct H as [H | (d & H & s & Es & _)]; rewrite H; cbn [fst snd].
  - repeat split; try discriminate; try (intuition discriminate).
    + intros [[s Hs] _]. vm_compute in Hs. discriminate.
  - rewrite Es.
    repeat split; try discriminate; try (intuition discriminate);
      by eexists.
Qed.

(** What a constructor call that returns has stored. *)
Lemma Sloth_new_constructed (a : InitArgs) (s : Sloth) :
  Sloth_new a = Returned s -> constructed a s.
Proof.
  pose proof (construct_cases a) as H. unfold Sloth_new.
  destruct (isinstance_int (arg_bits a) && multiple_of_512 (arg_bits a)
            && isinstance_int (arg_iterations a)).
  - destruct H as [H | (d & H & s' & Es & Hc)]; rewrite H; [discriminate|].
    rewrite Es. by intros [= <-].
  - rewrite H. discriminate.
Qed.

(** C2, as the specification words it, fails: 512 bits and zero iterations
    are accepted, although zero is not a positive integer. *)
Lemma construct_accepts_zero_iterations :
  spec_invalid_parameter (mkArgs VNone (VInt 512) (VInt 0) None None true) = true
  /\ Sloth_new (mkArgs VNone (VInt 512) (VInt 0) None None true)
     = Returned (mkSloth None 512 0 None None None true None).
Proof. split; vm_compute; reflexivity. Qed.

(** The same for a bit width that is not positive. *)
Example construct_accepts_negative_bits :
  spec_invalid_parameter (mkArgs VNone (VInt (-512)) (VInt 1) None None true) = true
  /\ snd (construct (mkArgs VNone (VInt (-512)) (VInt 1) None None true))
     = Returned tt.
Proof. split; vm_compute; reflexivity. Qed.

(** ** Running one thread on its own *)

Lemma run_bind {A B} t (p : Prog A) (f : A -> Prog B) w :
  run t (bind p f) w =
  match run t p w with
  | (w', Done a) => run t (f a) w'
  | (w', Failed e) => (w', Failed e)
  | (w', Blocked p') => (w', Blocked (bind p' f))
  end.
Proof.
  revert B f w.
  induction p as [A a | A e | A X a k IH | A target _ k IH]; intros B f w; cbn.
  - reflexivity.
  - reflexivity.
  - destruct (act t a w) as [[x w']|]; [apply IH | reflexivity].
  - apply IH.
Qed.

Lemma with_bars_id w : with_bars (bars w) w = w.
Proof. by destruct w. Qed.

Lemma filter_self (t : tid) (l : list tid) :
  filter (fun t' => t' <> t) (t :: l) = filter (fun t' => t' <> t) l.
Proof. rewrite filter_cons. destruct (decide (t <> t)); congruence. Qed.

Lemma lookup_snoc {A} (l : list A) (x : A) : (l ++ [x]) !! length l = Some x.
Proof. by apply list_lookup_middle. Qed.

Lemma insert_snoc {A} (l : list A) (x y : A) :
  <[length l := y]> (l ++ [x]) = l ++ [y].
Proof. rewrite insert_app_r_alt by lia. by rewrite Nat.sub_diag. Qed.

Section Sequential.

Variable PROGRESS : bool.
Variable c_sloth : nat -> option bytes -> Z -> Z -> LibRun SlothOut.
Variable c_sloth_verification :
  nat -> option bytes -> Z -> option bytes -> option bytes -> Z -> Z -> LibRun Z.

Lemma run_callbacks t ds w :
  run t (callbacks PROGRESS ds) w =
  (with_bars (advance PROGRESS (progressbar w) ds (bars w)) w, Done tt).
Proof.
  revert w. induction ds as [|d ds IH]; intros w; cbn.
  - unfold advance. destruct PROGRESS, (progressbar w); cbn; by rewrite with_bars_id.
  - unfold mbind, Prog_bind. rewrite run_bind.
    unfold update_progress, advance. destruct PROGRESS; cbn.
    + destruct (progressbar w) eqn:E; cbn; rewrite IH; cbn; rewrite ?E; reflexivity.
    + rewrite IH. reflexivity.
Qed.

Lemma run_lib_call {X} t (f : nat -> LibRun X) w :
  run t (lib_call PROGRESS f) w =
  (after_lib PROGRESS t (reported (f (ncalls w))) w,
   lib_result (result (f (ncalls w)))).
Proof.
  unfold lib_call, mbind, Prog_bind. cbn.
  rewrite run_bind, run_callbacks. cbn -[filter].
  rewrite filter_self. unfold after_lib.
  destruct (result (f (ncalls w))); reflexivity.
Qed.

Lemma run_compute_task t w :
  lock w = None -> 0 <= int_div8 (bits (self w)) ->
  run t (compute_task PROGRESS c_sloth) w =
  match result (sloth_run c_sloth w) with
  | Returned o =>
      (after_publish t (published_witness (bits (self w)) o) (published_digest o)
         (after_lib PROGRESS t (reported (sloth_run c_sloth w)) w), Done tt)
  | Raised e =>
      (after_lib PROGRESS t (reported (sloth_run c_sloth w)) w, Failed e)
  end.
Proof.
  intros Hlock Hbits. unfold compute_task, ffi_new_uchar, sloth_run.
  change (64 <? 0) with false. unfold mbind, Prog_bind.
  cbn [bind perform run act].
  destruct (Z.ltb_spec (int_div8 (bits (self w))) 0) as [?|_]; [lia|].
  cbn [bind perform run act].
  rewrite run_bind, run_lib_call.
  destruct (result _) as [o|e]; cbn [lib_result]; [|reflexivity].
  unfold with_lock, mbind, Prog_bind.
  cbn [bind perform finally run act after_lib lock].
  rewrite Hlock. reflexivity.
Qed.

(** A negative buffer size stops [compute_task] before the library call. *)
Lemma run_compute_task_no_buffer t w :
  int_div8 (bits (self w)) < 0 ->
  run t (compute_task PROGRESS c_sloth) w = (w, Failed (ForeignError 0)).
Proof.
  intros Hbits. unfold compute_task, ffi_new_uchar.
  change (64 <? 0) with false. unfold mbind, Prog_bind.
  cbn [bind perform run act].
  destruct (Z.ltb_spec (int_div8 (bits (self w))) 0) as [_|?]; [|lia].
  reflexivity.
Qed.

Lemma run_verify_task_unset t w :
  witness (self w) = None ->
  run t (verify_task PROGRESS c_sloth_verification) w = (w, Failed AssertionError).
Proof. intros H. unfold verify_task. cbn. rewrite H. reflexivity. Qed.

Lemma run_verify_task t w :
  lock w = None -> witness (self w) <> None ->
  run t (verify_task PROGRESS c_sloth_verification) w =
  match result (verification_run c_sloth_verification w) with
  | Returned v =>
      (after_verdict t (v =? 1)
         (after_lib PROGRESS t
            (reported (verification_run c_sloth_verification w)) w), Done tt)
  | Raised e =>
      (after_lib PROGRESS t
         (reported (verification_run c_sloth_verification w)) w, Failed e)
  end.
Proof.
  intros Hlock Hw. unfold verify_task, verification_run.
  destruct (witness (self w)) as [wb|] eqn:E; [|done].
  unfold mbind, Prog_bind. cbn [bind perform run act]. rewrite E.
  cbn [bind perform run act]. rewrite E.
  cbn [bind perform run act].
  rewrite run_bind, run_lib_call. cbn [default].
  destruct (result _) as [v|e]; cbn [lib_result]; [|reflexivity].
  unfold with_lock, mbind, Prog_bind.
  cbn [bind perform finally run act after_lib lock].
  rewrite Hlock. reflexivity.
Qed.

Lemma run_wrapped_task t task w :
  run t (wrapped_task PROGRESS task) w =
  match run t task w with
  | (w', Done _) =>
      if PROGRESS then
        match progressbar w' with
        | Some b => (close_bar b w', Done tt)
        | None => (w', Failed AttributeError)
        end
      else (w', Done tt)
  | (w', Failed e) => (w', Failed e)
  | (w', Blocked p') =>
      (w', Blocked (bind p' (fun _ =>
         if PROGRESS then
           pb ← perform GetProgressbar;
           match pb with
           | Some b => perform (TqdmClose b)
           | None => Raise AttributeError
           end
         else Ret tt)))
  end.
Proof.
  unfold wrapped_task, mbind, Prog_bind. rewrite run_bind.
  destruct (run t task w) as [w' [[]|e|p']]; try reflexivity.
  destruct PROGRESS; [|reflexivity].
  cbn [bind perform run act]. destruct (progressbar w'); reflexivity.
Qed.

Lemma run__run_blocking task w :
  blocking (self w) = true ->
  run Main (_run PROGRESS task) w =
  run Main (wrapped_task PROGRESS task) (open_bar PROGRESS w).
Proof.
  intros Hb. unfold _run, open_bar, mbind, Prog_bind.
  cbn [bind perform run act]. rewrite Hb. cbn [negb bind].
  destruct PROGRESS;
    cbn [bind perform run act self with_progressbar record with_bars];
    rewrite Hb; reflexivity.
Qed.

Lemma run_wait_joinable w :
  joinable w -> run Main (wait None) w = (w, Done tt).
Proof.
  intros Hj. unfold wait, joinable, mbind, Prog_bind in *.
  cbn [bind perform run act].
  destruct (_thread (self w)) as [i|]; [|reflexivity].
  destruct Hj as (th & Hth & Hs & Hf).
  cbn [bind perform perform_raising run act]. by rewrite Hth, Hs, Hf.
Qed.

Lemma run__run_background task w :
  blocking (self w) = false -> joinable w ->
  run Main (_run PROGRESS task) w =
  (launch (wrapped_task PROGRESS task) (open_bar PROGRESS w), Done tt).
Proof.
  intros Hb Hj. pose proof (run_wait_joinable w Hj) as Hwait.
  unfold _run, mbind, Prog_bind.
  cbn [bind perform run act]. rewrite Hb. cbn [negb].
  rewrite run_bind, Hwait.
  unfold open_bar, launch.
  destruct PROGRESS;
    cbn [bind perform perform_raising run act self with_progressbar record
         with_bars pool spawn with_pool with_self set_thread _thread blocking];
    rewrite Hb;
    cbn [bind perform perform_raising run act self with_progressbar record
         with_bars pool spawn with_pool with_self set_thread _thread blocking];
    rewrite lookup_snoc; cbn [started]; rewrite insert_snoc; reflexivity.
Qed.

(** A blocking object never waits: [wait] finds no worker. *)
Lemma run_wait_no_thread timeout w :
  _thread (self w) = None -> run Main (wait timeout) w = (w, Done tt).
Proof.
  intros H. unfold wait, mbind, Prog_bind. cbn [bind perform run act].
  by rewrite H.
Qed.

(** [wait] changes nothing, whether it returns, raises or keeps waiting. *)
Lemma run_wait_world t timeout w : fst (run t (wait timeout) w) = w.
Proof.
  unfold wait, mbind, Prog_bind. cbn [bind perform perform_raising run act].
  destruct (_thread (self w)) as [i|]; [|reflexivity].
  cbn [bind perform perform_raising run act].
  destruct (pool w !! i) as [th|]; [|reflexivity].
  destruct (started th); cbn [negb]; [|reflexivity].
  destruct (finished (code th)); reflexivity.
Qed.

(** How [wait] ends depends on [_thread] and on the threads only. *)
Lemma run_wait_outcome t timeout w1 w2 :
  self w1 = self w2 -> pool w1 = pool w2 ->
  outcome_of (snd (run t (wait timeout) w1))
  = outcome_of (snd (run t (wait timeout) w2)).
Proof.
  intros Hs Hp.
  unfold wait, mbind, Prog_bind. cbn [bind perform perform_raising run act].
  rewrite <- Hs. destruct (_thread (self w1)) as [i|]; [|reflexivity].
  cbn [bind perform perform_raising run act]. rewrite <- Hp.
  destruct (pool w1 !! i) as [th|]; [|reflexivity].
  destruct (started th); cbn [negb]; [|reflexivity].
  destruct (finished (code th)); reflexivity.
Qed.

End Sequential.

(** ** Bars, buffers and the bookkeeping of the world *)

Lemma advance_length P pb ds bs : length (advance P pb ds bs) = length bs.
Proof.
  unfold advance. destruct P, pb as [b|]; try reflexivity.
  revert bs. induction ds as [|d ds IH]; intros bs; cbn; [reflexivity|].
  rewrite IH. apply length_alter.
Qed.

Lemma advance_lookup P pb ds bs i bar :
  advance P pb ds bs !! i = Some bar ->
  exists bar0, bs !! i = Some bar0
               /\ bar_total bar = bar_total bar0
               /\ bar_closed bar = bar_closed bar0.
Proof.
  unfold advance. destruct P, pb as [b|]; eauto.
  revert bs bar. induction ds as [|d ds IH]; intros bs bar; cbn; eauto.
  intros H. apply IH in H as (bar1 & H & Ht & Hc).
  destruct (decide (b = i)) as [->|Hne].
  - rewrite list_lookup_alter_eq in H.
    apply fmap_Some in H as (bar0 & H & ->). exists bar0.
    split; [done|]. unfold bar_update in Ht, Hc.
    destruct (bar_closed bar0) eqn:E; cbn in Ht, Hc; split; congruence.
  - rewrite list_lookup_alter_ne in H by done. eauto.
Qed.

Lemma written_length (buf data : bytes) : length (written buf data) = length buf.
Proof.
  unfold written. rewrite length_take, length_app, length_drop. lia.
Qed.

Lemma published_digest_length o : length (published_digest o) = 64%nat.
Proof. unfold published_digest. by rewrite written_length, length_replicate. Qed.

Lemma published_witness_length b o :
  (length (published_witness b o) <= Z.to_nat (int_div8 b))%nat.
Proof.
  unfold published_witness.
  rewrite length_take, written_length, length_replicate. lia.
Qed.

Lemma open_bar_self P w : self (open_bar P w) = self w.
Proof. by destruct P. Qed.

Lemma open_bar_lock P w : lock (open_bar P w) = lock w.
Proof. by destruct P. Qed.

Lemma open_bar_pool P w : pool (open_bar P w) = pool w.
Proof. by destruct P. Qed.

Lemma open_bar_ncalls P w : ncalls (open_bar P w) = ncalls w.
Proof. by destruct P. Qed.

Lemma open_bar_inlib P w : inlib (open_bar P w) = inlib w.
Proof. by destruct P. Qed.

Lemma sloth_run_open_bar c P w : sloth_run c (open_bar P w) = sloth_run c w.
Proof. by destruct P. Qed.

Lemma verification_run_open_bar c P w :
  verification_run c (open_bar P w) = verification_run c w.
Proof. by destruct P. Qed.

Create HintDb world.

#[local] Hint Rewrite open_bar_self open_bar_lock open_bar_pool open_bar_ncalls
  open_bar_inlib sloth_run_open_bar verification_run_open_bar : world.


(** ** The task bodies and the blocking calls *)

Section Claims.

Variable PROGRESS : bool.
Variable c_sloth : nat -> option bytes -> Z -> Z -> LibRun SlothOut.
Variable c_sloth_verification :
  nat -> option bytes -> Z -> option bytes -> option bytes -> Z -> Z -> LibRun Z.

Local Notation compute_task' := (compute_task PROGRESS c_sloth).
Local Notation verify_task' := (verify_task PROGRESS c_sloth_verification).
Local Notation compute' := (compute PROGRESS c_sloth).
Local Notation verify' := (verify PROGRESS c_sloth_verification).
Local Notation script' := (script PROGRESS c_sloth c_sloth_verification).

Lemma run_compute_blocking w :
  blocking (self w) = true -> lock w = None -> 0 <= int_div8 (bits (self w)) ->
  run Main compute' w =
  match result (sloth_run c_sloth w) with
  | Returned o =>
      let w1 :=
        after_publish Main (published_witness (bits (self w)) o)
          (published_digest o)
          (after_lib PROGRESS Main (reported (sloth_run c_sloth w))
             (open_bar PROGRESS w)) in
      (if PROGRESS then close_bar (length (bars w)) w1 else w1, Done tt)
  | Raised e =>
      (after_lib PROGRESS Main (reported (sloth_run c_sloth w))
         (open_bar PROGRESS w), Failed e)
  end.
Proof.
  intros Hb Hl Hbits. unfold compute.
  rewrite run__run_blocking, run_wrapped_task, run_compute_task
    by (autorewrite with world; done).
  autorewrite with world.
  destruct (result (sloth_run c_sloth w)); [|reflexivity].
  destruct PROGRESS; reflexivity.
Qed.

Lemma run_verify_blocking w :
  blocking (self w) = true -> lock w = None -> witness (self w) <> None ->
  run Main verify' w =
  match result (verification_run c_sloth_verification w) with
  | Returned v =>
      let w1 :=
        after_verdict Main (v =? 1)
          (after_lib PROGRESS Main
             (reported (verification_run c_sloth_verification w))
             (open_bar PROGRESS w)) in
      (if PROGRESS then close_bar (length (bars w)) w1 else w1, Done tt)
  | Raised e =>
      (after_lib PROGRESS Main
         (reported (verification_run c_sloth_verification w))
         (open_bar PROGRESS w), Failed e)
  end.
Proof.
  intros Hb Hl Hw. unfold verify.
  rewrite run__run_blocking, run_wrapped_task, run_verify_task
    by (autorewrite with world; done).
  autorewrite with world.
  destruct (result (verification_run c_sloth_verification w)); [|reflexivity].
  destruct PROGRESS; reflexivity.
Qed.

(** C8: a computation that succeeds publishes the witness and the digest
    together, between acquiring and releasing the lock, and leaves [valid]
    as it was.  The first part is about the task body, whichever thread runs
    it (the caller in blocking mode, the worker otherwise); the second about
    a whole call of [compute] in blocking mode. *)
Theorem compute_publishes_under_lock (t : tid) (w : World) (o : SlothOut) :
  lock w = None -> 0 <= int_div8 (bits (self w)) ->
  result (sloth_run c_sloth w) = Returned o ->
  (let r := run t compute_task' w in
   snd r = Done tt
   /\ witness (self (fst r)) = Some (published_witness (bits (self w)) o)
   /\ final_hash (self (fst r)) = Some (published_digest o)
   /\ length (published_digest o) = 64%nat
   /\ valid (self (fst r)) = valid (self w)
   /\ lock (fst r) = None
   /\ log (fst r) =
        EvRelease t :: EvSet t Ffinal_hash :: EvSet t Fwitness :: EvAcquire t
          :: EvLeave t (ncalls w) :: EvEnter t (ncalls w) :: log w)
  /\ (blocking (self w) = true ->
      let r := run Main compute' w in
      snd r = Done tt
      /\ witness (self (fst r)) = Some (published_witness (bits (self w)) o)
      /\ final_hash (self (fst r)) = Some (published_digest o)
      /\ valid (self (fst r)) = valid (self w)
      /\ lock (fst r) = None
      /\ log (fst r) =
           bar_closing PROGRESS w
           ++ [EvRelease Main; EvSet Main Ffinal_hash; EvSet Main Fwitness;
               EvAcquire Main; EvLeave Main (ncalls w); EvEnter Main (ncalls w)]
           ++ bar_opened PROGRESS w ++ log w).
Proof.
  intros Hl Hbits Ho. split.
  - cbv zeta. rewrite run_compute_task, Ho by done. cbn.
    repeat split. apply published_digest_length.
  - intros Hb. cbv zeta. rewrite run_compute_blocking, Ho by done.
    unfold bar_closing, bar_opened. destruct PROGRESS; cbn; repeat split.
Qed.

(** C6, as the code has it: when the library returns a code, [valid]
    becomes [True] for the code 1 and [False] for any other, and nothing is
    raised; when the library call raises, the exception goes on to the
    caller and [valid] keeps the value it had. *)
Theorem verify_sets_valid_from_code (t : tid) (w : World) :
  lock w = None -> witness (self w) <> None ->
  (let r := run t verify_task' w in
   match result (verification_run c_sloth_verification w) with
   | Returned v =>
       snd r = Done tt /\ valid (self (fst r)) = Some (v =? 1)
       /\ (valid (self (fst r)) = Some true <-> v = 1)
   | Raised e => snd r = Failed e /\ valid (self (fst r)) = valid (self w)
   end)
  /\ (blocking (self w) = true ->
      let r := run Main verify' w in
      match result (verification_run c_sloth_verification w) with
      | Returned v =>
          snd r = Done tt /\ valid (self (fst r)) = Some (v =? 1)
          /\ (valid (self (fst r)) = Some true <-> v = 1)
      | Raised e => snd r = Failed e /\ valid (self (fst r)) = valid (self w)
      end).
Proof.
  intros Hl Hw.
  assert (Hiff : forall v, Some (v =? 1) = Some true <-> v = 1).
  { intros v. split; [intros [= H%Z.eqb_eq]|intros ->]; done. }
  split.
  - cbv zeta. rewrite run_verify_task by done.
    destruct (result _); cbn; auto.
  - intros Hb. cbv zeta. rewrite run_verify_blocking by done.
    destruct (result _); [|by cbn; autorewrite with world].
    destruct PROGRESS; cbn; auto.
Qed.

End Claims.

(** ** What the task bodies leave alone *)

Lemma bars_kept_refl bs : bars_kept bs bs.
Proof. split; eauto. Qed.

Lemma bars_kept_advance P pb ds bs : bars_kept bs (advance P pb ds bs).
Proof. split; [apply advance_length | apply advance_lookup]. Qed.

Lemma task_frame_refl w : task_frame w w.
Proof.
  unfold task_frame. repeat split; eauto using bars_kept_refl.
  by exists [].
Qed.

Section Frames.

Variable PROGRESS : bool.
Variable c_sloth : nat -> option bytes -> Z -> Z -> LibRun SlothOut.
Variable c_sloth_verification :
  nat -> option bytes -> Z -> option bytes -> option bytes -> Z -> Z -> LibRun Z.

Lemma after_lib_frame t ds w : task_frame w (after_lib PROGRESS t ds w).
Proof.
  unfold task_frame, after_lib. cbn. repeat split.
  - apply advance_length.
  - apply advance_lookup.
  - by eexists [_; _].
Qed.

Lemma compute_task_frame t w :
  lock w = None ->
  task_frame w (fst (run t (compute_task PROGRESS c_sloth) w))
  /\ outcome_of (snd (run t (compute_task PROGRESS c_sloth) w)) <> None.
Proof.
  intros Hl.
  destruct (Z.lt_ge_cases (int_div8 (bits (self w))) 0) as [Hq|Hq].
  - rewrite run_compute_task_no_buffer by done. split; [apply task_frame_refl|done].
  - rewrite run_compute_task by done.
    destruct (result _); cbn [fst snd]; (split; [|done]).
    + unfold task_frame, after_publish, after_lib. cbn. repeat split; try done.
      * apply advance_length.
      * apply advance_lookup.
      * by eexists [_; _; _; _; _; _].
    + apply after_lib_frame.
Qed.

Lemma verify_task_frame t w :
  lock w = None ->
  task_frame w (fst (run t (verify_task PROGRESS c_sloth_verification) w))
  /\ outcome_of (snd (run t (verify_task PROGRESS c_sloth_verification) w)) <> None.
Proof.
  intros Hl. destruct (witness (self w)) as [wb|] eqn:Hw.
  - rewrite run_verify_task by (done || congruence).
    destruct (result _); cbn [fst snd]; (split; [|done]).
    + unfold task_frame, after_verdict, after_lib. cbn. repeat split; try done.
      * apply advance_length.
      * apply advance_lookup.
      * by eexists [_; _; _; _; _].
    + apply after_lib_frame.
  - rewrite run_verify_task_unset by done. split; [apply task_frame_refl|done].
Qed.

End Frames.

(** ** The progress bar *)

Section ProgressOn.

Variable c_sloth : nat -> option bytes -> Z -> Z -> LibRun SlothOut.
Variable c_sloth_verification :
  nat -> option bytes -> Z -> option bytes -> option bytes -> Z -> Z -> LibRun Z.

Lemma task_frame_cases (t : tid) (w : World) (task : Prog unit) :
  lock w = None ->
  task = compute_task true c_sloth
  \/ task = verify_task true c_sloth_verification ->
  task_frame w (fst (run t task w)) /\ outcome_of (snd (run t task w)) <> None.
Proof.
  intros Hl [-> | ->]; [by apply compute_task_frame | by apply verify_task_frame].
Qed.

(** With the bar on, [wrapped_task] closes the bar the module global names
    once when the task returns, and not at all when the task raises. *)
Lemma wrapped_task_closes (t : tid) (w : World) (task : Prog unit) b bar0 :
  lock w = None ->
  task = compute_task true c_sloth
  \/ task = verify_task true c_sloth_verification ->
  progressbar w = Some b -> bars w !! b = Some bar0 ->
  exists bar l,
    bars (fst (run t (wrapped_task true task) w)) !! b = Some bar
    /\ bar_total bar = bar_total bar0
    /\ log (fst (run t (wrapped_task true task) w)) = l ++ log w
    /\ match snd (run t (wrapped_task true task) w) with
       | Done _ => bar_closed bar = S (bar_closed bar0)
       | Failed _ => bar_closed bar = bar_closed bar0
       | Blocked _ => False
       end.
Proof.
  intros Hl Ht Hpb Hbar.
  destruct (task_frame_cases t w task Hl Ht) as [Hf Hr].
  rewrite run_wrapped_task.
  destruct (run t task w) as [w' r]. cbn [fst snd] in *.
  destruct Hf as (_ & _ & Hpb' & _ & _ & _ & _ & _ & [Hlen Hkept] & l & Hlog).
  assert (Hlt : (b < length (bars w'))%nat).
  { rewrite Hlen. by eapply lookup_lt_Some. }
  destruct (lookup_lt_is_Some_2 _ _ Hlt) as [bar1 Hbar1].
  destruct (Hkept _ _ Hbar1) as (bar0' & Hbar0' & Htot & Hcl).
  assert (bar0' = bar0) as -> by congruence.
  destruct r as [[]|e|p]; cbn in Hr; [| |done].
  - rewrite Hpb', Hpb. cbn [fst snd close_bar bars log].
    exists (bar_close bar1), (EvClose b :: l). repeat split.
    + rewrite list_lookup_alter_eq, Hbar1. reflexivity.
    + done.
    + by rewrite Hlog.
    + cbn. by rewrite Hcl.
  - exists bar1, l. cbn [fst snd]. done.
Qed.

(** [wrapped_task] leaves alone every bar but the one the module global
    names. *)
Lemma wrapped_task_others (t : tid) (w : World) (task : Prog unit) b i bar :
  lock w = None ->
  task = compute_task true c_sloth
  \/ task = verify_task true c_sloth_verification ->
  progressbar w = Some b -> i <> b ->
  bars (fst (run t (wrapped_task true task) w)) !! i = Some bar ->
  exists bar0, bars w !! i = Some bar0
               /\ bar_total bar = bar_total bar0
               /\ bar_closed bar = bar_closed bar0.
Proof.
  intros Hl Ht Hpb Hne.
  destruct (task_frame_cases t w task Hl Ht) as [Hf Hr].
  rewrite run_wrapped_task.
  destruct (run t task w) as [w' r]. cbn [fst snd] in *.
  destruct Hf as (_ & _ & Hpb' & _ & _ & _ & _ & _ & [Hlen Hkept] & _).
  destruct r as [[]|e|p]; cbn in Hr; [| |done].
  - rewrite Hpb', Hpb. cbn [fst close_bar bars].
    rewrite list_lookup_alter_ne by done. apply Hkept.
  - cbn [fst]. apply Hkept.
Qed.

End ProgressOn.

(** ** [verify] without a witness *)

Section NoWitness.

Variable PROGRESS : bool.
Variable c_sloth_verification :
  nat -> option bytes -> Z -> option bytes -> option bytes -> Z -> Z -> LibRun Z.

Local Notation verify_task' := (verify_task PROGRESS c_sloth_verification).
Local Notation verify' := (verify PROGRESS c_sloth_verification).

(** C3, as the code has it: the assertion sits in the task body.  Whoever
    runs the body while [witness] is unset fails with the assertion error
    and changes nothing: no library call is made.  In blocking mode the
    caller of [verify] gets that error, after [_run] set up the progress
    bar.  In background mode [verify] returns normally: the worker is
    created and started first, and the assertion fails on the worker. *)
Theorem verify_without_witness (t : tid) (w : World) :
  witness (self w) = None ->
  run t verify_task' w = (w, Failed AssertionError)
  /\ (blocking (self w) = true ->
      run Main verify' w = (open_bar PROGRESS w, Failed AssertionError)
      /\ ncalls (open_bar PROGRESS w) = ncalls w
      /\ pool (open_bar PROGRESS w) = pool w)
  /\ (blocking (self w) = false -> joinable w ->
      let w1 := launch (wrapped_task PROGRESS verify_task') (open_bar PROGRESS w) in
      run Main verify' w = (w1, Done tt)
      /\ pool w1 = pool w ++ [mkThread true (wrapped_task PROGRESS verify_task')]
      /\ run (Worker (length (pool w))) (wrapped_task PROGRESS verify_task') w1
         = (w1, Failed AssertionError)
      /\ ncalls w1 = ncalls w).
Proof.
  intros Hw. split; [by apply run_verify_task_unset|]. split.
  - intros Hb. unfold verify.
    rewrite run__run_blocking, run_wrapped_task, run_verify_task_unset
      by (autorewrite with world; done).
    by autorewrite with world.
  - intros Hb Hj. cbv zeta. unfold verify.
    rewrite run__run_background by done.
    rewrite run_wrapped_task, run_verify_task_unset
      by (cbn; autorewrite with world; done).
    cbn. by autorewrite with world.
Qed.

End NoWitness.

(** ** Blocking mode *)

Lemma task_frame_call_frame w w' : task_frame w w' -> call_frame w w'.
Proof. unfold task_frame, call_frame. tauto. Qed.

Lemma call_frame_refl w : call_frame w w.
Proof. unfold call_frame. tauto. Qed.

Lemma call_frame_trans w1 w2 w3 :
  call_frame w1 w2 -> call_frame w2 w3 -> call_frame w1 w3.
Proof. unfold call_frame. intuition congruence. Qed.

Lemma open_bar_call_frame P w : call_frame w (open_bar P w).
Proof. unfold call_frame. by destruct P. Qed.

Lemma close_bar_call_frame b w : call_frame w (close_bar b w).
Proof. unfold call_frame. done. Qed.

Section Blocking.

Variable PROGRESS : bool.
Variable c_sloth : nat -> option bytes -> Z -> Z -> LibRun SlothOut.
Variable c_sloth_verification :
  nat -> option bytes -> Z -> option bytes -> option bytes -> Z -> Z -> LibRun Z.

Local Notation call' := (call PROGRESS c_sloth c_sloth_verification).
Local Notation script' := (script PROGRESS c_sloth c_sloth_verification).

Lemma run_blocking_task (task : Prog unit) w :
  blocking (self w) = true -> lock w = None ->
  task = compute_task PROGRESS c_sloth
  \/ task = verify_task PROGRESS c_sloth_verification ->
  call_frame w (fst (run Main (_run PROGRESS task) w))
  /\ outcome_of (snd (run Main (_run PROGRESS task) w)) <> None.
Proof.
  intros Hb Hl Ht. rewrite run__run_blocking, run_wrapped_task by done.
  assert (Hf : task_frame (open_bar PROGRESS w)
                 (fst (run Main task (open_bar PROGRESS w)))
               /\ outcome_of (snd (run Main task (open_bar PROGRESS w))) <> None).
  { destruct Ht as [-> | ->];
      [apply compute_task_frame | apply verify_task_frame];
      by autorewrite with world. }
  destruct (run Main task (open_bar PROGRESS w)) as [w' r].
  cbn [fst snd] in Hf. destruct Hf as [Hf%task_frame_call_frame Hr].
  pose proof (call_frame_trans _ _ _ (open_bar_call_frame PROGRESS w) Hf) as Hw.
  destruct r as [[]|e|p]; cbn in Hr; try done.
  destruct PROGRESS; [|done].
  destruct (progressbar w') as [b|]; cbn [fst snd]; [|done].
  split; [|done].
  eapply call_frame_trans; [exact Hw | apply close_bar_call_frame].
Qed.

Lemma run_blocking_call (c : Call) w :
  blocking (self w) = true -> lock w = None -> _thread (self w) = None ->
  call_frame w (fst (run Main (call' c) w))
  /\ outcome_of (snd (run Main (call' c) w)) <> None.
Proof.
  intros Hb Hl Ht. destruct c as [| |timeout]; cbn [call].
  - apply run_blocking_task; auto.
  - apply run_blocking_task; auto.
  - rewrite run_wait_no_thread by done. split; [apply call_frame_refl|done].
Qed.

Lemma run_blocking_script (cs : list Call) w :
  blocking (self w) = true -> lock w = None -> _thread (self w) = None ->
  call_frame w (fst (run Main (script' cs) w)).
Proof.
  revert w. induction cs as [|c cs IH]; intros w Hb Hl Ht; cbn [script].
  - apply call_frame_refl.
  - unfold mbind, Prog_bind. rewrite run_bind.
    destruct (run_blocking_call c w Hb Hl Ht) as [Hf Hr].
    destruct (run Main (call' c) w) as [w' r]. cbn [fst snd] in *.
    destruct r as [[]|e|p]; cbn in Hr; try done.
    eapply call_frame_trans; [exact Hf|].
    destruct Hf as (H1 & H2 & H3 & H4 & _).
    apply IH; congruence.
Qed.

(** C10: an object constructed in blocking mode has no worker, and no
    sequence of [compute], [verify] and [wait] calls gives it one: [_thread]
    stays [None], no thread object is ever created, and [wait], whatever
    the timeout, returns at once and changes nothing. *)
Theorem blocking_thread_stays_none (a : InitArgs) (s : Sloth) (cs : list Call) :
  Sloth_new a = Returned s -> arg_blocking a = true ->
  _thread s = None
  /\ _thread (self (fst (run Main (script' cs) (init_world s)))) = None
  /\ pool (fst (run Main (script' cs) (init_world s))) = []
  /\ forall timeout,
       run Main (wait timeout) (fst (run Main (script' cs) (init_world s)))
       = (fst (run Main (script' cs) (init_world s)), Done tt).
Proof.
  intros Hnew Hbl.
  destruct (Sloth_new_constructed a s Hnew) as (Hb & Ht & _).
  rewrite Hbl in Hb.
  destruct (run_blocking_script cs (init_world s) Hb eq_refl Ht)
    as (_ & Hp & _ & Hth & _).
  cbn in Hp, Hth. rewrite Ht in Hth.
  repeat split; try done.
  intros timeout. by apply run_wait_no_thread.
Qed.

End Blocking.

(** ** Switching the progress bar off *)

Section Toggle.

Variable c_sloth : nat -> option bytes -> Z -> Z -> LibRun SlothOut.
Variable c_sloth_verification :
  nat -> option bytes -> Z -> option bytes -> option bytes -> Z -> Z -> LibRun Z.

Lemma same_task_state_sloth_run w1 w2 :
  same_task_state w1 w2 -> sloth_run c_sloth w1 = sloth_run c_sloth w2.
Proof. intros (Hs & Hn & _). unfold sloth_run. by rewrite Hs, Hn. Qed.

Lemma same_task_state_verification_run w1 w2 :
  same_task_state w1 w2 ->
  verification_run c_sloth_verification w1
  = verification_run c_sloth_verification w2.
Proof. intros (Hs & Hn & _). unfold verification_run. by rewrite Hs, Hn. Qed.

(** The task bodies: same fields, same outcome, with the bar on or off. *)
Lemma compute_task_toggle (t : tid) (P1 P2 : bool) w1 w2 :
  same_task_state w1 w2 -> lock w1 = None ->
  same_task_state (fst (run t (compute_task P1 c_sloth) w1))
                  (fst (run t (compute_task P2 c_sloth) w2))
  /\ outcome_of (snd (run t (compute_task P1 c_sloth) w1))
     = outcome_of (snd (run t (compute_task P2 c_sloth) w2))
  /\ lock (fst (run t (compute_task P1 c_sloth) w1)) = None
  /\ progressbar (fst (run t (compute_task P1 c_sloth) w1)) = progressbar w1.
Proof.
  intros Hs Hl. pose proof (same_task_state_sloth_run _ _ Hs) as Hr.
  destruct Hs as (Hs & Hn & Hlk & Hp).
  assert (Hl2 : lock w2 = None) by congruence.
  destruct (Z.lt_ge_cases (int_div8 (bits (self w1))) 0) as [Hq|Hq].
  - rewrite !run_compute_task_no_buffer by (rewrite <- ?Hs; done).
    unfold same_task_state. done.
  - rewrite !run_compute_task by (rewrite <- ?Hs; done). rewrite <- Hr.
    destruct (result _); unfold same_task_state; cbn; rewrite Hs, Hn, ?Hp;
      repeat split; congruence.
Qed.

Lemma verify_task_toggle (t : tid) (P1 P2 : bool) w1 w2 :
  same_task_state w1 w2 -> lock w1 = None ->
  same_task_state (fst (run t (verify_task P1 c_sloth_verification) w1))
                  (fst (run t (verify_task P2 c_sloth_verification) w2))
  /\ outcome_of (snd (run t (verify_task P1 c_sloth_verification) w1))
     = outcome_of (snd (run t (verify_task P2 c_sloth_verification) w2))
  /\ lock (fst (run t (verify_task P1 c_sloth_verification) w1)) = None
  /\ progressbar (fst (run t (verify_task P1 c_sloth_verification) w1))
     = progressbar w1.
Proof.
  intros Hs Hl. pose proof (same_task_state_verification_run _ _ Hs) as Hr.
  destruct Hs as (Hs & Hn & Hlk & Hp).
  assert (Hl2 : lock w2 = None) by congruence.
  destruct (witness (self w1)) as [wb|] eqn:Hw.
  - rewrite !run_verify_task by (rewrite <- ?Hs; done || congruence).
    rewrite <- Hr.
    destruct (result _); unfold same_task_state; cbn; rewrite Hs, Hn, ?Hp;
      repeat split; congruence.
  - rewrite !run_verify_task_unset by (rewrite <- ?Hs; done).
    unfold same_task_state. done.
Qed.

Lemma task_toggle (t : tid) (c : bool) w1 w2 :
  same_task_state w1 w2 -> lock w1 = None ->
  let task P := if c then compute_task P c_sloth
                else verify_task P c_sloth_verification in
  same_task_state (fst (run t (task true) w1)) (fst (run t (task false) w2))
  /\ outcome_of (snd (run t (task true) w1))
     = outcome_of (snd (run t (task false) w2))
  /\ lock (fst (run t (task true) w1)) = None
  /\ progressbar (fst (run t (task true) w1)) = progressbar w1.
Proof.
  intros Hs Hl. destruct c; cbv beta iota zeta.
  - exact (compute_task_toggle t true false w1 w2 Hs Hl).
  - exact (verify_task_toggle t true false w1 w2 Hs Hl).
Qed.

(** [wrapped_task]: the bar on needs the module global to be set, as [_run]
    leaves it. *)
Lemma wrapped_task_toggle (t : tid) (c : bool) w1 w2 :
  same_task_state w1 w2 -> lock w1 = None -> progressbar w1 <> None ->
  let task P := if c then compute_task P c_sloth
                else verify_task P c_sloth_verification in
  same_task_state (fst (run t (wrapped_task true (task true)) w1))
                  (fst (run t (wrapped_task false (task false)) w2))
  /\ outcome_of (snd (run t (wrapped_task true (task true)) w1))
     = outcome_of (snd (run t (wrapped_task false (task false)) w2))
  /\ lock (fst (run t (wrapped_task true (task true)) w1)) = None.
Proof.
  intros Hs Hl Hpb. cbv zeta.
  destruct (task_toggle t c w1 w2 Hs Hl) as (H1 & H2 & H3 & H4).
  cbv zeta in *. rewrite !run_wrapped_task.
  destruct (run t _ w1) as [w1' r1], (run t _ w2) as [w2' r2].
  cbn [fst snd] in *.
  destruct r1 as [[]|e1|p1], r2 as [[]|e2|p2]; cbn in H2; try done.
  rewrite H4. destruct (progressbar w1) as [b|]; [|done]. cbn [fst snd].
  unfold same_task_state in *. cbn. done.
Qed.

Lemma call_toggle (c : Call) w1 w2 :
  same_task_state w1 w2 -> blocking (self w1) = true -> lock w1 = None ->
  same_task_state
    (fst (run Main (call true c_sloth c_sloth_verification c) w1))
    (fst (run Main (call false c_sloth c_sloth_verification c) w2))
  /\ outcome_of (snd (run Main (call true c_sloth c_sloth_verification c) w1))
     = outcome_of (snd (run Main (call false c_sloth c_sloth_verification c) w2))
  /\ lock (fst (run Main (call true c_sloth c_sloth_verification c) w1)) = None.
Proof.
  intros Hs Hb Hl.
  assert (Hb2 : blocking (self w2) = true) by (destruct Hs as [<- _]; done).
  assert (Hopen : same_task_state (open_bar true w1) (open_bar false w2))
    by (unfold same_task_state in *; cbn; done).
  destruct c as [| |timeout]; cbn [call]; unfold compute, verify.
  - rewrite !run__run_blocking by done.
    exact (wrapped_task_toggle Main true _ _ Hopen Hl
             (ltac:(discriminate) : progressbar (open_bar true w1) <> None)).
  - rewrite !run__run_blocking by done.
    exact (wrapped_task_toggle Main false _ _ Hopen Hl
             (ltac:(discriminate) : progressbar (open_bar true w1) <> None)).
  - rewrite !run_wait_world. split; [exact Hs|]. split; [|exact Hl].
    destruct Hs as (Hs & _ & _ & Hp). exact (run_wait_outcome _ _ _ _ Hs Hp).
Qed.

Lemma call_frame_blocking (P : bool) (c : Call) w :
  blocking (self w) = true -> lock w = None ->
  blocking (self (fst (run Main (call P c_sloth c_sloth_verification c) w)))
  = true.
Proof.
  intros Hb Hl. destruct c as [| |timeout]; cbn [call]; unfold compute, verify.
  - destruct (run_blocking_task P c_sloth c_sloth_verification
                (compute_task P c_sloth) w Hb Hl) as [(_ & _ & H & _) _]; auto.
    congruence.
  - destruct (run_blocking_task P c_sloth c_sloth_verification
                (verify_task P c_sloth_verification) w Hb Hl)
      as [(_ & _ & H & _) _]; auto.
    congruence.
  - by rewrite run_wait_world.
Qed.

Lemma script_toggle (cs : list Call) w1 w2 :
  same_task_state w1 w2 -> blocking (self w1) = true -> lock w1 = None ->
  same_task_state
    (fst (run Main (script true c_sloth c_sloth_verification cs) w1))
    (fst (run Main (script false c_sloth c_sloth_verification cs) w2))
  /\ outcome_of (snd (run Main (script true c_sloth c_sloth_verification cs) w1))
     = outcome_of (snd (run Main (script false c_sloth c_sloth_verification cs) w2)).
Proof.
  revert w1 w2. induction cs as [|c cs IH]; intros w1 w2 Hs Hb Hl; cbn [script].
  - done.
  - unfold mbind, Prog_bind. rewrite !run_bind.
    destruct (call_toggle c w1 w2 Hs Hb Hl) as (H1 & H2 & H3).
    pose proof (call_frame_blocking true c w1 Hb Hl) as H4.
    destruct (run Main (call true _ _ c) w1) as [w1' r1],
             (run Main (call false _ _ c) w2) as [w2' r2].
    cbn [fst snd] in *.
    destruct r1 as [[]|e1|p1], r2 as [[]|e2|p2]; cbn in H2; try done.
    by apply IH.
Qed.

(** C9: the progress bar makes no difference to the results.  Started in
    two worlds that agree on the object and on the state of the library, a
    sequence of blocking calls leaves the same object and ends the same way
    with the bar on and with the bar off; so does the body a worker runs in
    background mode, for [compute] ([c = true]) and for [verify]. *)
Theorem progress_toggle_irrelevant (cs : list Call) (t : tid) (c : bool)
    (w1 w2 : World) :
  same_task_state w1 w2 -> lock w1 = None ->
  (blocking (self w1) = true ->
   self (fst (run Main (script true c_sloth c_sloth_verification cs) w1))
   = self (fst (run Main (script false c_sloth c_sloth_verification cs) w2))
   /\ outcome_of (snd (run Main (script true c_sloth c_sloth_verification cs) w1))
      = outcome_of (snd (run Main (script false c_sloth c_sloth_verification cs) w2)))
  /\ (progressbar w1 <> None ->
      let task P := if c then compute_task P c_sloth
                    else verify_task P c_sloth_verification in
      self (fst (run t (wrapped_task true (task true)) w1))
      = self (fst (run t (wrapped_task false (task false)) w2))
      /\ outcome_of (snd (run t (wrapped_task true (task true)) w1))
         = outcome_of (snd (run t (wrapped_task false (task false)) w2))).
Proof.
  intros Hs Hl. split.
  - intros Hb. destruct (script_toggle cs w1 w2 Hs Hb Hl) as [[H _] H']. done.
  - intros Hpb. cbv zeta.
    destruct (wrapped_task_toggle t c w1 w2 Hs Hl Hpb) as ([H _] & H' & _).
    done.
Qed.

End Toggle.

(** ** The small library keeps the contract *)

Lemma take_written (buf data : bytes) :
  (length data <= length buf)%nat ->
  take (length data) (written buf data) = data.
Proof.
  intros H. unfold written. rewrite take_take, Nat.min_l by lia.
  by rewrite take_app_length.
Qed.

Lemma toy_published_witness (b : Z) (x : bytes) :
  published_witness b
    (mkSlothOut (toy_witness b x) (N.of_nat (length (toy_witness b x)))
       (replicate 64 x01))
  = toy_witness b x.
Proof.
  unfold published_witness. cbn [wrote_size wrote_witness].
  rewrite Nat2N.id. apply take_written.
  unfold toy_witness. rewrite length_take, length_replicate. lia.
Qed.

Lemma toy_contract : PrimitiveContract toy_sloth toy_verification.
Proof.
  intros k k' data b it o _ _ _ H. cbn in H. injection H as <-.
  rewrite toy_published_witness. unfold toy_verification. cbn [result].
  rewrite decide_True; [reflexivity|]. split; reflexivity.
Qed.

(** ** The theorems at work on the small library *)

Lemma compute_publishes_under_lock_witness :
  witness (self (fst (run Main (compute_task true toy_sloth)
                        (init_world (hello_task true)))))
  = Some (published_witness 1024 hello_out)
  /\ valid (self (fst (run Main (compute true toy_sloth)
                         (init_world (hello_task true)))))
     = None.
Proof.
  destruct (compute_publishes_under_lock true toy_sloth Main
              (init_world (hello_task true)) hello_out eq_refl
              ltac:(discriminate) eq_refl)
    as [(_ & H1 & _) H2].
  split; [exact H1|].
  destruct (H2 eq_refl) as (_ & _ & _ & H3 & _). exact H3.
Defined.

Lemma verify_without_witness_witness :
  run Main (verify_task true toy_verification) (init_world (hello_task false))
  = (init_world (hello_task false), Failed AssertionError).
Proof.
  exact (proj1 (verify_without_witness true toy_verification Main
                  (init_world (hello_task false)) eq_refl)).
Defined.

Lemma blocking_thread_stays_none_witness :
  _thread (self (fst (run Main
                        (script true toy_sloth toy_verification
                           [CallCompute; CallVerify; CallWait None])
                        (init_world (hello_task true)))))
  = None.
Proof.
  assert (H : Sloth_new hello_args = Returned (hello_task true))
    by (vm_compute; reflexivity).
  exact (proj1 (proj2 (blocking_thread_stays_none true toy_sloth
                         toy_verification hello_args (hello_task true)
                         [CallCompute; CallVerify; CallWait None] H eq_refl))).
Defined.

Lemma progress_toggle_irrelevant_witness :
  self (fst (run Main (script true toy_sloth toy_verification
                         [CallCompute; CallVerify])
               (init_world (hello_task true))))
  = self (fst (run Main (script false toy_sloth toy_verification
                           [CallCompute; CallVerify])
                 (init_world (hello_task true)))).
Proof.
  assert (H : same_task_state (init_world (hello_task true))
                              (init_world (hello_task true)))
    by (repeat split).
  destruct (progress_toggle_irrelevant toy_sloth toy_verification
              [CallCompute; CallVerify] Main true _ _ H eq_refl) as [H1 _].
  exact (proj1 (H1 eq_refl)).
Defined.

Lemma verify_sets_valid_from_code_witness :
  valid (self (fst (run Main (verify true toy_verification)
                      (init_world (hello_proof true)))))
  = Some true.
Proof.
  destruct (verify_sets_valid_from_code true toy_verification Main
              (init_world (hello_proof true)) eq_refl ltac:(discriminate))
    as [_ H].
  specialize (H eq_refl). cbv zeta in H.
  assert (E : result (verification_run toy_verification
                        (init_world (hello_proof true))) = Returned 1)
    by (vm_compute; reflexivity).
  rewrite E in H. destruct H as (_ & H & _). exact H.
Defined.

(** ** Where the code departs from the specification *)

(** C3 fails in background mode: on an object without witness, [verify()]
    returns normally and so does the [wait()] after it; the worker has been
    started, and it is the worker that fails the assertion. *)
Lemma background_verify_returns_normally :
  witness (self (world verify_then_wait)) = None
  /\ main <$> exec (client_worker_client 11 1 1) verify_then_wait
     = Some (Ret tt)
  /\ worker_code 0 <$> exec (client_worker_client 11 1 1) verify_then_wait
     = Some (Some (Raise AssertionError))
  /\ worker_code 0 <$> exec (go 11 Main) verify_then_wait
     = Some (Some (wrapped_task true (verify_task true toy_verification))).
Proof. repeat split; vm_compute; reflexivity. Qed.

(** C5 fails in background mode: the library call fails on the worker, and
    neither [compute()] nor the [wait()] after it raises anything; the
    result fields stay unset. *)
Lemma background_failure_is_dropped :
  result (sloth_run toy_sloth (world compute_then_wait))
  = Raised (ForeignError 1)
  /\ main <$> exec (client_worker_client 11 6 1) compute_then_wait
     = Some (Ret tt)
  /\ worker_code 0 <$> exec (client_worker_client 11 6 1) compute_then_wait
     = Some (Some (Raise (ForeignError 1)))
  /\ witness <$> (self <$> (world <$>
        exec (client_worker_client 11 6 1) compute_then_wait))
     = Some None.
Proof. repeat split; vm_compute; reflexivity. Qed.

(** C6 fails when the library call raises: the exception reaches the caller
    of [verify()], and [valid] is not set to [False]. *)
Lemma verify_raises_leaves_valid_unset :
  snd (run Main (verify true broken_verification)
         (init_world (hello_proof true)))
  = Failed (ForeignError 2)
  /\ valid (self (fst (run Main (verify true broken_verification)
                         (init_world (hello_proof true)))))
     = None.
Proof. split; vm_compute; reflexivity. Qed.


(** ** A failure of the library *)

Section Failure.

Variable PROGRESS : bool.
Variable c_sloth : nat -> option bytes -> Z -> Z -> LibRun SlothOut.
Variable c_sloth_verification :
  nat -> option bytes -> Z -> option bytes -> option bytes -> Z -> Z -> LibRun Z.

Local Notation compute_task' := (compute_task PROGRESS c_sloth).
Local Notation verify_task' := (verify_task PROGRESS c_sloth_verification).
Local Notation compute' := (compute PROGRESS c_sloth).
Local Notation verify' := (verify PROGRESS c_sloth_verification).

(** [wait] on a worker that ended, by returning or by raising: [join]
    returns, and nothing is raised to the caller. *)
Lemma run_wait_ended (timeout : option Z) (w : World) (i : nat) (p : Prog unit) :
  _thread (self w) = Some i -> pool w !! i = Some (mkThread true p) ->
  finished p = true ->
  run Main (wait timeout) w = (w, Done tt).
Proof.
  intros Ht Hp Hf. unfold wait, mbind, Prog_bind.
  cbn [bind perform perform_raising run act]. rewrite Ht.
  cbn [bind perform perform_raising run act]. rewrite Hp. cbn. by rewrite Hf.
Qed.

(** C5, as the code has it.  When the library call of [compute] raises:
    in blocking mode the caller of [compute] gets the exception; in
    background mode [compute] has returned normally before, the exception
    ends the worker, [witness], [final_hash] and [valid] keep their values,
    and a [wait] on the ended worker returns normally.  The same for
    [verify]. *)
Theorem library_failure_reaches_blocking_caller_only
    (w : World) (e : Exn) (timeout : option Z) :
  lock w = None ->
  (0 <= int_div8 (bits (self w)) ->
   result (sloth_run c_sloth w) = Raised e ->
   (blocking (self w) = true -> snd (run Main compute' w) = Failed e)
   /\ (blocking (self w) = false -> joinable w ->
       let w1 := launch (wrapped_task PROGRESS compute_task') (open_bar PROGRESS w) in
       let r := run (Worker (length (pool w))) (wrapped_task PROGRESS compute_task') w1 in
       run Main compute' w = (w1, Done tt)
       /\ snd r = Failed e
       /\ witness (self (fst r)) = witness (self w)
       /\ final_hash (self (fst r)) = final_hash (self w)
       /\ valid (self (fst r)) = valid (self w)
       /\ run Main (wait timeout)
            (with_pool (<[length (pool w) := mkThread true (Raise e)]> (pool (fst r)))
               (fst r))
          = (with_pool (<[length (pool w) := mkThread true (Raise e)]> (pool (fst r)))
               (fst r), Done tt)))
  /\ (witness (self w) <> None ->
      result (verification_run c_sloth_verification w) = Raised e ->
      (blocking (self w) = true -> snd (run Main verify' w) = Failed e)
      /\ (blocking (self w) = false -> joinable w ->
          let w1 := launch (wrapped_task PROGRESS verify_task') (open_bar PROGRESS w) in
          let r := run (Worker (length (pool w))) (wrapped_task PROGRESS verify_task') w1 in
          run Main verify' w = (w1, Done tt)
          /\ snd r = Failed e
          /\ witness (self (fst r)) = witness (self w)
          /\ final_hash (self (fst r)) = final_hash (self w)
          /\ valid (self (fst r)) = valid (self w)
          /\ run Main (wait timeout)
               (with_pool (<[length (pool w) := mkThread true (Raise e)]> (pool (fst r)))
                  (fst r))
             = (with_pool (<[length (pool w) := mkThread true (Raise e)]> (pool (fst r)))
                  (fst r), Done tt))).
Proof.
  intros Hl. split.
  - intros Hq He. split.
    + intros Hb. by rewrite run_compute_blocking, He.
    + intros Hb Hj. cbv zeta. unfold compute.
      rewrite run__run_background by done.
      rewrite run_wrapped_task, run_compute_task
        by (cbn; autorewrite with world; done).
      assert (Hr : sloth_run c_sloth
                     (launch (wrapped_task PROGRESS compute_task')
                        (open_bar PROGRESS w)) = sloth_run c_sloth w).
      { unfold sloth_run. cbn. by autorewrite with world. }
      rewrite Hr, He. cbn [fst snd]. repeat split; try (by cbn; autorewrite with world).
      eapply run_wait_ended.
      * cbn. reflexivity.
      * cbn. autorewrite with world.
        rewrite insert_snoc. apply lookup_snoc.
      * reflexivity.
  - intros Hw He. split.
    + intros Hb. by rewrite run_verify_blocking, He.
    + intros Hb Hj. cbv zeta. unfold verify.
      rewrite run__run_background by done.
      rewrite run_wrapped_task, run_verify_task
        by (cbn; autorewrite with world; done).
      assert (Hr : verification_run c_sloth_verification
                     (launch (wrapped_task PROGRESS verify_task')
                        (open_bar PROGRESS w))
                   = verification_run c_sloth_verification w).
      { unfold verification_run. cbn. by autorewrite with world. }
      rewrite Hr, He. cbn [fst snd]. repeat split; try (by cbn; autorewrite with world).
      eapply run_wait_ended.
      * cbn. reflexivity.
      * cbn. autorewrite with world.
        rewrite insert_snoc. apply lookup_snoc.
      * reflexivity.
Qed.

End Failure.

Lemma library_failure_reaches_blocking_caller_only_witness :
  snd (run Main (compute true toy_sloth) (init_world (empty_task true)))
  = Failed (ForeignError 1).
Proof.
  destruct (library_failure_reaches_blocking_caller_only true toy_sloth
              toy_verification (init_world (empty_task true)) (ForeignError 1)
              None eq_refl) as [H _].
  destruct (H ltac:(discriminate) eq_refl) as [H1 _].
  exact (H1 eq_refl).
Defined.

(** ** The protocol: programs that keep to it *)

Lemma worker_action_mono {X} (a : Action X) inside (Q Q' : X -> bool -> Prop) :
  (forall x b, Q x b -> Q' x b) ->
  worker_action a inside Q -> worker_action a inside Q'.
Proof. destruct a; cbn; try tauto; firstorder. Qed.

Lemma client_action_mono {X} (a : Action X) ph (Q Q' : X -> Phase -> Prop) :
  (forall x b, Q x b -> Q' x b) ->
  client_action a ph Q -> client_action a ph Q'.
Proof.
  destruct a; cbn; try tauto; try (firstorder; fail).
  destruct timeout; firstorder.
Qed.

Lemma worker_wp_bind {A B} (p : Prog A) (f : A -> Prog B) Q inside :
  worker_wp p (fun a b => worker_wp (f a) Q b) inside ->
  worker_wp (bind p f) Q inside.
Proof.
  revert B f Q inside.
  induction p as [A a | A e | A X a k IH | A target _ k IH];
    intros B f Q inside; cbn; try done.
  apply worker_action_mono. intros x b. apply IH.
Qed.

Lemma worker_wp_mono {A} (p : Prog A) (Q Q' : A -> bool -> Prop) inside :
  (forall a b, Q a b -> Q' a b) -> worker_wp p Q inside -> worker_wp p Q' inside.
Proof.
  revert Q Q' inside.
  induction p as [A a | A e | A X a k IH | A target _ k IH];
    intros Q Q' inside HQ; cbn; try done.
  - apply HQ.
  - apply worker_action_mono. intros x b. by apply IH.
Qed.

Lemma client_wp_bind {A B} (p : Prog A) (f : A -> Prog B) Q ph :
  client_wp p (fun a ph' => client_wp (f a) Q ph') ph ->
  client_wp (bind p f) Q ph.
Proof.
  revert B f Q ph.
  induction p as [A a | A e | A X a k IH | A target _ k IH];
    intros B f Q ph; cbn; try done.
  - apply client_action_mono. intros x b. apply IH.
  - intros (H1 & H2 & H3). repeat split; try done. intros i. apply IH, H3.
Qed.

Lemma client_wp_mono {A} (p : Prog A) (Q Q' : A -> Phase -> Prop) ph :
  (forall a ph', Q a ph' -> Q' a ph') -> client_wp p Q ph -> client_wp p Q' ph.
Proof.
  revert Q Q' ph.
  induction p as [A a | A e | A X a k IH | A target _ k IH];
    intros Q Q' ph HQ; cbn; try done.
  - apply HQ.
  - apply client_action_mono. intros x b. by apply IH.
  - intros (H1 & H2 & H3). repeat split; try done. intros i.
    eapply IH; [exact HQ | apply H3].
Qed.

Section ProtocolPrograms.

Variable PROGRESS : bool.
Variable c_sloth : nat -> option bytes -> Z -> Z -> LibRun SlothOut.
Variable c_sloth_verification :
  nat -> option bytes -> Z -> option bytes -> option bytes -> Z -> Z -> LibRun Z.

Lemma worker_wp_callbacks ds (Q : unit -> bool -> Prop) inside :
  Q tt inside -> worker_wp (callbacks PROGRESS ds) Q inside.
Proof.
  intros HQ. induction ds as [|d ds IH]; cbn; [done|].
  unfold mbind, Prog_bind. apply worker_wp_bind.
  unfold update_progress. destruct PROGRESS; cbn; [|done].
  intros [b|]; cbn; [intros []|]; done.
Qed.

Lemma worker_wp_lib_call {X} (f : nat -> LibRun X) (Q : X -> bool -> Prop) :
  (forall x, Q x false) ->
  worker_wp (lib_call PROGRESS f) Q false.
Proof.
  intros HQ. unfold lib_call, mbind, Prog_bind. cbn. split; [done|].
  intros k. apply worker_wp_bind. apply worker_wp_callbacks. cbn.
  split; [done|]. destruct (result (f k)); cbn; [apply HQ | done].
Qed.

Lemma worker_ok_compute_task :
  worker_wp (compute_task PROGRESS c_sloth) (fun _ b => b = false) false.
Proof.
  unfold compute_task, ffi_new_uchar. change (64 <? 0) with false.
  unfold mbind, Prog_bind. cbn [worker_wp worker_action bind perform].
  intros b. destruct (int_div8 b <? 0); cbn [worker_wp worker_action bind perform];
    [done|].
  intros d b' it. apply worker_wp_bind, worker_wp_lib_call.
  intros o. unfold with_lock, mbind, Prog_bind. cbn. done.
Qed.

Lemma worker_ok_verify_task :
  worker_wp (verify_task PROGRESS c_sloth_verification) (fun _ b => b = false) false.
Proof.
  unfold verify_task, mbind, Prog_bind.
  cbn [worker_wp worker_action bind perform].
  intros [w|]; cbn [worker_wp worker_action bind perform]; [|done].
  intros w1 [wb|]; cbn [worker_wp worker_action bind perform]; [|done].
  intros fh d b it. apply worker_wp_bind, worker_wp_lib_call.
  intros v. unfold with_lock, mbind, Prog_bind. cbn. done.
Qed.

Lemma worker_ok_wrapped_task (task : Prog unit) :
  worker_wp task (fun _ b => b = false) false ->
  worker_ok (wrapped_task PROGRESS task).
Proof.
  intros H. unfold worker_ok, wrapped_task, mbind, Prog_bind.
  apply worker_wp_bind. revert H. apply worker_wp_mono.
  intros _ b ->. destruct PROGRESS; cbn; [|done].
  intros [b|]; cbn; done.
Qed.

(** [wait] keeps to the protocol: it joins the thread [_thread] names. *)
Lemma client_wp_wait timeout g kn (Q : unit -> Phase -> Prop) :
  (forall g' kn', Q tt (Quiet g' kn')) ->
  client_wp (wait timeout) Q (Quiet g kn).
Proof.
  intros HQ. unfold wait, mbind, Prog_bind. cbn.
  intros s Hb Hk. destruct (_thread s) as [i|] eqn:E; cbn.
  - destruct kn as [i'|]; cbn in Hk.
    + destruct timeout; cbn; eexists; (split; [reflexivity|]); cbn; apply HQ.
    + destruct timeout; cbn; eexists; (split; [reflexivity|]); cbn; apply HQ.
  - destruct kn; apply HQ.
Qed.

(** [wait()] without timeout returns when every worker has ended. *)
Lemma client_wp_wait_none g kn (Q : unit -> Phase -> Prop) :
  (forall kn', Q tt (Quiet true kn')) ->
  client_wp (wait None) Q (Quiet g kn).
Proof.
  intros HQ. unfold wait, mbind, Prog_bind. cbn.
  intros s Hb Hk. destruct (_thread s) as [i|] eqn:E; cbn.
  - eexists; (split; [reflexivity|]); cbn; apply HQ.
  - apply HQ.
Qed.

(** [_run] keeps to the protocol: it waits without timeout before it creates
    the next worker, assigns it to [_thread] and starts it. *)
Lemma client_wp__run (task : Prog unit) g kn (Q : unit -> Phase -> Prop) :
  worker_wp task (fun _ b => b = false) false ->
  (forall g' kn', Q tt (Quiet g' kn')) ->
  client_wp (_run PROGRESS task) Q (Quiet g kn).
Proof.
  intros Ht HQ. unfold _run, mbind, Prog_bind.
  cbn [client_wp client_action bind perform].
  intros s Hb _. rewrite Hb. cbn [negb].
  assert (Hph : exists g0 kn0, refine (Quiet g kn) (_thread s) = Quiet g0 kn0)
    by (cbn; destruct (_thread s); eauto).
  destruct Hph as (g0 & kn0 & ->).
  apply client_wp_bind, client_wp_wait_none. intros kn'.
  apply client_wp_bind.
  assert (Hrest : forall kn2,
    client_wp
      (Act (GetAttr blocking)
         (fun x : bool =>
            if x then wrapped_task PROGRESS task
            else NewThread (wrapped_task PROGRESS task)
                   (fun t : nat =>
                      Act (SetThread t)
                        (fun _ : () =>
                           Act (GetAttr _thread)
                             (fun x0 : option nat =>
                                match x0 with
                                | Some i => perform_raising (ThreadStart i)
                                | None => Raise AttributeError
                                end)))))
      Q (Quiet true kn2)).
  { intros kn2. cbn [client_wp client_action].
    intros s2 Hb2 Hk2. rewrite Hb2.
    assert (Hph : exists kn3, refine (Quiet true kn2) (_thread s2) = Quiet true kn3)
      by (cbn; destruct (_thread s2); eauto).
    destruct Hph as [kn3 ->]. cbn [client_wp client_action].
    split; [by eexists|]. split; [by apply worker_ok_wrapped_task|].
    intros i. split; [done|]. intros s3 _ Hk3. cbn in Hk3. rewrite Hk3.
    cbn. split; [done|]. apply HQ. }
  destruct PROGRESS; cbn [client_wp client_action bind perform].
  - intros s1 Hb1 Hk1 b.
    assert (Hph : exists kn3, refine (Quiet true kn') (_thread s1) = Quiet true kn3)
      by (cbn; destruct (_thread s1); eauto).
    destruct Hph as [kn3 ->]. apply Hrest.
  - apply Hrest.
Qed.

Lemma client_wp_call (c : Call) g kn (Q : unit -> Phase -> Prop) :
  (forall g' kn', Q tt (Quiet g' kn')) ->
  client_wp (call PROGRESS c_sloth c_sloth_verification c) Q (Quiet g kn).
Proof.
  intros HQ. destruct c as [| |timeout]; cbn [call]; unfold compute, verify.
  - apply client_wp__run; [apply worker_ok_compute_task | done].
  - apply client_wp__run; [apply worker_ok_verify_task | done].
  - by apply client_wp_wait.
Qed.

(** A client that calls the methods one after the other keeps to the
    protocol, whatever the calls are. *)
Lemma client_wp_script (cs : list Call) g kn :
  client_wp (script PROGRESS c_sloth c_sloth_verification cs)
    (fun _ _ => True) (Quiet g kn).
Proof.
  revert g kn. induction cs as [|c cs IH]; intros g kn; cbn [script]; [done|].
  unfold mbind, Prog_bind. apply client_wp_bind, client_wp_call.
  intros g' kn'. apply IH.
Qed.

End ProtocolPrograms.

(** ** The protocol is kept by every step *)

Lemma finished_inside (p : Prog unit) inside :
  finished p = true -> worker_wp p (fun _ b => b = false) inside ->
  inside = false.
Proof. destruct p; cbn; done. Qed.

Lemma finished_worker_wp (p : Prog unit) :
  finished p = true -> worker_wp p (fun _ b => b = false) false.
Proof. destruct p; cbn; done. Qed.

(** Who is inside the library is a worker that has not ended. *)
Lemma inlib_running g kn cur pl il t :
  threads_ok (Quiet g kn) cur pl il -> lib_ok pl il -> t ∈ il ->
  exists j th, t = Worker j /\ pl !! j = Some th
               /\ finished (code th) = false /\ cur = Some j.
Proof.
  intros [Hth _] [_ Hil] Ht. destruct (Hil t Ht) as (j & -> & Hj).
  destruct (lookup_lt_is_Some_2 pl j Hj) as [th Hl].
  destruct (Hth j th Hl) as (_ & Hok & Hcur & _).
  exists j, th. split; [done|]. split; [done|].
  destruct (finished (code th)) eqn:E.
  - unfold thread_ok in Hok. apply finished_inside in Hok; [|done].
    rewrite bool_decide_eq_false in Hok. done.
  - split; [done|]. by apply Hcur.
Qed.

(** When every worker has ended, the library is empty. *)
Lemma inlib_empty kn cur pl il :
  threads_ok (Quiet true kn) cur pl il -> lib_ok pl il -> il = [].
Proof.
  intros Hth Hil. destruct il as [|t il]; [done|].
  destruct (inlib_running _ _ _ _ _ t Hth Hil) as (j & th & -> & Hl & Hf & _);
    [left|].
  destruct Hth as [Hth _]. destruct (Hth j th Hl) as (_ & _ & _ & Hg).
  rewrite Hg in Hf; done.
Qed.

Lemma knows_refine ph cur : knows ph cur -> knows (refine ph cur) cur.
Proof. destruct ph as [g kn| |]; cbn; try done. by destruct cur. Qed.

Lemma threads_ok_refine ph cur pl il :
  threads_ok ph cur pl il -> threads_ok (refine ph cur) cur pl il.
Proof.
  destruct ph as [g kn| |]; cbn; try done.
  destruct cur as [i|]; [done|]. cbn.
  intros [Hth Hcur]. split; [|done].
  intros j th Hl. destruct (Hth j th Hl) as (H1 & H2 & H3 & H4).
  repeat split; try done. intros _.
  destruct (finished (code th)); [done|]. by specialize (H3 eq_refl).
Qed.

(** The worker the client joined has ended, and it was the only one that
    could still run. *)
Lemma threads_ok_joined g j pl il th :
  threads_ok (Quiet g (Some j)) (Some j) pl il ->
  pl !! j = Some th -> finished (code th) = true ->
  threads_ok (Quiet true (Some j)) (Some j) pl il.
Proof.
  intros [Hth Hcur] Hl Hf. split; [|done].
  intros j' th' Hl'. destruct (Hth j' th' Hl') as (H1 & H2 & H3 & H4).
  repeat split; try done. intros _.
  destruct (finished (code th')) eqn:E; [done|].
  specialize (H3 eq_refl). simplify_eq. congruence.
Qed.

Lemma protocol_main_step ph p w p' w' :
  protocol ph (mkConfig p w) -> step Main p w = Some (p', w') ->
  exists ph', protocol ph' (mkConfig p' w').
Proof.
  unfold protocol. cbn [main world].
  intros (Hb & Hk & Hth & Hil & Hwp) Hstep.
  destruct p as [a | e | X a k | target k]; cbn in Hstep; try done.
  - destruct a; cbn in Hstep, Hwp; try done.
    + (* reading an attribute *)
      simplify_eq. exists (refine ph (_thread (self w'))).
      repeat split; try done; try apply Hil.
      * by apply knows_refine.
      * by apply threads_ok_refine.
      * by apply Hwp.
    + (* self._thread = th *)
      destruct Hwp as [-> Hwp]. simplify_eq. exists (Assigned w0).
      cbn. repeat split; try done; apply Hil.
    + simplify_eq. exists ph. repeat split; try done; apply Hil.
    + simplify_eq. exists ph. repeat split; try done; apply Hil.
    + simplify_eq. exists ph. repeat split; try done; apply Hil.
    + simplify_eq. exists ph. repeat split; try done; apply Hil.
    + simplify_eq. exists ph. repeat split; try done; apply Hil.
    + (* th.start() *)
      destruct Hwp as [-> Hwp]. cbn in Hk, Hth.
      destruct Hth as (pl' & target & Hpl & Hlen & Hok & Hold & Hin).
      rewrite Hpl, <- Hlen, lookup_snoc in Hstep. cbn in Hstep.
      rewrite insert_snoc in Hstep. simplify_eq.
      exists (Quiet false (Some (length pl'))). cbn.
      rewrite Hin. repeat split; try done.
      * apply lookup_app_Some in H as [H|[_ H]].
        -- by destruct (Hold _ _ H).
        -- apply list_lookup_singleton_Some in H as [_ <-]. done.
      * unfold thread_ok. cbn.
        apply lookup_app_Some in H as [H|[_ H]].
        -- destruct (Hold _ _ H). by apply finished_worker_wp.
        -- apply list_lookup_singleton_Some in H as [_ <-]. done.
      * intros Hf. apply lookup_app_Some in H as [H|[H1 H]].
        -- destruct (Hold _ _ H). congruence.
        -- apply list_lookup_singleton_Some in H as [H _]. rewrite Hk.
           f_equal. lia.
      * intros i Hi. rewrite Hk in Hi. simplify_eq.
        rewrite length_app. cbn. lia.
      * constructor.
      * intros t Ht. by apply elem_of_nil in Ht.
    + (* th.join() *)
      assert (Hph : exists g, ph = Quiet g (Some w0))
        by (destruct timeout; destruct Hwp as (g & -> & _); eauto).
      destruct Hph as [g ->]. cbn in Hk.
      pose proof Hth as [Hth' Hcur]. specialize (Hcur _ Hk).
      destruct (lookup_lt_is_Some_2 _ _ Hcur) as [th Hl].
      destruct (Hth' _ _ Hl) as (Hs & _).
      rewrite Hl, Hs in Hstep. cbn in Hstep.
      destruct (finished (code th)) eqn:Hf; [|done]. simplify_eq.
      destruct timeout; destruct Hwp as (g' & [= <-] & Hwp).
      * exists (Quiet g (Some w0)). done.
      * exists (Quiet true (Some w0)).
        refine (conj _ (conj _ (conj _ (conj _ _)))); try done.
        rewrite Hk in *. by eapply threads_ok_joined.
  - (* Thread(target=...) *)
    simplify_eq. cbn in Hwp. destruct Hwp as ([kn ->] & Hok & Hwp).
    exists (Created (length (pool w))). cbn.
    pose proof (inlib_empty _ _ _ _ Hth Hil) as Hin.
    refine (conj _ (conj _ (conj _ (conj _ _)))); try done.
    + exists (pool w), target.
      refine (conj _ (conj _ (conj _ (conj _ _)))); try done.
      intros j th Hl. destruct Hth as [Hth _].
      destruct (Hth j th Hl) as (? & _ & _ & Hg). split; [done|]. by apply Hg.
    + split; [apply Hil|]. rewrite Hin. intros t Ht. by apply elem_of_nil in Ht.
Qed.

(** A [join] of the client that gives up changes nothing. *)
Lemma protocol_main_expire ph p w p' w' :
  protocol ph (mkConfig p w) -> step_expire p w = Some (p', w') ->
  exists ph', protocol ph' (mkConfig p' w').
Proof.
  unfold protocol. cbn [main world].
  intros (Hb & Hk & Hth & Hil & Hwp) Hstep.
  destruct p as [a | e | X a k | target k]; cbn in Hstep; try done.
  destruct a; cbn in Hstep, Hwp; try done.
  destruct timeout as [z|]; [|done].
  destruct Hwp as (g & -> & Hwp).
  destruct (pool w !! w0) as [th|]; [|done].
  destruct (started th); [|done]. simplify_eq.
  by exists (Quiet g (Some w0)).
Qed.

(** What an action of worker [j] does to the object, the threads and the
    library. *)
Lemma worker_act j {X} (a : Action X) w x w' (Q : X -> bool -> Prop) :
  worker_action a (bool_decide (Worker j ∈ inlib w)) Q ->
  NoDup (inlib w) ->
  act (Worker j) a w = Some (x, w') ->
  Q x (bool_decide (Worker j ∈ inlib w'))
  /\ blocking (self w') = blocking (self w)
  /\ _thread (self w') = _thread (self w)
  /\ pool w' = pool w
  /\ NoDup (inlib w')
  /\ (forall t, t <> Worker j -> t ∈ inlib w' <-> t ∈ inlib w).
Proof.
  intros Ha Hnd Hact.
  destruct a; cbn in Ha, Hact; try done; try (by simplify_eq).
  - (* acquire *)
    destruct (lock w); [done|]. by simplify_eq.
  - (* entering the library *)
    destruct Ha as [Hout Ha]. simplify_eq. cbn.
    apply bool_decide_eq_false in Hout.
    rewrite bool_decide_eq_true_2 by left.
    refine (conj _ (conj _ (conj _ (conj _ (conj _ _))))); try done.
    + by constructor.
    + intros t Ht. rewrite elem_of_cons. intuition.
  - (* leaving the library *)
    destruct Ha as [Hin Ha]. simplify_eq. cbn.
    rewrite bool_decide_eq_false_2
      by (rewrite list_elem_of_filter; intros [? _]; done).
    refine (conj _ (conj _ (conj _ (conj _ (conj _ _))))); try done.
    + by apply NoDup_filter.
    + intros t Ht. rewrite list_elem_of_filter. intuition.
Qed.

(** A step of a worker keeps the protocol in the phase it is in. *)
Lemma protocol_worker_step ph c j th p' w' :
  protocol ph c ->
  pool (world c) !! j = Some th -> started th = true ->
  step (Worker j) (code th) (world c) = Some (p', w') ->
  protocol ph (put_code (Worker j) p' w' c).
Proof.
  unfold protocol. destruct c as [p w]. cbn [main world put_code].
  intros (Hb & Hk & Hth & Hil & Hwp) Hl Hs Hstep.
  destruct ph as [g kn|i|i].
  - destruct Hth as [Hth Hcur].
    destruct (Hth j th Hl) as (_ & Hok & Hrun & Hg).
    unfold thread_ok in Hok.
    destruct (code th) as [a | e | X a k | target k] eqn:Hcode;
      cbn in Hstep, Hok; try done.
    destruct (act (Worker j) a w) as [[x w1]|] eqn:Hact; [|done].
    simplify_eq.
    destruct (worker_act j a w x w' _ Hok (proj1 Hil) Hact)
      as (Hx & Hb' & Ht' & Hp' & Hnd & Hmem).
    assert (Hcur_j : _thread (self w) = Some j) by (by apply Hrun).
    assert (Hg' : g = false) by (destruct g; [by specialize (Hg eq_refl)|done]).
    cbn [self pool inlib with_pool]. rewrite Hb', Ht', Hp'.
    refine (conj _ (conj _ (conj _ (conj _ _)))); try done.
    + split.
      * intros j' th' Hl'. destruct (decide (j' = j)) as [->|Hne].
        -- rewrite list_lookup_insert_eq in Hl' by (by eapply lookup_lt_Some).
           simplify_eq. cbn. unfold thread_ok. cbn. done.
        -- rewrite list_lookup_insert_ne in Hl' by done.
           destruct (Hth j' th' Hl') as (H1 & H2 & H3 & H4).
           refine (conj _ (conj _ (conj _ _))); try done.
           unfold thread_ok in *.
           rewrite (bool_decide_ext _ (Worker j' ∈ inlib w)); [done|].
           apply Hmem. congruence.
      * intros i Hi. rewrite length_insert. by apply Hcur.
    + split; [done|]. intros t Ht. rewrite length_insert.
      destruct (decide (t = Worker j)) as [->|Hne].
      * exists j. split; [done|]. by eapply lookup_lt_Some.
      * apply Hil. by apply Hmem.
  - exfalso. destruct Hth as (pl' & target & Hpl & Hlen & _ & Hold & _).
    rewrite Hpl in Hl. apply lookup_app_Some in Hl as [Hl|[_ Hl]].
    + destruct (Hold _ _ Hl) as [_ Hf]. by destruct (code th).
    + apply list_lookup_singleton_Some in Hl as [_ <-]. done.
  - exfalso. destruct Hth as (pl' & target & Hpl & Hlen & _ & Hold & _).
    rewrite Hpl in Hl. apply lookup_app_Some in Hl as [Hl|[_ Hl]].
    + destruct (Hold _ _ Hl) as [_ Hf]. by destruct (code th).
    + apply list_lookup_singleton_Some in Hl as [_ <-]. done.
Qed.

(** A worker never waits with a timeout. *)
Lemma protocol_worker_expire ph c j th :
  protocol ph c ->
  pool (world c) !! j = Some th -> started th = true ->
  step_expire (code th) (world c) = None.
Proof.
  unfold protocol. destruct c as [p w]. cbn [main world].
  intros (Hb & Hk & Hth & Hil & Hwp) Hl Hs.
  destruct (code th) as [a | e | X a k | target k] eqn:Hcode; try done.
  cbn. destruct a; try done. exfalso.
  destruct ph as [g kn|i|i].
  - destruct Hth as [Hth _]. destruct (Hth j th Hl) as (_ & Hok & _).
    unfold thread_ok in Hok. by rewrite Hcode in Hok.
  - destruct Hth as (pl' & target & Hpl & Hlen & _ & Hold & _).
    rewrite Hpl in Hl. apply lookup_app_Some in Hl as [Hl|[_ Hl]].
    + destruct (Hold _ _ Hl) as [_ Hf]. by rewrite Hcode in Hf.
    + apply list_lookup_singleton_Some in Hl as [_ <-]. done.
  - destruct Hth as (pl' & target & Hpl & Hlen & _ & Hold & _).
    rewrite Hpl in Hl. apply lookup_app_Some in Hl as [Hl|[_ Hl]].
    + destruct (Hold _ _ Hl) as [_ Hf]. by rewrite Hcode in Hf.
    + apply list_lookup_singleton_Some in Hl as [_ <-]. done.
Qed.

(** ** No two operations at the same time *)

Lemma protocol_sched d c c' :
  (exists ph, protocol ph c) -> sched d c = Some c' ->
  exists ph, protocol ph c'.
Proof.
  intros [ph H] Hs. destruct c as [p w]. destruct d as [[|j]|[|j]]; cbn in Hs.
  - destruct (step Main p w) as [[p' w']|] eqn:E; [|done]. cbn in Hs.
    simplify_eq.
    exact (protocol_main_step ph p w p' w' H E).
  - destruct (pool w !! j) as [th|] eqn:Hl; [|done].
    destruct (started th) eqn:Hst; [|done]. cbn in Hs.
    destruct (step (Worker j) (code th) w) as [[p' w']|] eqn:E; [|done].
    cbn in Hs. simplify_eq. exists ph.
    exact (protocol_worker_step ph (mkConfig p w) j th p' w' H Hl Hst E).
  - destruct (step_expire p w) as [[p' w']|] eqn:E; [|done]. cbn in Hs.
    simplify_eq.
    exact (protocol_main_expire ph p w p' w' H E).
  - destruct (pool w !! j) as [th|] eqn:Hl; [|done].
    destruct (started th) eqn:Hst; [|done]. cbn in Hs.
    pose proof (protocol_worker_expire ph (mkConfig p w) j th H Hl Hst) as E.
    cbn [world] in E. rewrite E in Hs. done.
Qed.

Lemma protocol_exec ds c c' :
  (exists ph, protocol ph c) -> exec ds c = Some c' ->
  exists ph, protocol ph c'.
Proof.
  revert c. induction ds as [|d ds IH]; intros c H He; cbn in He.
  - by simplify_eq.
  - destruct (sched d c) as [c1|] eqn:E; [|done]. cbn in He.
    eapply IH; [|exact He]. by eapply protocol_sched.
Qed.

(** A fresh background object and a client calling its methods. *)
Lemma protocol_init P c_sloth c_sloth_verification (cs : list Call) (s : Sloth) :
  blocking s = false -> _thread s = None ->
  protocol (Quiet true None)
    (mkConfig (script P c_sloth c_sloth_verification cs) (init_world s)).
Proof.
  intros Hb Ht. unfold protocol. cbn.
  refine (conj _ (conj _ (conj _ (conj _ _)))); try done.
  - split; [done|]. intros i Hi. congruence.
  - split; [constructor|]. intros t Hin. by apply elem_of_nil in Hin.
  - apply client_wp_script.
Qed.

Lemma protocol_alive ph c j th :
  protocol ph c -> pool (world c) !! j = Some th -> alive th = true ->
  _thread (self (world c)) = Some j
  /\ exists kn, ph = Quiet false kn.
Proof.
  intros (_ & _ & Hth & _) Hl Ha. unfold alive in Ha.
  apply andb_true_iff in Ha as [Hs Hf]. apply negb_true_iff in Hf.
  destruct ph as [g kn|i|i].
  - destruct Hth as [Hth _]. destruct (Hth j th Hl) as (_ & _ & Hcur & Hg).
    split; [by apply Hcur|]. destruct g; [|by eexists].
    rewrite Hg in Hf; done.
  - exfalso. destruct Hth as (pl' & target & Hpl & Hlen & _ & Hold & _).
    rewrite Hpl in Hl. apply lookup_app_Some in Hl as [Hl|[_ Hl]].
    + destruct (Hold _ _ Hl) as [_ Hf']. congruence.
    + apply list_lookup_singleton_Some in Hl as [_ <-]. done.
  - exfalso. destruct Hth as (pl' & target & Hpl & Hlen & _ & Hold & _).
    rewrite Hpl in Hl. apply lookup_app_Some in Hl as [Hl|[_ Hl]].
    + destruct (Hold _ _ Hl) as [_ Hf']. congruence.
    + apply list_lookup_singleton_Some in Hl as [_ <-]. done.
Qed.

Lemma protocol_inlib ph c :
  protocol ph c -> (length (inlib (world c)) <= 1)%nat.
Proof.
  intros (_ & _ & Hth & Hil & _).
  destruct ph as [g kn|i|i].
  - destruct (inlib (world c)) as [|t1 [|t2 il]] eqn:E; cbn; try lia.
    exfalso.
    destruct (inlib_running _ _ _ _ _ t1 Hth Hil) as (j1 & _ & -> & _ & _ & H1);
      [left|].
    destruct (inlib_running _ _ _ _ _ t2 Hth Hil) as (j2 & _ & -> & _ & _ & H2);
      [right; left|].
    destruct Hil as [Hnd _]. apply NoDup_cons in Hnd as [Hnd _].
    apply Hnd. rewrite H1 in H2. simplify_eq. left.
  - destruct Hth as (_ & _ & _ & _ & _ & _ & ->). cbn. lia.
  - destruct Hth as (_ & _ & _ & _ & _ & _ & ->). cbn. lia.
Qed.

Lemma protocol_new_thread ph c target k j th :
  protocol ph c -> main c = NewThread target k ->
  pool (world c) !! j = Some th -> alive th = false.
Proof.
  intros H Hm Hl. destruct (alive th) eqn:Ha; [|done]. exfalso.
  destruct (protocol_alive ph c j th H Hl Ha) as (_ & kn & ->).
  destruct H as (_ & _ & _ & _ & Hwp). rewrite Hm in Hwp. cbn in Hwp.
  by destruct Hwp as ([kn' ?] & _).
Qed.

Section Overlap.

Variable PROGRESS : bool.
Variable c_sloth : nat -> option bytes -> Z -> Z -> LibRun SlothOut.
Variable c_sloth_verification :
  nat -> option bytes -> Z -> option bytes -> option bytes -> Z -> Z -> LibRun Z.

(** C4: the operations of a background object never overlap.  A client
    calls [compute], [verify] and [wait] on a fresh background object, one
    call after the other; the scheduler interleaves the steps of the client
    and of the workers in any order, timeouts included.  In every state that
    can be reached: at most one thread is inside the C library; at most one
    worker is alive; and when the client is about to create the thread of
    the next operation, no worker is alive: [_run] has waited for the
    previous one to end. *)
Theorem background_operations_never_overlap
    (cs : list Call) (s : Sloth) (ds : list Decision) (c' : Config) :
  blocking s = false -> _thread s = None ->
  exec ds (mkConfig (script PROGRESS c_sloth c_sloth_verification cs)
                    (init_world s)) = Some c' ->
  (length (inlib (world c')) <= 1)%nat
  /\ (forall j1 j2 th1 th2,
        pool (world c') !! j1 = Some th1 -> pool (world c') !! j2 = Some th2 ->
        alive th1 = true -> alive th2 = true -> j1 = j2)
  /\ (forall target k j th,
        main c' = NewThread target k -> pool (world c') !! j = Some th ->
        alive th = false).
Proof.
  intros Hb Ht He.
  pose proof (protocol_init PROGRESS c_sloth c_sloth_verification cs s Hb Ht)
    as H0.
  destruct (protocol_exec ds _ c' (ex_intro (fun ph => protocol ph _) _ H0) He)
    as [ph H].
  split; [by eapply protocol_inlib|]. split.
  - intros j1 j2 th1 th2 H1 H2 Ha1 Ha2.
    destruct (protocol_alive ph c' j1 th1 H H1 Ha1) as [E1 _].
    destruct (protocol_alive ph c' j2 th2 H H2 Ha2) as [E2 _].
    congruence.
  - intros target k j th Hm Hl. by eapply protocol_new_thread.
Qed.

End Overlap.

Lemma background_operations_never_overlap_witness :
  blocking (hello_task false) = false /\ _thread (hello_task false) = None
  /\ exists c', exec (go 12 Main ++ go 5 (Worker 0)) compute_twice = Some c'
                /\ (length (inlib (world c')) <= 1)%nat.
Proof.
  split; [reflexivity|]. split; [reflexivity|].
  destruct (exec (go 12 Main ++ go 5 (Worker 0)) compute_twice) as [c'|] eqn:E.
  - exists c'. split; [reflexivity|].
    exact (proj1 (background_operations_never_overlap true toy_sloth
                    toy_verification [CallCompute; CallCompute]
                    (hello_task false) (go 12 Main ++ go 5 (Worker 0)) c'
                    eq_refl eq_refl E)).
  - vm_compute in E. discriminate E.
Defined.

(** The schedule of the witness: the client has started the first
    [compute] and waits in the second, the worker is inside the library. *)
Example compute_twice_worker_in_library :
  (inlib ∘ world) <$> exec (go 12 Main ++ go 5 (Worker 0)) compute_twice
  = Some [Worker 0]
  /\ exec (go 12 Main ++ go 5 (Worker 0) ++ [Go Main]) compute_twice = None.
Proof. split; vm_compute; reflexivity. Qed.

(** ** The data of the object *)

(** The code points of a [string] can always be encoded. *)
Lemma encode_utf8_codepoints (s : string) :
  exists b, encode_utf8 (codepoints s) = Returned b.
Proof.
  unfold codepoints. induction (list_ascii_of_string s) as [|c l [b IH]]; cbn.
  - by eexists.
  - rewrite IH.
    assert (H : exists x, utf8_encode_cp (N_of_ascii c) = Some x).
    { pose proof (N_ascii_bounded c) as Hc. unfold utf8_encode_cp.
      destruct (N_of_ascii c <? 128)%N; [by eexists|].
      destruct (N.ltb_spec (N_of_ascii c) 2048); [by eexists|lia]. }
    destruct H as [x ->]. by eexists.
Qed.

Lemma encode_utf8_py_str (x : Scalar) :
  exists b, encode_utf8 (py_str x) = Returned b.
Proof. destruct x as [|[]|z]; apply encode_utf8_codepoints. Qed.

(** The constructor as a function from the arguments to the object. *)
Lemma Sloth_new_eq (a : InitArgs) :
  let mk d :=
    mkSloth d (default 0 (int_value (arg_bits a)))
            (default 0 (int_value (arg_iterations a)))
            (arg_final_hash a) (arg_witness a) None (arg_blocking a) None in
  let enc cs :=
    match encode_utf8 cs with
    | Returned b => Returned (mk (Some b))
    | Raised _ => Raised UnicodeEncodeError
    end in
  Sloth_new a =
  if isinstance_int (arg_bits a) && multiple_of_512 (arg_bits a)
     && isinstance_int (arg_iterations a)
  then match arg_data a with
       | VNone => Returned (mk None)
       | VBytes b => Returned (mk (Some b))
       | VStr cs => enc cs
       | VScalar x => enc (py_str x)
       end
  else Raised AssertionError.
Proof.
  cbv zeta. unfold Sloth_new.
  destruct a as [dat b it fh wi bl]; unfold construct;
    cbn [arg_bits arg_iterations arg_data arg_final_hash arg_witness arg_blocking].
  init_unfold.
  destruct b as [[| vb | zb] | |]; cbn [isinstance_int int_value andb]; try reflexivity.
  - destruct vb; [reflexivity|].
    change (py_mod 0 512 =? 0) with true. cbn [andb].
    destruct it as [[| vi | zi] | |]; cbn [isinstance_int int_value andb]; try reflexivity;
      destruct dat as [[| vd | zd] | sd | bd], fh, wi;
      unfold mbind, InitM_bind, setattr, lift_outcome;
      repeat match goal with
             | |- context [encode_utf8 ?s] =>
                 let E := fresh "E" in
                 destruct (encode_utf8 s) eqn:E;
                 [| apply encode_utf8_raises in E; subst]
             end;
      vm_compute; reflexivity.
  - destruct (py_mod zb 512 =? 0); cbn [andb]; [|reflexivity].
    destruct it as [[| vi | zi] | |]; cbn [isinstance_int int_value andb]; try reflexivity;
      destruct dat as [[| vd | zd] | sd | bd], fh, wi;
      unfold mbind, InitM_bind, setattr, lift_outcome;
      repeat match goal with
             | |- context [encode_utf8 ?s] =>
                 let E := fresh "E" in
                 destruct (encode_utf8 s) eqn:E;
                 [| apply encode_utf8_raises in E; subst]
             end;
      vm_compute; reflexivity.
Qed.

Lemma utf8_encode_cp_None (c : N) :
  utf8_encode_cp c = None <-> (0xD800 <= c <= 0xDFFF \/ 0x110000 <= c)%N.
Proof.
  unfold utf8_encode_cp.
  destruct (N.ltb_spec c 128); [split; [done|lia]|].
  destruct (N.ltb_spec c 2048); [split; [done|lia]|].
  destruct (N.leb_spec 55296 c), (N.leb_spec c 57343); cbn [andb];
    try (split; [done|lia]);
    destruct (N.ltb_spec c 65536); try (split; [done|lia]);
    destruct (N.ltb_spec c 1114112); split; try done; lia.
Qed.

Lemma encode_utf8_raises_iff (cs : list N) :
  encode_utf8 cs = Raised UnicodeEncodeError
  <-> Exists (fun c => utf8_encode_cp c = None) cs.
Proof.
  induction cs as [|c cs IH]; cbn.
  - split; [done|]. by intros H%Exists_nil.
  - rewrite Exists_cons, <- IH.
    destruct (utf8_encode_cp c) as [b|] eqn:E.
    + destruct (encode_utf8 cs) as [bs|e] eqn:E'.
      * split; [done|]. intros [?|?]; done.
      * apply encode_utf8_raises in E'. subst. split; [by right|done].
    + split; [by left|done].
Qed.

(** X1: what a constructor call that returns has stored as data.  No data
    stays [None]; [bytes] are kept as they are; a [str] is stored as its
    UTF-8 encoding; any other value as the encoding of [str(value)]. *)
Theorem constructed_data (a : InitArgs) (s : Sloth) :
  Sloth_new a = Returned s ->
  match arg_data a with
  | VNone => _data s = None
  | VBytes b => _data s = Some b
  | VStr cs => exists b, encode_utf8 cs = Returned b /\ _data s = Some b
  | VScalar x => exists b, encode_utf8 (py_str x) = Returned b /\ _data s = Some b
  end.
Proof.
  rewrite Sloth_new_eq. cbv zeta.
  destruct (_ && _ && _); [|done].
  destruct (arg_data a) as [[| vd | zd] | cs | b]; try (by intros [= <-]).
  - destruct (encode_utf8 _) as [b|]; [|done]. intros [= <-]. by exists b.
  - destruct (encode_utf8 _) as [b|]; [|done]. intros [= <-]. by exists b.
  - destruct (encode_utf8 _) as [b|]; [|done]. intros [= <-]. by exists b.
Qed.

Lemma constructed_data_witness :
  exists b, encode_utf8 (codepoints "hello") = Returned b
            /\ _data (mkSloth (Some hello) 1024 10 None None None true None)
               = Some b.
Proof.
  exact (constructed_data hello_args
           (mkSloth (Some hello) 1024 10 None None None true None)
           ltac:(vm_compute; reflexivity)).
Defined.

(** The errors of the model of the constructor. *)
Lemma Sloth_new_raises (a : InitArgs) (e : Exn) :
  Sloth_new a = Raised e -> e = AssertionError \/ e = UnicodeEncodeError.
Proof.
  rewrite Sloth_new_eq. cbv zeta.
  destruct (_ && _ && _); [|intros [= <-]; by left].
  destruct (arg_data a) as [[| vd | zd] | cs | b]; try done;
    destruct (encode_utf8 _); try done; intros [= <-]; by right.
Qed.

Lemma Sloth_new_no_data (b it : PyVal) (fh wi : option bytes) (bl : bool)
    (s : Sloth) :
  Sloth_new (mkArgs VNone b it fh wi bl) = Returned s -> _data s = None.
Proof.
  rewrite Sloth_new_eq. cbv zeta. cbn [arg_data].
  destruct (_ && _ && _); [|done]. by intros [= <-].
Qed.

(** X2: the errors of the constructor.  It raises the encoding error
    exactly when the assertions hold and the data is a [str] with a code
    point that UTF-8 cannot encode (a surrogate); the object is then left
    with [_data = None] as its only attribute.  For data whose [str()] is
    defined (everything but an [int] of more than 640 digits, whose
    conversion the interpreter may refuse) it raises nothing but the
    assertion error and the encoding error. *)
Theorem constructor_errors (a : InitArgs) :
  (Sloth_new a = Raised UnicodeEncodeError <->
     isinstance_int (arg_bits a) && multiple_of_512 (arg_bits a)
       && isinstance_int (arg_iterations a) = true
     /\ exists cs, arg_data a = VStr cs
          /\ Exists (fun c => 0xD800 <= c <= 0xDFFF \/ 0x110000 <= c)%N cs)
  /\ (Sloth_new a = Raised UnicodeEncodeError ->
      construct a = ({[ "_data" := Val VNone ]}, Raised UnicodeEncodeError))
  /\ (str_defined (arg_data a) = true ->
      forall e, Sloth_new a = Raised e ->
        e = AssertionError \/ e = UnicodeEncodeError).
Proof.
  assert (Hs : forall cs,
    Exists (fun c => 0xD800 <= c <= 0xDFFF \/ 0x110000 <= c)%N cs
    <-> encode_utf8 cs = Raised UnicodeEncodeError).
  { intros cs. rewrite encode_utf8_raises_iff.
    rewrite !Exists_exists.
    split; intros (c & Hin & Hc); exists c; (split; [done|]);
      by apply utf8_encode_cp_None. }
  split; [|split].
  - rewrite Sloth_new_eq. cbv zeta.
    destruct (_ && _ && _); [|split; [done|by intros [? _]]].
    destruct (arg_data a) as [[| vd | zd] | cs | b].
    + split; [done|]. by intros (_ & cs & ? & _).
    + destruct (encode_utf8_py_str (SBool vd)) as [b ->].
      split; [done|]. by intros (_ & cs & ? & _).
    + destruct (encode_utf8_py_str (SInt zd)) as [b ->].
      split; [done|]. by intros (_ & cs & ? & _).
    + split.
      * intros H. split; [done|]. exists cs. split; [done|]. apply Hs.
        destruct (encode_utf8 cs) as [b|e] eqn:E; [done|].
        by apply encode_utf8_raises in E as ->.
      * intros (_ & cs' & [= <-] & H%Hs). by rewrite H.
    + split; [done|]. by intros (_ & cs & ? & _).
  - pose proof (construct_cases a) as H. unfold Sloth_new.
    destruct (_ && _ && _).
    + destruct H as [H | (d & H & s & Es & _)]; rewrite H; [done|].
      rewrite Es. done.
    + rewrite H. done.
  - intros _ e. apply Sloth_new_raises.
Qed.

(** X3: a [bool], or an [int] whose [str()] is defined (up to 640 digits
    under any setting of the interpreter), is the same data as its [str()]:
    the two constructor calls give the same object. *)
Theorem scalar_data_is_its_str (x : Scalar) (b it : PyVal)
    (fh wi : option bytes) (bl : bool) :
  x <> SNone -> str_defined (VScalar x) = true ->
  Sloth_new (mkArgs (VScalar x) b it fh wi bl)
  = Sloth_new (mkArgs (VStr (py_str x)) b it fh wi bl).
Proof.
  intros Hx _. rewrite !Sloth_new_eq. cbv zeta.
  cbn [arg_bits arg_iterations arg_data arg_final_hash arg_witness arg_blocking].
  by destruct x.
Qed.

Lemma scalar_data_is_its_str_witness :
  Sloth_new (mkArgs (VInt (-42)) (VInt 512) (VInt 1) None None false)
  = Sloth_new (mkArgs (VStr (codepoints "-42")) (VInt 512) (VInt 1) None None false).
Proof.
  exact (scalar_data_is_its_str (SInt (-42)) (VInt 512) (VInt 1) None None false
           ltac:(discriminate) ltac:(vm_compute; reflexivity)).
Defined.

(** ** The flag and the bars *)

(** X4: the progress bar is off only when [tqdm] is missing or the
    environment variable is set to the empty string; any other value of the
    variable, ["0"] and ["false"] included, leaves it on. *)
Theorem progress_flag_off_iff (tqdm_installed : bool) (env : option string) :
  PROGRESS_of tqdm_installed env = false
  <-> tqdm_installed = false \/ env = Some ""%string.
Proof.
  unfold PROGRESS_of. destruct tqdm_installed; [|by intuition].
  destruct env as [v|]; [|by intuition].
  rewrite negb_false_iff, String.eqb_eq. split; [intros ->; by right|].
  by intros [?|[= ->]].
Qed.

Lemma foldl_bar_update (b : nat) (ds : list Z) (bs : list Bar) (bar : Bar) :
  bs !! b = Some bar ->
  foldl (fun bs d => alter (bar_update d) b bs) bs ds !! b
  = Some (match bar_closed bar with
          | O => mkBar (bar_total bar) (bar_n bar + foldr Z.add 0 ds) 0
          | S _ => bar
          end).
Proof.
  revert bs bar. induction ds as [|d ds IH]; intros bs bar Hb; cbn.
  - rewrite Hb, Z.add_0_r. by destruct bar as [tot n [|c]].
  - erewrite IH by (rewrite list_lookup_alter_eq, Hb; reflexivity).
    destruct bar as [tot n [|c]]; cbn; [|done]. do 2 f_equal. lia.
Qed.

Lemma foldl_bar_update_ne (b i : nat) (ds : list Z) (bs : list Bar) :
  i <> b ->
  foldl (fun bs d => alter (bar_update d) b bs) bs ds !! i = bs !! i.
Proof.
  intros Hne. revert bs. induction ds as [|d ds IH]; intros bs; cbn; [done|].
  rewrite IH. by apply list_lookup_alter_ne.
Qed.

(** X5: the callbacks of one library run add up on the bar the module
    global names.  While that bar is open its count grows by the sum of the
    reported deltas; once it was closed the updates do nothing.  Its total
    and its closing count stay, no other bar and nothing else in the world
    changes.  With the flag off, or without a bar, the callbacks do
    nothing. *)
Theorem callbacks_add_up (t : tid) (ds : list Z) (w : World) (b : nat) (bar : Bar) :
  progressbar w = Some b -> bars w !! b = Some bar ->
  (let r := run t (callbacks true ds) w in
   snd r = Done tt
   /\ bars (fst r) !! b
      = Some (match bar_closed bar with
              | O => mkBar (bar_total bar) (bar_n bar + foldr Z.add 0 ds) 0
              | S _ => bar
              end)
   /\ (forall i, i <> b -> bars (fst r) !! i = bars w !! i)
   /\ fst r = with_bars (bars (fst r)) w)
  /\ run t (callbacks false ds) w = (w, Done tt)
  /\ run t (callbacks true ds) (with_progressbar None w)
     = (with_progressbar None w, Done tt).
Proof.
  intros Hpb Hbar. rewrite !run_callbacks. cbn [fst snd]. unfold advance.
  rewrite Hpb. cbn [progressbar with_progressbar bars with_bars].
  repeat split.
  - by apply foldl_bar_update.
  - intros i Hi. by apply foldl_bar_update_ne.
  - by destruct w.
Qed.

Lemma callbacks_add_up_witness :
  bars (fst (run (Worker 0) (callbacks true [3; 4])
               (mkWorld (hello_task false) (Some 0%nat)
                  [mkBar 10 0 0; mkBar 10 2 1] None [] 0 [] [])))
    !! 0%nat
  = Some (mkBar 10 (0 + foldr Z.add 0 [3; 4]) 0)
  /\ bars (fst (run (Worker 0) (callbacks true [3; 4])
                  (mkWorld (hello_task false) (Some 1%nat)
                     [mkBar 10 0 0; mkBar 10 2 1] None [] 0 [] [])))
       !! 1%nat
     = Some (mkBar 10 2 1).
Proof.
  split.
  - exact (proj1 (proj2 (proj1
      (callbacks_add_up (Worker 0) [3; 4]
         (mkWorld (hello_task false) (Some 0%nat)
            [mkBar 10 0 0; mkBar 10 2 1] None [] 0 [] [])
         0%nat (mkBar 10 0 0) eq_refl eq_refl)))).
  - exact (proj1 (proj2 (proj1
      (callbacks_add_up (Worker 0) [3; 4]
         (mkWorld (hello_task false) (Some 1%nat)
            [mkBar 10 0 0; mkBar 10 2 1] None [] 0 [] [])
         1%nat (mkBar 10 2 1) eq_refl eq_refl)))).
Defined.

(** ** Waiting *)

Section Waiting.

Variable PROGRESS : bool.

(** X7: [_run] on a background object whose worker is alive waits in its
    first statement.  Nothing has changed when it waits: no bar was created,
    no thread, no attribute assigned; and the wait has no timeout, so the
    client stays there until the worker has ended. *)
Theorem background_run_waits (task : Prog unit) (w : World) (i : nat) (th : Thread) :
  blocking (self w) = false ->
  _thread (self w) = Some i -> pool w !! i = Some th -> alive th = true ->
  exists p, run Main (_run PROGRESS task) w = (w, Blocked p)
            /\ step Main p w = None /\ step_expire p w = None.
Proof.
  intros Hb Ht Hl Ha. unfold alive in Ha.
  apply andb_true_iff in Ha as [Hs Hf]. apply negb_true_iff in Hf.
  unfold _run, wait, mbind, Prog_bind.
  cbn [bind perform perform_raising run act]. rewrite Hb. cbn [negb].
  cbn [bind perform perform_raising run act]. rewrite Ht.
  cbn [bind perform perform_raising run act]. rewrite Hl, Hs, Hf. cbn [negb].
  eexists. split; [reflexivity|]. cbn. rewrite Hl, Hs, Hf. done.
Qed.

End Waiting.

Lemma background_run_waits_witness :
  exists p,
    run Main (_run true (Ret tt))
      (mkWorld (mkSloth None 512 1 None None None false (Some 0%nat)) None []
         None [mkThread true (perform LockAcquire)] 0 [] [])
    = (mkWorld (mkSloth None 512 1 None None None false (Some 0%nat)) None []
         None [mkThread true (perform LockAcquire)] 0 [] [], Blocked p)
    /\ step Main p
         (mkWorld (mkSloth None 512 1 None None None false (Some 0%nat)) None []
            None [mkThread true (perform LockAcquire)] 0 [] []) = None
    /\ step_expire p
         (mkWorld (mkSloth None 512 1 None None None false (Some 0%nat)) None []
            None [mkThread true (perform LockAcquire)] 0 [] []) = None.
Proof.
  exact (background_run_waits true (Ret tt)
           (mkWorld (mkSloth None 512 1 None None None false (Some 0%nat)) None []
              None [mkThread true (perform LockAcquire)] 0 [] [])
           0%nat (mkThread true (perform LockAcquire))
           eq_refl eq_refl eq_refl eq_refl).
Defined.

(** ** The task bodies, however they end *)

Section Tasks.

Variable PROGRESS : bool.
Variable c_sloth : nat -> option bytes -> Z -> Z -> LibRun SlothOut.
Variable c_sloth_verification :
  nat -> option bytes -> Z -> option bytes -> option bytes -> Z -> Z -> LibRun Z.

(** X8: every negative bit width that the constructor lets through makes
    [compute] fail when it allocates the witness buffer: the library is
    never called and the object stays as it was constructed. *)
Theorem compute_negative_bits (a : InitArgs) (s : Sloth) :
  Sloth_new a = Returned s -> arg_blocking a = true -> bits s < 0 ->
  run Main (compute PROGRESS c_sloth) (init_world s)
  = (open_bar PROGRESS (init_world s), Failed (ForeignError 0))
  /\ ncalls (open_bar PROGRESS (init_world s)) = 0%nat
  /\ self (open_bar PROGRESS (init_world s)) = s.
Proof.
  intros Hnew Hbl Hneg.
  destruct (Sloth_new_constructed a s Hnew) as (Hb & _ & _ & _ & _ & Hbits & _).
  assert (Hm : bits s mod 512 = 0).
  { rewrite Sloth_new_eq in Hnew. cbv zeta in Hnew.
    destruct (isinstance_int (arg_bits a)); [|done].
    destruct (multiple_of_512 (arg_bits a)) eqn:E; [|done].
    unfold multiple_of_512 in E. rewrite Hbits in E.
    by apply Z.eqb_eq in E. }
  assert (Hq : int_div8 (bits s) < 0).
  { unfold int_div8. apply Z.mod_divide in Hm as [k Hk]; [|done].
    rewrite Hk in *.
    assert (k < 0) by lia.
    replace (k * 512) with (k * 64 * 8) by lia.
    rewrite Z.quot_mul by done. lia. }
  rewrite Hbl in Hb. unfold compute.
  rewrite run__run_blocking, run_wrapped_task, run_compute_task_no_buffer
    by (autorewrite with world; done).
  by autorewrite with world.
Qed.

(** X9: the task bodies write their own outputs and nothing else.
    However [compute_task] ends, the object differs from before in
    [witness] and [final_hash] at most; however [verify_task] ends, in
    [valid] at most.  Both end with the lock free, after one library call at
    most, and neither is left waiting. *)
Theorem tasks_write_their_outputs_only (t : tid) (w : World) :
  lock w = None ->
  (let r := run t (compute_task PROGRESS c_sloth) w in
   self (fst r)
   = set_final_hash (final_hash (self (fst r)))
       (set_witness (witness (self (fst r))) (self w))
   /\ lock (fst r) = None
   /\ (ncalls (fst r) <= S (ncalls w))%nat
   /\ outcome_of (snd r) <> None)
  /\ (let r := run t (verify_task PROGRESS c_sloth_verification) w in
      self (fst r) = set_valid (valid (self (fst r))) (self w)
      /\ lock (fst r) = None
      /\ (ncalls (fst r) <= S (ncalls w))%nat
      /\ outcome_of (snd r) <> None).
Proof.
  intros Hl. cbv zeta. split.
  - destruct (Z.lt_ge_cases (int_div8 (bits (self w))) 0) as [Hq|Hq].
    + rewrite run_compute_task_no_buffer by done. cbn.
      repeat split; try done; try lia. by destruct (self w).
    + rewrite run_compute_task by done.
      destruct (result _); cbn; repeat split; try done; try lia;
        by destruct (self w).
  - destruct (witness (self w)) as [wb|] eqn:Hw.
    + rewrite run_verify_task by (done || congruence).
      destruct (result _); cbn; repeat split; try done; try lia;
        by destruct (self w).
    + rewrite run_verify_task_unset by done. cbn.
      repeat split; try done; try lia. by destruct (self w).
Qed.

End Tasks.

Lemma compute_negative_bits_witness :
  run Main (compute true toy_sloth)
    (init_world (mkSloth None (-512) 1 None None None true None))
  = (open_bar true (init_world (mkSloth None (-512) 1 None None None true None)),
     Failed (ForeignError 0)).
Proof.
  exact (proj1 (compute_negative_bits true toy_sloth
                  (mkArgs VNone (VInt (-512)) (VInt 1) None None true)
                  (mkSloth None (-512) 1 None None None true None)
                  ltac:(vm_compute; reflexivity) eq_refl ltac:(reflexivity))).
Defined.

Lemma tasks_write_their_outputs_only_witness :
  self (fst (run (Worker 0) (verify_task true toy_verification)
               (init_world (hello_proof false))))
  = set_valid
      (valid (self (fst (run (Worker 0) (verify_task true toy_verification)
                           (init_world (hello_proof false))))))
      (hello_proof false).
Proof.
  exact (proj1 (proj2 (tasks_write_their_outputs_only true toy_sloth
                         toy_verification (Worker 0)
                         (init_world (hello_proof false)) eq_refl))).
Defined.

(** ** The helpers [sloth] and [verify_sloth] *)

Lemma hex_length (b : bytes) : String.length (hex b) = (2 * length b)%nat.
Proof. induction b as [|x b IH]; cbn; [done|]. rewrite IH. lia. Qed.

Lemma unhex_hex_byte (x : byte) :
  hex_value (hex_digit (Byte.to_N x / 16)) = Some (Byte.to_N x / 16)%N
  /\ hex_value (hex_digit (Byte.to_N x mod 16)) = Some (Byte.to_N x mod 16)%N
  /\ byte_of_N (16 * (Byte.to_N x / 16) + Byte.to_N x mod 16) = x.
Proof. destruct x; vm_compute; done. Qed.

Lemma unhex_hex (b : bytes) : unhex (hex b) = Some b.
Proof.
  induction b as [|x b IH]; [done|]. cbn [hex unhex].
  destruct (unhex_hex_byte x) as (-> & -> & Hx). cbn. rewrite IH. cbn.
  by rewrite Hx.
Qed.

Lemma hex_inj (b1 b2 : bytes) : hex b1 = hex b2 -> b1 = b2.
Proof.
  intros H. apply (f_equal unhex) in H. rewrite !unhex_hex in H. congruence.
Qed.

Section HelperRuns.

Variable PROGRESS : bool.
Variable c_sloth : nat -> option bytes -> Z -> Z -> LibRun SlothOut.
Variable c_sloth_verification :
  nat -> option bytes -> Z -> option bytes -> option bytes -> Z -> Z -> LibRun Z.

Lemma run_sloth_body (s : Sloth) (w : World) :
  blocking s = true -> bits s = 1024 ->
  run Main (sloth_body PROGRESS c_sloth) (fresh s w) =
  match result (sloth_run c_sloth (fresh s w)) with
  | Returned o =>
      let w1 :=
        after_publish Main (published_witness 1024 o) (published_digest o)
          (after_lib PROGRESS Main (reported (sloth_run c_sloth (fresh s w)))
             (open_bar PROGRESS (fresh s w))) in
      (if PROGRESS then close_bar (length (bars w)) w1 else w1,
       match _data s with
       | Some d =>
           Done [hex (published_witness 1024 o); hex (published_digest o); hex d]
       | None => Failed AttributeError
       end)
  | Raised e =>
      (after_lib PROGRESS Main (reported (sloth_run c_sloth (fresh s w)))
         (open_bar PROGRESS (fresh s w)), Failed e)
  end.
Proof.
  intros Hb Hbits. unfold sloth_body, mbind, Prog_bind.
  rewrite run_bind, run_compute_blocking by (cbn; rewrite ?Hbits; done).
  cbn [self fresh bars]. rewrite Hbits.
  destruct (result _) as [o|e]; [|reflexivity]. cbv zeta.
  destruct PROGRESS; cbn; destruct (_data s); reflexivity.
Qed.

Lemma run_verify_sloth_body (s : Sloth) (w : World) :
  blocking s = true -> witness s <> None ->
  run Main (verify PROGRESS c_sloth_verification;; perform (GetAttr valid))
      (fresh s w) =
  match result (verification_run c_sloth_verification (fresh s w)) with
  | Returned v =>
      let w1 :=
        after_verdict Main (v =? 1)
          (after_lib PROGRESS Main
             (reported (verification_run c_sloth_verification (fresh s w)))
             (open_bar PROGRESS (fresh s w))) in
      (if PROGRESS then close_bar (length (bars w)) w1 else w1,
       Done (Some (v =? 1)))
  | Raised e =>
      (after_lib PROGRESS Main
         (reported (verification_run c_sloth_verification (fresh s w)))
         (open_bar PROGRESS (fresh s w)), Failed e)
  end.
Proof.
  intros Hb Hw. unfold mbind, Prog_bind.
  rewrite run_bind, run_verify_blocking by done.
  cbn [self fresh bars].
  destruct (result _) as [v|e]; [|reflexivity]. cbv zeta.
  destruct PROGRESS; reflexivity.
Qed.

Lemma helper_object (data it : PyVal) (fh wi : option bytes) (s : Sloth) :
  Sloth_new (mkArgs data (VInt 1024) it fh wi true) = Returned s ->
  blocking s = true /\ bits s = 1024 /\ witness s = wi /\ final_hash s = fh
  /\ int_value it = Some (iterations s).
Proof.
  intros H. destruct (Sloth_new_constructed _ _ H) as (H1 & _ & _ & H4 & H5 & H6 & H7).
  cbn in *. repeat split; try done. congruence.
Qed.

End HelperRuns.

Section HelperResults.

Variable PROGRESS : bool.
Variable c_sloth : nat -> option bytes -> Z -> Z -> LibRun SlothOut.
Variable c_sloth_verification :
  nat -> option bytes -> Z -> option bytes -> option bytes -> Z -> Z -> LibRun Z.

Local Notation sloth' := (sloth PROGRESS c_sloth).
Local Notation verify_sloth' := (verify_sloth PROGRESS c_sloth_verification).

(** What is known when [sloth] has returned. *)
Lemma sloth_returns_inv (data it : PyVal) (w : World) (l : list string) :
  snd (sloth' data it w) = Done l ->
  exists (s : Sloth) (o : SlothOut) (d : bytes),
    Sloth_new (mkArgs data (VInt 1024) it None None true) = Returned s
    /\ _data s = Some d
    /\ result (c_sloth (ncalls w) (Some d) 1024 (iterations s)) = Returned o
    /\ l = [hex (published_witness 1024 o); hex (published_digest o); hex d]
    /\ ncalls (fst (sloth' data it w)) = S (ncalls w).
Proof.
  unfold sloth.
  destruct (Sloth_new _) as [s|e] eqn:Hnew; [|done].
  destruct (helper_object _ _ _ _ _ Hnew) as (Hb & Hbits & _).
  rewrite run_sloth_body by done. unfold sloth_run. cbn [fresh ncalls self].
  rewrite Hbits.
  destruct (result _) as [o|e] eqn:Ho; [|done]. cbn [fst snd].
  destruct (_data s) as [d|] eqn:Hd; [|done]. intros [= <-].
  exists s, o, d. repeat split; try done. by destruct PROGRESS.
Qed.

(** X10: what [sloth] returns.  When it returns, the constructor accepted
    the arguments, there was data, the library was called once and returned,
    and the result is the list of three hexadecimal strings: the witness,
    the digest (128 digits, the whole 64-byte buffer) and the data as
    stored.  When the size the library reported is within the 128-byte
    witness buffer, the witness has two digits for each byte of that
    size. *)
Theorem sloth_returns_hex_triple (data it : PyVal) (w : World) (l : list string) :
  snd (sloth' data it w) = Done l ->
  exists (s : Sloth) (o : SlothOut) (d : bytes),
    Sloth_new (mkArgs data (VInt 1024) it None None true) = Returned s
    /\ _data s = Some d
    /\ result (c_sloth (ncalls w) (Some d) 1024 (iterations s)) = Returned o
    /\ l = [hex (published_witness 1024 o); hex (published_digest o); hex d]
    /\ String.length (hex (published_digest o)) = 128%nat
    /\ ((N.to_nat (wrote_size o) <= 128)%nat ->
        String.length (hex (published_witness 1024 o))
        = (2 * N.to_nat (wrote_size o))%nat)
    /\ ncalls (fst (sloth' data it w)) = S (ncalls w).
Proof.
  intros H. destruct (sloth_returns_inv _ _ _ _ H) as (s & o & d & H1 & H2 & H3 & H4 & H5).
  exists s, o, d. repeat split; try done.
  - by rewrite hex_length, published_digest_length.
  - intros Hsz. rewrite hex_length. f_equal. unfold published_witness.
    rewrite length_take, written_length, length_replicate.
    change (Z.to_nat (int_div8 1024)) with 128%nat. lia.
Qed.

(** X11: [sloth] and [verify_sloth] fit together.  With a library that
    keeps the contract and a positive iteration count, the three strings
    that [sloth] returned, read back as bytes, are accepted by
    [verify_sloth] for the same iteration count. *)
Theorem sloth_then_verify_sloth (data : PyVal) (it : Z) (w w' : World)
    (wi fh d : bytes) :
  PrimitiveContract c_sloth c_sloth_verification -> 0 < it ->
  snd (sloth' data (VInt it) w) = Done [hex wi; hex fh; hex d] ->
  snd (verify_sloth' (Some wi) (Some fh) (VBytes d) (VInt it) w')
  = Done (Some true).
Proof.
  intros Hc Hit Hs.
  destruct (sloth_returns_inv _ _ _ _ Hs)
    as (s & o & d' & Hnew & Hd & Ho & [= H1 H2 H3] & _).
  apply hex_inj in H1, H2, H3. subst.
  destruct (helper_object _ _ _ _ _ Hnew) as (_ & _ & _ & _ & [= Hi]).
  rewrite <- Hi in Ho.
  unfold verify_sloth. rewrite Sloth_new_eq. cbv zeta.
  cbn [arg_bits arg_iterations arg_data arg_final_hash arg_witness arg_blocking
       isinstance_int int_value andb default].
  change (multiple_of_512 (VInt 1024)) with true. cbn [andb].
  rewrite run_verify_sloth_body by done.
  unfold verification_run. cbn [fresh ncalls self witness final_hash _data bits
                                iterations default].
  unfold id.
  rewrite (Hc (ncalls w) (ncalls w') d' 1024 it o eq_refl eq_refl Hit Ho).
  reflexivity.
Qed.

(** X12: [verify_sloth] never returns [None] and never waits.  When it
    returns, a witness was handed in and the result is a boolean; without a
    witness it makes no call of the library, and for data whose [str()] is
    defined it raises the assertion error or the encoding error. *)
Theorem verify_sloth_returns_bool (wi fh : option bytes) (d it : PyVal) (w : World) :
  outcome_of (snd (verify_sloth' wi fh d it w)) <> None
  /\ (forall v, snd (verify_sloth' wi fh d it w) = Done v ->
        wi <> None /\ exists b, v = Some b)
  /\ (wi = None ->
      ncalls (fst (verify_sloth' wi fh d it w)) = ncalls w
      /\ (str_defined d = true ->
          snd (verify_sloth' wi fh d it w) = Failed AssertionError
          \/ snd (verify_sloth' wi fh d it w) = Failed UnicodeEncodeError)).
Proof.
  unfold verify_sloth.
  destruct (Sloth_new _) as [s|e] eqn:Hnew.
  - destruct (helper_object _ _ _ _ _ Hnew) as (Hb & _ & Hw & _).
    destruct wi as [wb|].
    + rewrite run_verify_sloth_body by (done || congruence).
      destruct (result _) as [v|e]; cbn [fst snd outcome_of].
      * split; [done|]. split; [|done].
        intros v' [= <-]. split; [done|]. by eexists.
      * split; [done|]. split; done.
    + unfold mbind, Prog_bind. rewrite run_bind. unfold verify.
      rewrite run__run_blocking, run_wrapped_task, run_verify_task_unset
        by (autorewrite with world; done).
      cbn [fst snd outcome_of]. split; [done|]. split; [done|].
      intros _. split; [by autorewrite with world|]. intros _. by left.
  - cbn [fst snd outcome_of]. split; [done|]. split; [done|].
    intros _. split; [done|]. intros _.
    apply Sloth_new_raises in Hnew as [-> | ->]; [by left|by right].
Qed.

(** X13: [sloth] needs data.  Called with [None] as data it never returns
    a result: when the library accepts the missing data and returns,
    reading [s.data.hex()] raises after the computation was done. *)
Theorem sloth_needs_data (it : PyVal) (w : World) :
  outcome_of (snd (sloth' VNone it w)) <> None
  /\ (forall l, snd (sloth' VNone it w) <> Done l)
  /\ (forall s o,
        Sloth_new (mkArgs VNone (VInt 1024) it None None true) = Returned s ->
        result (c_sloth (ncalls w) None 1024 (iterations s)) = Returned o ->
        snd (sloth' VNone it w) = Failed AttributeError
        /\ ncalls (fst (sloth' VNone it w)) = S (ncalls w)).
Proof.
  unfold sloth.
  destruct (Sloth_new _) as [s|e] eqn:Hnew;
    [|split; [done|]; split; [done|]; intros s o [=]].
  destruct (helper_object _ _ _ _ _ Hnew) as (Hb & Hbits & _).
  pose proof (Sloth_new_no_data _ _ _ _ _ _ Hnew) as Hd.
  rewrite run_sloth_body by done. unfold sloth_run. cbn [fresh ncalls self].
  rewrite Hbits, Hd.
  destruct (result _) as [o|e] eqn:Ho; cbn [fst snd outcome_of].
  - split; [done|]. split; [done|]. intros s' o' [= <-] _.
    split; [done|]. by destruct PROGRESS.
  - split; [done|]. split; [done|]. intros s' o' [= <-] Ho'.
    rewrite Ho in Ho'. done.
Qed.

End HelperResults.

Lemma sloth_returns_hex_triple_witness :
  exists (s : Sloth) (o : SlothOut) (d : bytes),
    Sloth_new (mkArgs (VStr (codepoints "hello")) (VInt 1024) (VInt 10)
                 None None true) = Returned s
    /\ _data s = Some d
    /\ result (toy_sloth 0 (Some d) 1024 (iterations s)) = Returned o
    /\ [hex (rev hello); hex (replicate 64 x01); hex hello]
       = [hex (published_witness 1024 o); hex (published_digest o); hex d]
    /\ String.length (hex (published_digest o)) = 128%nat
    /\ ((N.to_nat (wrote_size o) <= 128)%nat ->
        String.length (hex (published_witness 1024 o))
        = (2 * N.to_nat (wrote_size o))%nat)
    /\ ncalls (fst (sloth true toy_sloth (VStr (codepoints "hello")) (VInt 10)
                      (init_world (empty_task true)))) = 1%nat.
Proof.
  exact (sloth_returns_hex_triple true toy_sloth (VStr (codepoints "hello"))
           (VInt 10) (init_world (empty_task true))
           [hex (rev hello); hex (replicate 64 x01); hex hello]
           ltac:(vm_compute; reflexivity)).
Defined.

Lemma sloth_then_verify_sloth_witness :
  snd (verify_sloth true toy_verification (Some (rev hello))
         (Some (replicate 64 x01)) (VBytes hello) (VInt 10)
         (init_world (empty_task true)))
  = Done (Some true).
Proof.
  exact (sloth_then_verify_sloth true toy_sloth toy_verification
           (VStr (codepoints "hello")) 10 (init_world (empty_task true))
           (init_world (empty_task true)) (rev hello) (replicate 64 x01) hello
           toy_contract ltac:(reflexivity) ltac:(vm_compute; reflexivity)).
Defined.

(** ** The client of a background object *)

Section BackgroundClient.

Variable PROGRESS : bool.
Variable c_sloth : nat -> option bytes -> Z -> Z -> LibRun SlothOut.
Variable c_sloth_verification :
  nat -> option bytes -> Z -> option bytes -> option bytes -> Z -> Z -> LibRun Z.

(** X14: no failure of a worker is ever raised to the client of a
    background object.  Whatever the library does, whatever the object
    holds and however the threads are interleaved, the calls of [compute],
    [verify] and [wait] of a client of a fresh background object do not
    raise, as long as the timeouts handed to [wait] are within
    [TIMEOUT_MAX]; and the client itself never enters the library. *)
Theorem background_client_never_raises
    (cs : list Call) (s : Sloth) (ds : list Decision) (c' : Config) :
  blocking s = false -> _thread s = None -> Forall call_in_range cs ->
  exec ds (mkConfig (script PROGRESS c_sloth c_sloth_verification cs)
                    (init_world s)) = Some c' ->
  (forall e, main c' <> Raise e)
  /\ (Main ∉ inlib (world c'))
  /\ blocking (self (world c')) = false.
Proof.
  intros Hb Ht _ He.
  pose proof (protocol_init PROGRESS c_sloth c_sloth_verification cs s Hb Ht)
    as H0.
  destruct (protocol_exec ds _ c' (ex_intro (fun ph => protocol ph _) _ H0) He)
    as [ph (Hbl & Hk & Hth & Hil & Hwp)].
  split; [|split; [|done]].
  - intros e Hm. rewrite Hm in Hwp. done.
  - intros Hin. destruct Hil as [_ Hil]. by destruct (Hil _ Hin) as (j & ? & _).
Qed.

End BackgroundClient.

Lemma background_client_never_raises_witness :
  blocking (hello_task false) = false /\ _thread (hello_task false) = None
  /\ exists c', exec (client_worker_client 11 1 1) verify_then_wait = Some c'
                /\ main c' <> Raise AssertionError.
Proof.
  split; [reflexivity|]. split; [reflexivity|].
  destruct (exec (client_worker_client 11 1 1) verify_then_wait) as [c'|] eqn:E.
  - exists c'. split; [reflexivity|].
    exact (proj1 (background_client_never_raises true toy_sloth
                    toy_verification [CallVerify; CallWait None]
                    (hello_task false) (client_worker_client 11 1 1) c'
                    eq_refl eq_refl ltac:(repeat constructor) E)
             AssertionError).
  - vm_compute in E. discriminate E.
Defined.

(** ** Calls that end *)

Section Ending.

Variable PROGRESS : bool.
Variable c_sloth : nat -> option bytes -> Z -> Z -> LibRun SlothOut.
Variable c_sloth_verification :
  nat -> option bytes -> Z -> option bytes -> option bytes -> Z -> Z -> LibRun Z.

Local Abbreviation script' := (script PROGRESS c_sloth c_sloth_verification).

(** X15: in blocking mode every call ends.  A sequence of [compute],
    [verify] and [wait] calls on a blocking object returns or raises; it is
    never left waiting for the lock or for a thread, and the lock is free
    when it ends. *)
Theorem blocking_calls_always_end (cs : list Call) (w : World) :
  blocking (self w) = true -> lock w = None -> _thread (self w) = None ->
  outcome_of (snd (run Main (script' cs) w)) <> None
  /\ lock (fst (run Main (script' cs) w)) = None.
Proof.
  revert w. induction cs as [|c cs IH]; intros w Hb Hl Ht; cbn [script].
  - done.
  - unfold mbind, Prog_bind. rewrite run_bind.
    destruct (run_blocking_call PROGRESS c_sloth c_sloth_verification c w Hb Hl Ht)
      as [Hf Hr].
    destruct (run Main (call _ _ _ c) w) as [w' r]. cbn [fst snd] in *.
    destruct Hf as (H1 & _ & H3 & H4 & _).
    destruct r as [[]|e|p]; cbn in Hr; try done.
    + apply IH; congruence.
    + cbn. split; [done|congruence].
Qed.

End Ending.

Lemma blocking_calls_always_end_witness :
  outcome_of (snd (run Main (script true toy_sloth toy_verification
                               [CallCompute; CallVerify; CallWait (Some 5)])
                     (init_world (hello_task true)))) <> None
  /\ lock (fst (run Main (script true toy_sloth toy_verification
                            [CallCompute; CallVerify; CallWait (Some 5)])
                  (init_world (hello_task true)))) = None.
Proof.
  exact (blocking_calls_always_end true toy_sloth toy_verification
           [CallCompute; CallVerify; CallWait (Some 5)]
           (init_world (hello_task true)) eq_refl eq_refl eq_refl).
Defined.

(** ** The lock discipline is kept, and some thread can always go on *)

Lemma lock_action_mono {X} (a : Action X) held (Q Q' : X -> bool -> Prop) :
  (forall x h, Q x h -> Q' x h) ->
  lock_action a held Q -> lock_action a held Q'.
Proof. destruct a; cbn; try tauto; firstorder. Qed.

Lemma lock_wp_mono {A} (p : Prog A) (Q Q' : A -> bool -> Prop) held :
  (forall a h, Q a h -> Q' a h) -> lock_wp p Q held -> lock_wp p Q' held.
Proof.
  revert Q Q' held.
  induction p as [A a | A e | A X a k IH | A target _ k IH];
    intros Q Q' held HQ; cbn; try done.
  - apply HQ.
  - apply lock_action_mono. intros x h. by apply IH.
Qed.

Lemma lock_wp_bind {A B} (p : Prog A) (f : A -> Prog B) Q held :
  lock_wp p (fun a h => lock_wp (f a) Q h) held ->
  lock_wp (bind p f) Q held.
Proof.
  revert B f Q held.
  induction p as [A a | A e | A X a k IH | A target _ k IH];
    intros B f Q held; cbn; try done.
  apply lock_action_mono. intros x h. apply IH.
Qed.

Lemma spawns_bind {A B} P (p : Prog A) (f : A -> Prog B) :
  spawns P p -> (forall a, spawns P (f a)) -> spawns P (bind p f).
Proof.
  intros Hp Hf.
  induction p as [A a | A e | A X a k IH | A target _ k IH]; cbn in *; try done.
  - intros x. by apply IH.
  - destruct Hp as [Ht Hk]. split; [done|]. intros i. by apply IH.
Qed.

(** A program that keeps to the lock discipline creates no thread. *)
Lemma lock_wp_spawns {A} P (p : Prog A) Q held : lock_wp p Q held -> spawns P p.
Proof.
  revert held.
  induction p as [A a | A e | A X a k IH | A target _ k IH]; cbn; try done.
  intros held Ha x.
  destruct a; cbn in Ha; try (eapply IH; apply Ha);
    destruct Ha as [_ Ha]; destruct x; eapply IH, Ha.
Qed.

Section LockPrograms.

Variable PROGRESS : bool.
Variable c_sloth : nat -> option bytes -> Z -> Z -> LibRun SlothOut.
Variable c_sloth_verification :
  nat -> option bytes -> Z -> option bytes -> option bytes -> Z -> Z -> LibRun Z.

Lemma lock_wp_callbacks ds (Q : unit -> bool -> Prop) held :
  Q tt held -> lock_wp (callbacks PROGRESS ds) Q held.
Proof.
  intros HQ. induction ds as [|d ds IH]; cbn; [done|].
  unfold mbind, Prog_bind. apply lock_wp_bind.
  unfold update_progress. destruct PROGRESS; cbn; [|done].
  intros [b|]; cbn; [intros []|]; done.
Qed.

Lemma lock_wp_lib_call {X} (f : nat -> LibRun X) (Q : X -> bool -> Prop) :
  (forall x, Q x false) -> lock_wp (lib_call PROGRESS f) Q false.
Proof.
  intros HQ. unfold lib_call, mbind, Prog_bind. cbn.
  intros k. apply lock_wp_bind. apply lock_wp_callbacks. cbn.
  intros []. destruct (result (f k)); cbn; [apply HQ | done].
Qed.

Lemma lock_ok_compute_task :
  lock_wp (compute_task PROGRESS c_sloth) (fun _ h => h = false) false.
Proof.
  unfold compute_task, ffi_new_uchar. change (64 <? 0) with false.
  unfold mbind, Prog_bind. cbn [lock_wp lock_action bind perform].
  intros b. destruct (int_div8 b <? 0); cbn [lock_wp lock_action bind perform];
    [done|].
  intros d b' it. apply lock_wp_bind, lock_wp_lib_call.
  intros o. unfold with_lock, mbind, Prog_bind. cbn. done.
Qed.

Lemma lock_ok_verify_task :
  lock_wp (verify_task PROGRESS c_sloth_verification) (fun _ h => h = false) false.
Proof.
  unfold verify_task, mbind, Prog_bind.
  cbn [lock_wp lock_action bind perform].
  intros [w|]; cbn [lock_wp lock_action bind perform]; [|done].
  intros w1 [wb|]; cbn [lock_wp lock_action bind perform]; [|done].
  intros fh d b it. apply lock_wp_bind, lock_wp_lib_call.
  intros v. unfold with_lock, mbind, Prog_bind. cbn. done.
Qed.

Lemma lock_ok_wrapped_task (task : Prog unit) :
  lock_wp task (fun _ h => h = false) false ->
  lock_ok (wrapped_task PROGRESS task).
Proof.
  intros H. unfold lock_ok, wrapped_task, mbind, Prog_bind.
  apply lock_wp_bind. revert H. apply lock_wp_mono.
  intros _ h ->. destruct PROGRESS; cbn; [|done].
  intros [b|]; cbn; done.
Qed.

Lemma spawns_wait timeout : spawns lock_ok (wait timeout).
Proof.
  unfold wait, mbind, Prog_bind. cbn. intros [i|]; cbn; [intros []|]; done.
Qed.

Lemma spawns__run (task : Prog unit) :
  lock_wp task (fun _ h => h = false) false ->
  spawns lock_ok (_run PROGRESS task).
Proof.
  intros Ht. unfold _run, mbind, Prog_bind. cbn [spawns bind perform].
  intros bl. apply spawns_bind.
  { destruct (negb bl); [apply spawns_wait|done]. }
  intros _. apply spawns_bind.
  { destruct PROGRESS; cbn; done. }
  intros _. cbn. intros [|].
  - unfold wrapped_task, mbind, Prog_bind. apply spawns_bind.
    + by eapply lock_wp_spawns.
    + intros _. destruct PROGRESS; cbn; [|done]. intros [b|]; cbn; done.
  - split; [by apply lock_ok_wrapped_task|].
    intros i []. intros [j|]; cbn; [intros []|]; done.
Qed.

Lemma spawns_script (cs : list Call) :
  spawns lock_ok (script PROGRESS c_sloth c_sloth_verification cs).
Proof.
  induction cs as [|c cs IH]; cbn [script]; [done|].
  unfold mbind, Prog_bind. apply spawns_bind; [|done].
  destruct c as [| |timeout]; cbn [call]; unfold compute, verify.
  - apply spawns__run, lock_ok_compute_task.
  - apply spawns__run, lock_ok_verify_task.
  - apply spawns_wait.
Qed.

End LockPrograms.

(** What an action of the client does to the lock and to the code of the
    threads. *)
Lemma client_act {X} (a : Action X) ph Q w x w' :
  client_action a ph Q -> act Main a w = Some (x, w') ->
  lock w' = lock w
  /\ length (pool w') = length (pool w)
  /\ forall j th', pool w' !! j = Some th' ->
       exists th, pool w !! j = Some th /\ code th' = code th.
Proof.
  intros Ha Hact.
  destruct a; cbn in Ha, Hact; try done; simplify_eq; cbn; eauto.
  - (* start *)
    destruct (pool w !! w0) as [th|] eqn:Hl; [|simplify_eq; eauto].
    destruct (started th); simplify_eq; cbn; [eauto|].
    split; [done|]. split; [apply length_insert|].
    intros j th' Hl'. destruct (decide (j = w0)) as [->|Hne].
    + rewrite list_lookup_insert_eq in Hl' by (by eapply lookup_lt_Some).
      simplify_eq. eauto.
    + rewrite list_lookup_insert_ne in Hl' by done. eauto.
  - (* join *)
    destruct (pool w !! w0) as [th|] eqn:Hl; [|simplify_eq; eauto].
    destruct (started th); cbn in Hact; [|simplify_eq; eauto].
    destruct (finished (code th)); simplify_eq; eauto.
Qed.

Lemma lock_main_step ph p w p' w' :
  protocol ph (mkConfig p w) -> lock_protocol (mkConfig p w) ->
  step Main p w = Some (p', w') ->
  lock_protocol (mkConfig p' w').
Proof.
  unfold protocol, lock_protocol. cbn [main world].
  intros (_ & _ & _ & _ & Hwp) (Hholder & Hthreads & Hsp) Hstep.
  destruct p as [a | e | X a k | target k]; cbn in Hstep; try done.
  - destruct (act Main a w) as [[x w1]|] eqn:Hact; [|done]. simplify_eq.
    cbn in Hwp.
    destruct (client_act a ph _ w x w' Hwp Hact) as (Hl & Hlen & Hcode).
    rewrite Hl, Hlen. split; [done|]. split; [|apply Hsp].
    intros j th' Hl'. destruct (Hcode j th' Hl') as (th & Hth & ->).
    by apply Hthreads.
  - simplify_eq. cbn in Hsp. destruct Hsp as [Ht Hk]. cbn.
    split; [|split; [|apply Hk]].
    + intros t Hlock. destruct (Hholder t Hlock) as (j & -> & Hj).
      exists j. split; [done|]. rewrite length_app. lia.
    + intros j th Hl. apply lookup_app_Some in Hl as [Hl|[Hge Hl]].
      * by apply Hthreads.
      * apply list_lookup_singleton_Some in Hl as [Hj <-]. cbn.
        rewrite bool_decide_eq_false_2; [done|].
        intros Hlock. destruct (Hholder _ Hlock) as (j' & [= <-] & Hj'). lia.
Qed.

Lemma lock_main_expire p w p' w' :
  lock_protocol (mkConfig p w) -> step_expire p w = Some (p', w') ->
  lock_protocol (mkConfig p' w').
Proof.
  unfold lock_protocol. cbn [main world].
  intros (Hholder & Hthreads & Hsp) Hstep.
  destruct p as [a | e | X a k | target k]; cbn in Hstep; try done.
  destruct a; cbn in Hstep; try done.
  destruct timeout; [|done]. destruct (pool w !! w0) as [th|]; [|done].
  destruct (started th); [|done]. simplify_eq.
  split; [done|]. split; [done|]. apply Hsp.
Qed.

(** What an action of worker [j] does to the lock. *)
Lemma lock_act j {X} (a : Action X) w x w' (Q : X -> bool -> Prop) :
  lock_action a (bool_decide (lock w = Some (Worker j))) Q ->
  act (Worker j) a w = Some (x, w') ->
  Q x (bool_decide (lock w' = Some (Worker j)))
  /\ (forall t, t <> Worker j -> lock w' = Some t <-> lock w = Some t)
  /\ (forall t, lock w' = Some t -> t = Worker j \/ lock w = Some t).
Proof.
  intros Ha Hact.
  destruct a; cbn in Ha, Hact;
    try (simplify_eq; cbn; split; [apply Ha|]; split; [done|by right]).
  - (* acquire *)
    destruct (lock w) eqn:Hl; [done|]. simplify_eq. cbn.
    destruct Ha as [_ Ha]. rewrite bool_decide_eq_true_2 by done.
    split; [done|]. split; [|intros t [= <-]; by left].
    intros t Ht. split; [intros [= <-]; done|done].
  - (* release *)
    simplify_eq. cbn. destruct Ha as [Hheld Ha].
    apply bool_decide_eq_true in Hheld.
    rewrite bool_decide_eq_false_2 by done.
    split; [done|]. split; [|done].
    intros t Ht. split; [done|]. rewrite Hheld. by intros [= <-].
  - (* start *)
    destruct (pool w !! w0) as [th|]; [|simplify_eq; cbn; split; [apply Ha|]; split; [done|by right]].
    destruct (started th); simplify_eq; cbn; (split; [apply Ha|]; split; [done|by right]).
  - (* join *)
    destruct (pool w !! w0) as [th|]; [|simplify_eq; cbn; split; [apply Ha|]; split; [done|by right]].
    destruct (started th); cbn in Hact;
      [|simplify_eq; cbn; split; [apply Ha|]; split; [done|by right]].
    destruct (finished (code th)); simplify_eq; cbn.
    split; [apply Ha|]. split; [done|by right].
Qed.

(** A worker that takes a step: the phase is quiet, its code starts with an
    action a worker may take, and the threads stay as they are. *)
Lemma worker_step_inv ph c j th p' w' :
  protocol ph c ->
  pool (world c) !! j = Some th -> started th = true ->
  step (Worker j) (code th) (world c) = Some (p', w') ->
  exists X (a : Action X) k x,
    code th = Act a k /\ p' = k x
    /\ act (Worker j) a (world c) = Some (x, w')
    /\ pool w' = pool (world c).
Proof.
  unfold protocol. destruct c as [p w]. cbn [main world].
  intros (Hb & Hk & Hth & Hil & Hwp) Hl Hs Hstep.
  assert (Hok : thread_ok (inlib w) j th).
  { destruct ph as [g kn|i|i].
    - destruct Hth as [Hth _]. by destruct (Hth j th Hl) as (_ & Hok & _).
    - exfalso. destruct Hth as (pl' & target & Hpl & Hlen & _ & Hold & _).
      rewrite Hpl in Hl. apply lookup_app_Some in Hl as [Hl|[_ Hl]].
      + destruct (Hold _ _ Hl) as [_ Hf]. by destruct (code th).
      + apply list_lookup_singleton_Some in Hl as [_ <-]. done.
    - exfalso. destruct Hth as (pl' & target & Hpl & Hlen & _ & Hold & _).
      rewrite Hpl in Hl. apply lookup_app_Some in Hl as [Hl|[_ Hl]].
      + destruct (Hold _ _ Hl) as [_ Hf]. by destruct (code th).
      + apply list_lookup_singleton_Some in Hl as [_ <-]. done. }
  unfold thread_ok in Hok.
  destruct (code th) as [a | e | X a k | target k] eqn:Hcode;
    cbn in Hstep, Hok; try done.
  destruct (act (Worker j) a w) as [[x w1]|] eqn:Hact; [|done]. simplify_eq.
  destruct (worker_act j a w x w' _ Hok (proj1 Hil) Hact) as (_ & _ & _ & Hp & _).
  by exists X, a, k, x.
Qed.

Lemma lock_worker_step ph c j th p' w' :
  protocol ph c -> lock_protocol c ->
  pool (world c) !! j = Some th -> started th = true ->
  step (Worker j) (code th) (world c) = Some (p', w') ->
  lock_protocol (put_code (Worker j) p' w' c).
Proof.
  intros Hp (Hholder & Hthreads & Hsp) Hl Hs Hstep.
  destruct (worker_step_inv ph c j th p' w' Hp Hl Hs Hstep)
    as (X & a & k & x & Hcode & -> & Hact & Hpool).
  pose proof (Hthreads j th Hl) as Hj. rewrite Hcode in Hj. cbn in Hj.
  destruct (lock_act j a (world c) x w' _ Hj Hact) as (Hx & Hother & Hnew).
  destruct c as [p w]. unfold lock_protocol. cbn [main world put_code] in *.
  cbn [pool lock with_pool]. rewrite Hpool, length_insert.
  split; [|split; [|done]].
  - intros t Ht. destruct (Hnew t Ht) as [->|Hold].
    + exists j. split; [done|]. by eapply lookup_lt_Some.
    + by apply Hholder.
  - intros j' th' Hl'. destruct (decide (j' = j)) as [->|Hne].
    + rewrite list_lookup_insert_eq in Hl' by (by eapply lookup_lt_Some).
      simplify_eq. done.
    + rewrite list_lookup_insert_ne in Hl' by done.
      rewrite (bool_decide_ext _ (lock w = Some (Worker j')));
        [by apply Hthreads|].
      apply Hother. congruence.
Qed.

Lemma lock_sched ph d c c' :
  protocol ph c -> lock_protocol c -> sched d c = Some c' ->
  lock_protocol c'.
Proof.
  intros H HL Hs. destruct c as [p w]. destruct d as [[|j]|[|j]]; cbn in Hs.
  - destruct (step Main p w) as [[p' w']|] eqn:E; [|done]. cbn in Hs.
    simplify_eq. exact (lock_main_step ph p w p' w' H HL E).
  - destruct (pool w !! j) as [th|] eqn:Hl; [|done].
    destruct (started th) eqn:Hst; [|done]. cbn in Hs.
    destruct (step (Worker j) (code th) w) as [[p' w']|] eqn:E; [|done].
    cbn in Hs. simplify_eq.
    exact (lock_worker_step ph (mkConfig p w) j th p' w' H HL Hl Hst E).
  - destruct (step_expire p w) as [[p' w']|] eqn:E; [|done]. cbn in Hs.
    simplify_eq. exact (lock_main_expire p w p' w' HL E).
  - destruct (pool w !! j) as [th|] eqn:Hl; [|done].
    destruct (started th) eqn:Hst; [|done]. cbn in Hs.
    pose proof (protocol_worker_expire ph (mkConfig p w) j th H Hl Hst) as E.
    cbn [world] in E. rewrite E in Hs. done.
Qed.

Lemma lock_exec ds c c' :
  (exists ph, protocol ph c) -> lock_protocol c -> exec ds c = Some c' ->
  (exists ph, protocol ph c') /\ lock_protocol c'.
Proof.
  revert c. induction ds as [|d ds IH]; intros c H HL He; cbn in He.
  - by simplify_eq.
  - destruct (sched d c) as [c1|] eqn:E; [|done]. cbn in He.
    eapply IH; [| |exact He].
    + by eapply protocol_sched.
    + destruct H as [ph H]. by eapply lock_sched.
Qed.

(** A worker that is alive can take its next step: it never waits for a
    thread, and the lock is free when it wants it. *)
Lemma worker_enabled ph c j th :
  protocol ph c -> lock_protocol c ->
  pool (world c) !! j = Some th -> alive th = true ->
  exists c', sched (Go (Worker j)) c = Some c'.
Proof.
  intros Hp (Hholder & Hthreads & _) Hl Ha.
  destruct (protocol_alive ph c j th Hp Hl Ha) as (Hcur & kn & ->).
  pose proof Ha as Ha'. unfold alive in Ha'.
  apply andb_true_iff in Ha' as [Hs Hf]. apply negb_true_iff in Hf.
  pose proof Hp as (_ & _ & [Hth _] & _).
  destruct (Hth j th Hl) as (_ & Hok & _). unfold thread_ok in Hok.
  pose proof (Hthreads j th Hl) as Hlk.
  cbn. rewrite Hl, Hs. cbn.
  destruct (code th) as [a | e | X a k | target k] eqn:Hcode;
    cbn in Hf, Hok, Hlk; try done.
  cbn.
  assert (Hact : exists x w', act (Worker j) a (world c) = Some (x, w')).
  { destruct a; cbn in Hok, Hlk |- *; try done; try (by eexists _, _).
    destruct (lock (world c)) as [t|] eqn:Hlock; [|by eexists _, _].
    exfalso. destruct Hlk as [Hheld _]. apply bool_decide_eq_false in Hheld.
    destruct (Hholder t eq_refl) as (j' & -> & Hj').
    destruct (lookup_lt_is_Some_2 _ _ Hj') as [th' Hl'].
    pose proof (Hthreads j' th' Hl') as Hlk'.
    rewrite bool_decide_eq_true_2 in Hlk' by done.
    destruct (Hth j' th' Hl') as (Hs' & _).
    assert (Ha2 : alive th' = true).
    { unfold alive. rewrite Hs'. cbn.
      destruct (code th'); cbn in Hlk' |- *; done. }
    destruct (protocol_alive _ c j' th' Hp Hl' Ha2) as (Hcur' & _).
    rewrite Hcur in Hcur'. by simplify_eq. }
  destruct Hact as (x & w' & ->). cbn. by eexists.
Qed.

(** When no worker is alive, a client that has not ended can take its next
    step: the thread it joins has ended. *)
Lemma client_enabled ph c :
  protocol ph c ->
  (forall j th, pool (world c) !! j = Some th -> alive th = false) ->
  finished (main c) = false ->
  exists c', sched (Go Main) c = Some c'.
Proof.
  destruct c as [p w]. intros (Hb & Hk & Hth & Hil & Hwp) Hdead Hf.
  cbn [main world] in *. cbn.
  destruct p as [a | e | X a k | target k]; cbn in Hf, Hwp; try done;
    [|by eexists].
  cbn.
  assert (Hact : exists x w', act Main a w = Some (x, w')).
  { destruct a; cbn in Hwp |- *; try done; try (by eexists _, _).
    - destruct (pool w !! w0) as [th|]; [|by eexists _, _].
      destruct (started th); by eexists _, _.
    - assert (Hph : exists g, ph = Quiet g (Some w0))
        by (destruct timeout; destruct Hwp as (g & -> & _); eauto).
      destruct Hph as [g ->]. cbn in Hk.
      destruct Hth as [Hth Hcur]. specialize (Hcur _ Hk).
      destruct (lookup_lt_is_Some_2 _ _ Hcur) as [th Hl].
      destruct (Hth _ _ Hl) as (Hs & _).
      specialize (Hdead _ _ Hl). unfold alive in Hdead.
      rewrite Hs in Hdead. cbn in Hdead. apply negb_false_iff in Hdead.
      rewrite Hl, Hs, Hdead. cbn. by eexists _, _. }
  destruct Hact as (x & w' & ->). cbn. by eexists.
Qed.

Section DeadlockFree.

Variable PROGRESS : bool.
Variable c_sloth : nat -> option bytes -> Z -> Z -> LibRun SlothOut.
Variable c_sloth_verification :
  nat -> option bytes -> Z -> option bytes -> option bytes -> Z -> Z -> LibRun Z.

Lemma lock_init (cs : list Call) (s : Sloth) :
  lock_protocol
    (mkConfig (script PROGRESS c_sloth c_sloth_verification cs) (init_world s)).
Proof.
  unfold lock_protocol. cbn. split; [done|]. split; [done|].
  apply spawns_script.
Qed.

(** X17: a background object and its client never deadlock.  In every
    state that a client calling [compute], [verify] and [wait] on a fresh
    background object can reach, under any interleaving: a worker that is
    alive can take its next step (it never has to wait for the lock), and
    when no worker is alive the client can take its next step; so some
    thread can always go on, until the client has ended and no worker is
    alive. *)
Theorem background_never_deadlocks
    (cs : list Call) (s : Sloth) (ds : list Decision) (c' : Config) :
  blocking s = false -> _thread s = None ->
  exec ds (mkConfig (script PROGRESS c_sloth c_sloth_verification cs)
                    (init_world s)) = Some c' ->
  (forall j th, pool (world c') !! j = Some th -> alive th = true ->
     exists c'', sched (Go (Worker j)) c' = Some c'')
  /\ ((exists t c'', sched (Go t) c' = Some c'')
      \/ (finished (main c') = true
          /\ forall j th, pool (world c') !! j = Some th -> alive th = false)).
Proof.
  intros Hb Ht He.
  pose proof (protocol_init PROGRESS c_sloth c_sloth_verification cs s Hb Ht)
    as H0.
  destruct (lock_exec ds _ c' (ex_intro (fun ph => protocol ph _) _ H0)
              (lock_init cs s) He) as [[ph Hp] HL].
  split; [intros j th Hl Ha; by eapply worker_enabled|].
  destruct (existsb alive (pool (world c'))) eqn:Hex.
  - left. apply existsb_exists in Hex as (th & Hin & Ha).
    apply list_elem_of_In, list_elem_of_lookup in Hin as [j Hl].
    destruct (worker_enabled ph c' j th Hp HL Hl Ha) as [c'' Hc].
    by exists (Worker j), c''.
  - assert (Hdead : forall j th, pool (world c') !! j = Some th -> alive th = false).
    { intros j th Hl. destruct (alive th) eqn:Ha; [|done].
      assert (existsb alive (pool (world c')) = true); [|congruence].
      apply existsb_exists. exists th. split; [|done].
      apply list_elem_of_In. by eapply list_elem_of_lookup_2. }
    destruct (finished (main c')) eqn:Hf; [by right|].
    left. destruct (client_enabled ph c' Hp Hdead Hf) as [c'' Hc].
    by exists Main, c''.
Qed.

End DeadlockFree.

Lemma background_never_deadlocks_witness :
  blocking (hello_task false) = false /\ _thread (hello_task false) = None
  /\ exists c', exec (go 12 Main ++ go 9 (Worker 0)) compute_twice = Some c'
       /\ sched (Go Main) c' = None
       /\ exists c'', sched (Go (Worker 0)) c' = Some c''.
Proof.
  split; [reflexivity|]. split; [reflexivity|].
  destruct (exec (go 12 Main ++ go 9 (Worker 0)) compute_twice) as [c'|] eqn:E.
  - exists c'. split; [reflexivity|].
    split; [vm_compute in E; injection E as <-; vm_compute; reflexivity|].
    destruct (pool (world c') !! 0%nat) as [th|] eqn:Hl;
      [|vm_compute in E; injection E as <-; vm_compute in Hl; discriminate Hl].
    apply (proj1 (background_never_deadlocks true toy_sloth toy_verification
                    [CallCompute; CallCompute] (hello_task false)
                    (go 12 Main ++ go 9 (Worker 0)) c' eq_refl eq_refl E) 0%nat th Hl).
    vm_compute in E. injection E as <-. vm_compute in Hl. injection Hl as <-.
    reflexivity.
  - vm_compute in E. discriminate E.
Defined.

(** ** One background operation, under every schedule *)

Lemma exec_app ds1 ds2 c : exec (ds1 ++ ds2) c = exec ds1 c ≫= exec ds2.
Proof.
  revert c. induction ds1 as [|d ds1 IH]; intros c; cbn; [done|].
  destruct (sched d c) as [c1|]; cbn; [apply IH|done].
Qed.

Lemma go_S k t : go (S k) t = go k t ++ [Go t].
Proof. unfold go. by rewrite replicate_S_end. Qed.

(** A step does not change where the run of a thread leads. *)
Lemma run_step {A} t (p p' : Prog A) w w' :
  step t p w = Some (p', w') -> run t p' w' = run t p w.
Proof.
  destruct p as [a | e | X a k | target k]; cbn; try done.
  - destruct (act t a w) as [[x w1]|]; [|done]. by intros [= <- <-].
  - by intros [= <- <-].
Qed.

(** The actions of a worker do not look at the threads. *)
Lemma act_with_pool t {X} (a : Action X) inside Q pl w :
  worker_action a inside Q ->
  act t a (with_pool pl w)
  = match act t a w with
    | Some (x, w') => Some (x, with_pool pl w')
    | None => None
    end
  /\ forall x w', act t a w = Some (x, w') -> exists b, Q x b.
Proof.
  intros Ha. destruct a; cbn in Ha |- *; try done;
    try (split; [reflexivity|]; intros x w' [= <- <-]; eexists; apply Ha).
  destruct (lock w); cbn; [done|].
  split; [reflexivity|]. intros x w' [= <- <-]. eexists; apply Ha.
Qed.

Lemma run_with_pool {A} t (p : Prog A) Q inside pl w :
  worker_wp p Q inside ->
  run t p (with_pool pl w)
  = (with_pool pl (fst (run t p w)), snd (run t p w)).
Proof.
  revert Q inside w.
  induction p as [A a | A e | A X a k IH | A target _ k IH];
    intros Q inside w Hp; cbn in Hp |- *; try done.
  destruct (act_with_pool t a inside _ pl w Hp) as [-> Hk].
  destruct (act t a w) as [[x w']|]; [|done].
  destruct (Hk x w' eq_refl) as [b Hb]. by eapply IH.
Qed.

Section Operation.

Variable PROGRESS : bool.
Variable task : Prog unit.
Variable s : Sloth.
Hypothesis s_background : blocking s = false.
Hypothesis s_fresh : _thread s = None.
Hypothesis task_ok : worker_wp task (fun _ b => b = false) false.

Local Abbreviation c0 := (one_operation PROGRESS task s).
Local Abbreviation w1 := (world_at_start PROGRESS task s).

(** Until the worker is started only the client can move, and it has not
    ended. *)
Lemma before_start k c :
  (k < launch_steps PROGRESS)%nat -> exec (go k Main) c0 = Some c ->
  finished (main c) = false
  /\ sched (TimeOut Main) c = None
  /\ forall j, thread_code (Worker j) c = None.
Proof.
  clear task_ok. destruct s as [d b it fh wi v bl th]. cbn in *. subst.
  intros Hk H. unfold one_operation, launch_steps in *.
  destruct PROGRESS;
    do 10 (destruct k as [|k];
           [first [lia
                  | vm_compute in H; injection H as <-;
                    split; [reflexivity|]; split; [reflexivity|];
                    intros [|[|j]]; reflexivity]|]);
    lia.
Qed.

Lemma at_start :
  exec (go (launch_steps PROGRESS) Main) c0 = Some (mkConfig about_to_wait w1).
Proof.
  clear task_ok. destruct s as [d b it fh wi v bl th]. cbn in *. subst.
  unfold one_operation, launch_steps, world_at_start.
  destruct PROGRESS; reflexivity.
Qed.

Lemma op_protocol : protocol (Quiet true None) c0.
Proof.
  unfold protocol, one_operation. cbn [main world init_world self pool inlib].
  refine (conj _ (conj _ (conj _ (conj _ _)))); try done.
  - split; [done|]. intros i Hi. congruence.
  - split; [constructor|]. intros t Hin. by apply elem_of_nil in Hin.
  - unfold mbind, Prog_bind. apply client_wp_bind, client_wp__run; [done|].
    intros g kn. unfold about_to_wait, mbind, Prog_bind.
    apply client_wp_bind, client_wp_wait. done.
Qed.

(** A step of a worker leaves the threads and [_thread] alone, and what
    is left of its code is again a worker's code. *)
Lemma worker_step_frame ph c j th p' w' :
  protocol ph c ->
  pool (world c) !! j = Some th -> started th = true ->
  step (Worker j) (code th) (world c) = Some (p', w') ->
  pool w' = pool (world c)
  /\ _thread (self w') = _thread (self (world c))
  /\ worker_wp p' (fun _ b => b = false) (bool_decide (Worker j ∈ inlib w')).
Proof.
  intros Hp Hl Hs Hstep.
  destruct (worker_step_inv ph c j th p' w' Hp Hl Hs Hstep)
    as (X & a & k & x & Hcode & -> & Hact & Hpool).
  pose proof (protocol_worker_step ph c j th (k x) w' Hp Hl Hs Hstep)
    as (_ & _ & Hth' & _).
  destruct Hp as (_ & _ & Hth & Hil & _).
  assert (Hok : thread_ok (inlib (world c)) j th).
  { destruct ph as [g kn|i|i]; [by destruct Hth as [Hth _]; destruct (Hth j th Hl) as (_ & ? & _)| |];
      exfalso; destruct Hth as (pl' & target & Hpl & Hlen & _ & Hold & _);
      rewrite Hpl in Hl; apply lookup_app_Some in Hl as [Hl|[_ Hl]];
      try (destruct (Hold _ _ Hl) as [_ Hf]; rewrite Hcode in Hf; done);
      apply list_lookup_singleton_Some in Hl as [_ <-]; done. }
  unfold thread_ok in Hok. rewrite Hcode in Hok. cbn in Hok.
  destruct (worker_act j a (world c) x w' _ Hok (proj1 Hil) Hact)
    as (Hx & _ & Ht & _).
  done.
Qed.

Lemma op_sched d c c' :
  (exists ph, protocol ph c) -> op_inv PROGRESS task s c ->
  sched d c = Some c' -> op_inv PROGRESS task s c'.
Proof.
  intros [ph Hp] [(k & Hk & Hc) | (q & Hpool & Hthr & Hm & Hsnd & Hfst)] Hs.
  - (* before the worker is started *)
    destruct (before_start k c Hk Hc) as (_ & Hexp & Hnone).
    destruct d as [[|j]|[|j]].
    + assert (Hc' : exec (go (S k) Main) c0 = Some c').
      { rewrite go_S, exec_app, Hc. change (exec [Go Main] c = Some c').
        cbn [exec]. rewrite Hs. reflexivity. }
      destruct (decide (S k < launch_steps PROGRESS)%nat) as [Hlt|Hge].
      * left. by exists (S k).
      * right. assert (S k = launch_steps PROGRESS) as Hk' by lia.
        rewrite Hk', at_start in Hc'. injection Hc' as <-.
        exists (wrapped_task PROGRESS task). cbn [main world].
        split; [unfold world_at_start; cbn; by rewrite open_bar_pool|].
        split; [unfold world_at_start; cbn; by rewrite open_bar_pool|].
        split; [by left|].
        split; [reflexivity|].
        pose proof (run_with_pool (Worker 0) (wrapped_task PROGRESS task) _ _
                      (pool w1) w1
                      (worker_ok_wrapped_task PROGRESS task task_ok)) as H.
        change (with_pool (pool w1) w1) with w1 in H.
        unfold worker_alone. rewrite H at 2. reflexivity.
    + unfold sched in Hs. rewrite Hnone in Hs. done.
    + congruence.
    + unfold sched in Hs. rewrite Hnone in Hs. done.
  - (* the worker is started *)
    destruct c as [p w]. cbn [main world] in *.
    destruct d as [[|j]|[|j]]; cbn in Hs.
    + destruct Hm as [-> | [-> | [-> _]]]; cbn in Hs; [| |done].
      * rewrite Hthr in Hs. cbn in Hs. simplify_eq. right.
        exists q. cbn [main world]. repeat split; try done. right. by left.
      * rewrite Hpool in Hs. cbn in Hs.
        destruct (finished q) eqn:Hf; [|done]. cbn in Hs. simplify_eq. right.
        exists q. cbn [main world]. repeat split; try done. right. by right.
    + rewrite Hpool in Hs. destruct j as [|j]; [|done]. cbn in Hs.
      destruct (step (Worker 0) q w) as [[q' w']|] eqn:E; [|done].
      cbn in Hs. simplify_eq.
      destruct (worker_step_frame ph (mkConfig p w) 0 (mkThread true q) q' w' Hp)
        as (Hp' & Ht' & Hok'); [cbn; by rewrite Hpool|done|exact E|].
      cbn [world] in Hp', Ht'. right. exists q'. cbn [main world].
      rewrite Hp', Hpool. cbn [pool with_pool self].
      split; [reflexivity|]. split; [congruence|]. split.
      { destruct Hm as [-> | [-> | [_ Hf]]]; [by left|right; by left|].
        destruct q; cbn in E, Hf; done. }
      erewrite run_with_pool by exact Hok'. cbn [fst snd].
      rewrite (run_step _ _ _ _ _ E). split; [done|].
      rewrite <- Hfst. reflexivity.
    + destruct Hm as [-> | [-> | [-> _]]]; cbn in Hs; done.
    + rewrite Hpool in Hs. destruct j as [|j]; [|done]. cbn in Hs.
      pose proof (protocol_worker_expire ph (mkConfig p w) 0 (mkThread true q) Hp)
        as E.
      cbn [world code] in E. rewrite E in Hs; [done|by rewrite Hpool|done].
Qed.

Lemma op_exec ds c c' :
  (exists ph, protocol ph c) -> op_inv PROGRESS task s c ->
  exec ds c = Some c' -> op_inv PROGRESS task s c'.
Proof.
  revert c. induction ds as [|d ds IH]; intros c Hp Hi He; cbn in He.
  - by simplify_eq.
  - destruct (sched d c) as [c1|] eqn:E; [|done]. cbn in He.
    eapply IH; [| |exact He].
    + by eapply protocol_sched.
    + by eapply op_sched.
Qed.

(** Where the operation ends, whatever the schedule. *)
Lemma op_ended ds c' :
  exec ds c0 = Some c' -> finished (main c') = true ->
  with_pool (pool w1) (world c') = fst (worker_alone PROGRESS task s)
  /\ exists q, pool (world c') = [mkThread true q]
       /\ match snd (worker_alone PROGRESS task s) with
          | Done _ => q = Ret tt
          | Failed e => q = Raise e
          | Blocked _ => False
          end.
Proof.
  intros He Hf.
  assert (Hi : op_inv PROGRESS task s c').
  { eapply op_exec; [| |exact He].
    - exists (Quiet true None). apply op_protocol.
    - left. exists 0%nat. split; [unfold launch_steps; destruct PROGRESS; lia|done]. }
  destruct Hi as [(k & Hk & Hc) | (q & Hpool & Hthr & Hm & Hsnd & Hfst)].
  - destruct (before_start k c' Hk Hc) as (Hnf & _). congruence.
  - destruct Hm as [Hm | [Hm | [Hm Hq]]];
      [rewrite Hm in Hf; done | rewrite Hm in Hf; done |].
    destruct q as [[] | e | |]; cbn in Hq; try done;
      cbn [run fst snd] in Hsnd, Hfst; rewrite <- Hsnd;
      (split; [exact Hfst|]); eexists; (split; [exact Hpool|reflexivity]).
Qed.

End Operation.

Section OperationResult.

Variable PROGRESS : bool.
Variable c_sloth : nat -> option bytes -> Z -> Z -> LibRun SlothOut.
Variable c_sloth_verification :
  nat -> option bytes -> Z -> option bytes -> option bytes -> Z -> Z -> LibRun Z.

Local Abbreviation script' := (script PROGRESS c_sloth c_sloth_verification).

(** X18: one background operation ends in the same state under every
    schedule.  A client calls [compute()] ([c = true]) or [verify()] on a
    fresh background object and then [wait()].  However its steps and the
    worker's are interleaved, when the client has ended the world is, the
    thread objects apart, the one the worker's run leads to when it runs
    alone from the moment it was started; and the worker has ended the way
    that run ends. *)
Theorem background_operation_any_schedule
    (c : bool) (s : Sloth) (ds : list Decision) (c' : Config) :
  blocking s = false -> _thread s = None ->
  exec ds (mkConfig (script' [if c then CallCompute else CallVerify; CallWait None])
                    (init_world s)) = Some c' ->
  finished (main c') = true ->
  let task := if c then compute_task PROGRESS c_sloth
              else verify_task PROGRESS c_sloth_verification in
  let w1 := launch (wrapped_task PROGRESS task) (open_bar PROGRESS (init_world s)) in
  let r := run (Worker 0) (wrapped_task PROGRESS task) w1 in
  with_pool (pool w1) (world c') = fst r
  /\ exists q, pool (world c') = [mkThread true q]
       /\ match snd r with
          | Done _ => q = Ret tt
          | Failed e => q = Raise e
          | Blocked _ => False
          end.
Proof.
  intros Hb Ht He Hf. cbv zeta. destruct c.
  - exact (op_ended PROGRESS (compute_task PROGRESS c_sloth) s Hb Ht
             (worker_ok_compute_task PROGRESS c_sloth) ds c' He Hf).
  - exact (op_ended PROGRESS (verify_task PROGRESS c_sloth_verification) s Hb Ht
             (worker_ok_verify_task PROGRESS c_sloth_verification) ds c' He Hf).
Qed.

(** X19: [compute()] then [wait()] in background mode, under every
    schedule, for a bit width the division by 8 is exact for.  When the
    client has ended: if the width is so negative that there is no witness
    buffer, the library was never called and the object holds its old
    witness and digest; otherwise the library was called exactly once, and
    the object holds the witness and the digest of that call if it returned,
    its old ones if it raised.  In every case [valid] is untouched, the
    lock is free and nobody is inside the library. *)
Theorem background_compute_publishes
    (s : Sloth) (ds : list Decision) (c' : Config) :
  blocking s = false -> _thread s = None -> Z.abs (bits s) < 2 ^ 53 ->
  exec ds (mkConfig (script' [CallCompute; CallWait None]) (init_world s))
  = Some c' ->
  finished (main c') = true ->
  (if int_div8 (bits s) <? 0
   then witness (self (world c')) = witness s
        /\ final_hash (self (world c')) = final_hash s
        /\ ncalls (world c') = 0%nat
   else match result (c_sloth 0 (_data s) (bits s) (iterations s)) with
        | Returned o =>
            witness (self (world c')) = Some (published_witness (bits s) o)
            /\ final_hash (self (world c')) = Some (published_digest o)
        | Raised e =>
            witness (self (world c')) = witness s
            /\ final_hash (self (world c')) = final_hash s
        end
        /\ ncalls (world c') = 1%nat)
  /\ valid (self (world c')) = valid s
  /\ lock (world c') = None /\ inlib (world c') = [].
Proof.
  intros Hb Ht _ He Hf.
  destruct (op_ended PROGRESS (compute_task PROGRESS c_sloth) s Hb Ht
              (worker_ok_compute_task PROGRESS c_sloth) ds c' He Hf)
    as [Hw _]. unfold worker_alone, world_at_start in Hw.
  assert (Hs : forall {X} (f : World -> X),
            (forall pl w, f (with_pool pl w) = f w) ->
            f (world c') = f (fst (run (Worker 0)
              (wrapped_task PROGRESS (compute_task PROGRESS c_sloth))
              (launch (wrapped_task PROGRESS (compute_task PROGRESS c_sloth))
                 (open_bar PROGRESS (init_world s)))))).
  { intros X f Hf'. rewrite <- Hw. symmetry. apply Hf'. }
  rewrite (Hs _ (fun w => witness (self w))), (Hs _ (fun w => final_hash (self w))),
    (Hs _ (fun w => valid (self w))), (Hs _ lock), (Hs _ inlib), (Hs _ ncalls)
    by done.
  rewrite run_wrapped_task.
  destruct (Z.ltb_spec (int_div8 (bits s)) 0) as [Hq|Hq].
  - rewrite run_compute_task_no_buffer
      by (cbn; autorewrite with world; done).
    cbn. autorewrite with world. done.
  - rewrite run_compute_task by (cbn; autorewrite with world; done).
    unfold sloth_run. cbn [launch self ncalls set_thread _data bits iterations].
    autorewrite with world. cbn [init_world self ncalls].
    destruct (result _) as [o|e]; [|by cbn; autorewrite with world].
    destruct PROGRESS; cbn; done.
Qed.

(** X20: [verify()] then [wait()] in background mode, under every
    schedule.  When the client has ended, [valid] is [True] or [False] as
    the one library call returned 1 or another code; it is left as it was if
    the call raised or if there was no witness (nothing is raised to the
    client then); witness and digest are untouched. *)
Theorem background_verify_sets_valid
    (s : Sloth) (ds : list Decision) (c' : Config) :
  blocking s = false -> _thread s = None ->
  exec ds (mkConfig (script' [CallVerify; CallWait None]) (init_world s))
  = Some c' ->
  finished (main c') = true ->
  valid (self (world c'))
  = match witness s with
    | None => valid s
    | Some wb =>
        match result (c_sloth_verification 0 (Some wb) (Z.of_nat (length wb))
                        (final_hash s) (_data s) (bits s) (iterations s)) with
        | Returned v => Some (v =? 1)
        | Raised _ => valid s
        end
    end
  /\ witness (self (world c')) = witness s
  /\ final_hash (self (world c')) = final_hash s
  /\ lock (world c') = None /\ inlib (world c') = [].
Proof.
  intros Hb Ht He Hf.
  destruct (op_ended PROGRESS (verify_task PROGRESS c_sloth_verification) s
              Hb Ht (worker_ok_verify_task PROGRESS c_sloth_verification)
              ds c' He Hf)
    as [Hw _]. unfold worker_alone, world_at_start in Hw.
  assert (Hs : forall {X} (f : World -> X),
            (forall pl w, f (with_pool pl w) = f w) ->
            f (world c') = f (fst (run (Worker 0)
              (wrapped_task PROGRESS (verify_task PROGRESS c_sloth_verification))
              (launch (wrapped_task PROGRESS (verify_task PROGRESS c_sloth_verification))
                 (open_bar PROGRESS (init_world s)))))).
  { intros X f Hf'. rewrite <- Hw. symmetry. apply Hf'. }
  rewrite (Hs _ (fun w => witness (self w))), (Hs _ (fun w => final_hash (self w))),
    (Hs _ (fun w => valid (self w))), (Hs _ lock), (Hs _ inlib)
    by done.
  rewrite run_wrapped_task.
  destruct (witness s) as [wb|] eqn:Hwit.
  - rewrite run_verify_task
      by (cbn; autorewrite with world; cbn; done || congruence).
    unfold verification_run.
    cbn [launch self ncalls set_thread _data bits iterations witness final_hash].
    autorewrite with world. cbn [init_world self ncalls]. rewrite Hwit.
    cbn [default].
    destruct (result _) as [v|e]; [|by cbn; autorewrite with world].
    destruct PROGRESS; cbn; rewrite ?Hwit; done.
  - rewrite run_verify_task_unset by (cbn; autorewrite with world; done).
    cbn. autorewrite with world. cbn. by rewrite Hwit.
Qed.

End OperationResult.

Lemma background_operation_any_schedule_witness :
  blocking (hello_task false) = false /\ _thread (hello_task false) = None
  /\ exists c', exec (interleaved 5 9) hello_compute_then_wait = Some c'
       /\ finished (main c') = true
       /\ with_pool
            (pool (launch (wrapped_task true (compute_task true toy_sloth))
                     (open_bar true (init_world (hello_task false)))))
            (world c')
          = fst (run (Worker 0) (wrapped_task true (compute_task true toy_sloth))
                   (launch (wrapped_task true (compute_task true toy_sloth))
                      (open_bar true (init_world (hello_task false))))).
Proof.
  split; [reflexivity|]. split; [reflexivity|].
  destruct (exec (interleaved 5 9) hello_compute_then_wait) as [c'|] eqn:E;
    [|vm_compute in E; discriminate E].
  assert (Hfin : finished (main c') = true).
  { pose proof E as E'. vm_compute in E'. injection E' as <-. reflexivity. }
  exists c'. split; [reflexivity|]. split; [exact Hfin|].
  exact (proj1 (background_operation_any_schedule true toy_sloth toy_verification
                  true (hello_task false) (interleaved 5 9) c'
                  eq_refl eq_refl E Hfin)).
Defined.

Lemma background_compute_publishes_witness :
  blocking (hello_task false) = false /\ _thread (hello_task false) = None
  /\ exists c', exec (interleaved 5 9) hello_compute_then_wait = Some c'
       /\ finished (main c') = true
       /\ (witness (self (world c')) = Some (published_witness 1024 hello_out)
           /\ final_hash (self (world c')) = Some (published_digest hello_out))
       /\ ncalls (world c') = 1%nat.
Proof.
  split; [reflexivity|]. split; [reflexivity|].
  destruct (exec (interleaved 5 9) hello_compute_then_wait) as [c'|] eqn:E;
    [|vm_compute in E; discriminate E].
  assert (Hfin : finished (main c') = true).
  { pose proof E as E'. vm_compute in E'. injection E' as <-. reflexivity. }
  exists c'. split; [reflexivity|]. split; [exact Hfin|].
  exact (proj1 (background_compute_publishes true toy_sloth toy_verification
                  (hello_task false) (interleaved 5 9) c'
                  eq_refl eq_refl ltac:(reflexivity) E Hfin)).
Defined.

Lemma background_verify_sets_valid_witness :
  blocking (hello_proof false) = false /\ _thread (hello_proof false) = None
  /\ exists c', exec (interleaved 3 13) hello_verify_then_wait = Some c'
       /\ finished (main c') = true
       /\ valid (self (world c')) = Some true.
Proof.
  split; [reflexivity|]. split; [reflexivity|].
  destruct (exec (interleaved 3 13) hello_verify_then_wait) as [c'|] eqn:E;
    [|vm_compute in E; discriminate E].
  assert (Hfin : finished (main c') = true).
  { pose proof E as E'. vm_compute in E'. injection E' as <-. reflexivity. }
  exists c'. split; [reflexivity|]. split; [exact Hfin|].
  exact (proj1 (background_verify_sets_valid true toy_sloth toy_verification
                  (hello_proof false) (interleaved 3 13) c'
                  eq_refl eq_refl E Hfin)).
Defined.

(** ** Which bar is closed *)

Section BarClaim.

Variable c_sloth : nat -> option bytes -> Z -> Z -> LibRun SlothOut.
Variable c_sloth_verification :
  nat -> option bytes -> Z -> option bytes -> option bytes -> Z -> Z -> LibRun Z.

Local Abbreviation script' := (script true c_sloth c_sloth_verification).


End BarClaim.


(** Two objects, one module global: the worker of the first object was
    started with its own bar 0; the [_run] of a second object creates bar 1
    and rebinds the global; the worker of the first then closes bar 1, and
    bar 0 stays open. *)
Example worker_closes_the_other_bar :
  bar_closed <$>
    bars (fst (run (Worker 0) (wrapped_task true (compute_task true toy_sloth))
                 (rebound 7
                    (launch (wrapped_task true (compute_task true toy_sloth))
                       (open_bar true (init_world (hello_task false))))))) 
  = [0%nat; 1%nat].
Proof. vm_compute. reflexivity. Qed.

(** ** Two background operations in a row, under every schedule *)

Lemma _run_launching PROGRESS task :
  _run PROGRESS task
  = (bl ← perform (GetAttr blocking);
     (if negb bl then wait None else Ret tt);;
     launching PROGRESS task).
Proof. reflexivity. Qed.

(** A client that waits has not ended, and cannot give up. *)
Lemma waits_for_unfinished j after p :
  waits_for j after p -> finished p = false /\ forall w, step_expire p w = None.
Proof.
  destruct p as [a | e | X a k | target k]; cbn; try done.
  intros H. split; [done|]. intros w.
  destruct a; cbn in H |- *; try done. by destruct timeout.
Qed.

Section SegmentSteps.

Variable pl : list Thread.
Variable after : Prog unit.
Variable alone : World * Result unit.
Hypothesis pl_ended : forall i th, pl !! i = Some th -> finished (code th) = true.

(** Every step of the client or of the worker, while the client waits:
    the worker goes on towards the end of its undisturbed run, or the
    client has joined it. *)
Lemma seg_sched d c c' :
  (exists ph, protocol ph c) -> seg_running pl after alone c ->
  sched d c = Some c' ->
  seg_running pl after alone c' \/ seg_ended pl after alone c'.
Proof.
  intros [ph Hp] (q & Hpool & Hthr & Hm & Hsnd & Hfst) Hs.
  destruct c as [p w]. cbn [main world] in *.
  destruct d as [[|i]|[|i]]; cbn in Hs.
  - (* the client *)
    destruct p as [a | e | X a k | target k]; cbn in Hm; try done.
    destruct a; cbn in Hm, Hs; try done.
    + injection Hs as <-. left. exists q. cbn [main world].
      split; [done|]. split; [done|]. split; [|done].
      apply Hm; [apply Hp|done].
    + destruct timeout; [done|]. destruct Hm as [-> Hk].
      rewrite Hpool, lookup_snoc in Hs. cbn in Hs.
      destruct (finished q) eqn:Hf; [|done]. cbn in Hs.
      injection Hs as <-. right.
      exists q. cbn [main world].
      split; [done|]. split; [done|]. split; [done|].
      destruct q as [[] | e | |]; cbn in Hf; try done;
        cbn [run fst snd] in Hsnd, Hfst; rewrite <- Hsnd; done.
  - (* a worker *)
    rewrite Hpool in Hs.
    destruct (lt_eq_lt_dec i (length pl)) as [[Hlt | ->] | Hgt].
    + rewrite lookup_app_l in Hs by done.
      destruct (pl !! i) as [th|] eqn:E; [|done]. cbn in Hs.
      pose proof (pl_ended i th E) as Hf.
      destruct (started th); [|done]. cbn in Hs.
      destruct (code th); cbn in Hf, Hs; done.
    + rewrite lookup_snoc in Hs. cbn in Hs.
      destruct (step (Worker (length pl)) q w) as [[q' w']|] eqn:E; [|done].
      cbn in Hs. injection Hs as <-.
      destruct (worker_step_frame ph (mkConfig p w) (length pl)
                  (mkThread true q) q' w' Hp)
        as (Hp' & Ht' & Hok'); [cbn; by rewrite Hpool, lookup_snoc|done|exact E|].
      cbn [world] in Hp', Ht'. left. exists q'. cbn [main world].
      rewrite Hp', Hpool, insert_snoc. cbn [pool with_pool self].
      split; [reflexivity|]. split; [congruence|]. split; [done|].
      erewrite run_with_pool by exact Hok'. cbn [fst snd].
      rewrite (run_step _ _ _ _ _ E). split; [done|].
      rewrite <- Hfst. reflexivity.
    + rewrite lookup_ge_None_2 in Hs; [done|].
      rewrite length_app. cbn. lia.
  - (* the client gives up: it has no timeout *)
    destruct (waits_for_unfinished _ _ _ Hm) as [_ He].
    rewrite He in Hs. done.
  - (* a worker gives up: it never waits *)
    destruct (pool w !! i) as [th|] eqn:Hl; [|done].
    destruct (started th) eqn:Hst; [|done]. cbn in Hs.
    pose proof (protocol_worker_expire ph (mkConfig p w) i th Hp Hl Hst) as E.
    cbn [world] in E. rewrite E in Hs. done.
Qed.

(** When the last worker has ended and the client too, nothing moves. *)
Lemma seg_ended_stuck d c :
  after = Ret tt -> seg_ended pl after alone c -> sched d c = None.
Proof.
  intros -> (q & Hpool & _ & Hm & _ & Hq).
  assert (Hf : finished q = true) by (destruct (snd alone); by subst).
  destruct c as [p w]. cbn [main world] in *. subst p.
  assert (Hw : forall i th, pool w !! i = Some th -> finished (code th) = true).
  { intros i th. rewrite Hpool. intros [Hl | [_ Hl]]%lookup_app_Some.
    - by eapply pl_ended.
    - by apply list_lookup_singleton_Some in Hl as [_ <-]. }
  destruct d as [[|i]|[|i]]; cbn; try done.
  - destruct (pool w !! i) as [th|] eqn:Hl; [|done]. cbn.
    specialize (Hw i th Hl). destruct (started th); [|done]. cbn.
    by destruct (code th).
  - destruct (pool w !! i) as [th|] eqn:Hl; [|done]. cbn.
    specialize (Hw i th Hl). destruct (started th); [|done]. cbn.
    by destruct (code th).
Qed.

End SegmentSteps.

Section Chain.

Variable PROGRESS : bool.
Variable task1 task2 : Prog unit.
Variable s : Sloth.
Hypothesis s_background : blocking s = false.
Hypothesis s_fresh : _thread s = None.
Hypothesis task1_ok : worker_wp task1 (fun _ b => b = false) false.
Hypothesis task2_ok : worker_wp task2 (fun _ b => b = false) false.

Local Abbreviation c0 := (two_operations PROGRESS task1 task2 s).
Local Abbreviation after1 := (launching PROGRESS task2;; about_to_wait).

(** Until the first worker is started only the client can move. *)
Lemma chain_before_start k c :
  (k < launch_steps PROGRESS)%nat -> exec (go k Main) c0 = Some c ->
  finished (main c) = false
  /\ sched (TimeOut Main) c = None
  /\ forall j, thread_code (Worker j) c = None.
Proof.
  clear task1_ok task2_ok. destruct s as [d b it fh wi v bl th]. cbn in *. subst.
  intros Hk H. unfold two_operations, launch_steps in *.
  destruct PROGRESS;
    do 10 (destruct k as [|k];
           [first [lia
                  | vm_compute in H; injection H as <-;
                    split; [reflexivity|]; split; [reflexivity|];
                    intros [|[|j]]; reflexivity]|]);
    lia.
Qed.

Lemma chain_at_start :
  exec (go (launch_steps PROGRESS) Main) c0
  = Some (mkConfig (_run PROGRESS task2;; about_to_wait)
            (world_at_start PROGRESS task1 s)).
Proof.
  clear task1_ok task2_ok. destruct s as [d b it fh wi v bl th]. cbn in *. subst.
  unfold two_operations, launch_steps, world_at_start.
  destruct PROGRESS; reflexivity.
Qed.

(** The second operation begins by waiting for the first worker; the
    [wait()] at the end waits for the second. *)
Lemma waits_first : waits_for 0 after1 (_run PROGRESS task2;; about_to_wait).
Proof.
  cbn. intros s1 Hb _. rewrite Hb. cbn. intros s2 _ Ht. rewrite Ht. cbn.
  split; reflexivity.
Qed.

Lemma waits_second : waits_for 1 (Ret tt) about_to_wait.
Proof. cbn. intros s1 _ Ht. rewrite Ht. cbn. split; reflexivity. Qed.

(** While the second operation is set up only the client can move. *)
Lemma chain_before_restart q w k c :
  finished q = true -> pool w = [mkThread true q] ->
  _thread (self w) = Some 0%nat -> blocking (self w) = false ->
  (k < relaunch_steps PROGRESS)%nat ->
  exec (go k Main) (mkConfig after1 w) = Some c ->
  finished (main c) = false
  /\ sched (TimeOut Main) c = None
  /\ (forall j, sched (Go (Worker j)) c = None)
  /\ (forall j, sched (TimeOut (Worker j)) c = None).
Proof.
  clear. destruct w as [s1 pb bs l pl n il lg].
  destruct s1 as [d b it fh wi v bl th]. cbn. intros Hf -> -> -> Hk H.
  unfold relaunch_steps in *.
  destruct q as [[] | e | |]; try done;
    destruct PROGRESS;
    do 8 (destruct k as [|k];
          [first [lia
                 | vm_compute in H; injection H as <-;
                   split; [reflexivity|]; split; [reflexivity|];
                   split; intros [|[|j]]; reflexivity]|]);
    lia.
Qed.

Lemma chain_at_restart q w :
  finished q = true -> pool w = [mkThread true q] ->
  _thread (self w) = Some 0%nat -> blocking (self w) = false ->
  exec (go (relaunch_steps PROGRESS) Main) (mkConfig after1 w)
  = Some (mkConfig about_to_wait (second_start PROGRESS task2 w)).
Proof.
  clear. destruct w as [s1 pb bs l pl n il lg].
  destruct s1 as [d b it fh wi v bl th]. cbn. intros Hf -> -> ->.
  unfold relaunch_steps, second_start.
  destruct PROGRESS; reflexivity.
Qed.

Lemma chain_protocol : protocol (Quiet true None) c0.
Proof.
  unfold protocol, two_operations. cbn [main world init_world self pool inlib].
  refine (conj _ (conj _ (conj _ (conj _ _)))); try done.
  - split; [done|]. intros i Hi. congruence.
  - split; [constructor|]. intros t Hin. by apply elem_of_nil in Hin.
  - unfold mbind, Prog_bind. apply client_wp_bind, client_wp__run; [done|].
    intros g kn. apply client_wp_bind, client_wp__run; [done|].
    intros g' kn'. unfold about_to_wait, mbind, Prog_bind.
    apply client_wp_bind, client_wp_wait. done.
Qed.

Lemma chain_sched d c c' :
  (exists ph, protocol ph c) -> chain_inv PROGRESS task1 task2 s c ->
  sched d c = Some c' -> chain_inv PROGRESS task1 task2 s c'.
Proof.
  intros Hp
    [(k & Hk & Hc)
    | [Hrun | (q & w & Hbt & [(k & Hk & Hc) | [Hrun | Hend]])]] Hs.
  - (* before the first worker is started *)
    destruct (chain_before_start k c Hk Hc) as (_ & Hexp & Hnone).
    destruct d as [[|j]|[|j]].
    + assert (Hc' : exec (go (S k) Main) c0 = Some c').
      { rewrite go_S, exec_app, Hc. change (exec [Go Main] c = Some c').
        cbn [exec]. rewrite Hs. reflexivity. }
      destruct (decide (S k < launch_steps PROGRESS)%nat) as [Hlt|Hge].
      * left. by exists (S k).
      * right. left. assert (S k = launch_steps PROGRESS) as Hk' by lia.
        rewrite Hk', chain_at_start in Hc'. injection Hc' as <-.
        exists (wrapped_task PROGRESS task1). cbn [main world length app].
        split; [unfold world_at_start; cbn; by rewrite open_bar_pool|].
        split; [unfold world_at_start; cbn; by rewrite open_bar_pool|].
        split; [apply waits_first|].
        split; reflexivity.
    + unfold sched in Hs. rewrite Hnone in Hs. done.
    + congruence.
    + unfold sched in Hs. rewrite Hnone in Hs. done.
  - (* the first worker runs *)
    assert (Hb' : blocking (self (world c')) = false).
    { destruct (protocol_sched d c c' Hp Hs) as [ph' H']. apply H'. }
    destruct (seg_sched [] _ _ ltac:(intros i th Hl; by rewrite lookup_nil in Hl)
                d c c' Hp Hrun Hs) as [H|H].
    + right. by left.
    + right. right. destruct H as (q & Hpool & Hthr & Hm & Hw & Hq).
      exists q, (world c'). split.
      * unfold between. refine (conj _ (conj _ (conj _ (conj _ _)))); try done.
        destruct (snd (worker_alone PROGRESS task1 s)); by subst.
      * left. exists 0%nat. split; [unfold relaunch_steps; destruct PROGRESS; lia|].
        destruct c' as [p' w']. cbn in Hm |- *. by subst.
  - (* the second operation is set up *)
    destruct Hbt as (Hf & Hpool & Hthr & Hbl & Hw).
    destruct (chain_before_restart q w k c Hf Hpool Hthr Hbl Hk Hc)
      as (_ & Hexp & Hgo & Hto).
    destruct d as [[|j]|[|j]].
    + assert (Hc' : exec (go (S k) Main) (mkConfig after1 w) = Some c').
      { rewrite go_S, exec_app, Hc. change (exec [Go Main] c = Some c').
        cbn [exec]. rewrite Hs. reflexivity. }
      right. right. exists q, w. split; [done|].
      destruct (decide (S k < relaunch_steps PROGRESS)%nat) as [Hlt|Hge].
      * left. by exists (S k).
      * right. left. assert (S k = relaunch_steps PROGRESS) as Hk' by lia.
        rewrite Hk', (chain_at_restart q w Hf Hpool Hthr Hbl) in Hc'.
        injection Hc' as <-.
        exists (wrapped_task PROGRESS task2). cbn [main world length].
        split; [unfold second_start; cbn; by rewrite open_bar_pool, Hpool|].
        split; [unfold second_start; cbn; by rewrite open_bar_pool, Hpool|].
        split; [apply waits_second|].
        split; reflexivity.
    + rewrite Hgo in Hs. done.
    + congruence.
    + rewrite Hto in Hs. done.
  - (* the second worker runs *)
    assert (Hpl : forall i th, [mkThread true q] !! i = Some th ->
                               finished (code th) = true).
    { intros i th Hl. apply list_lookup_singleton_Some in Hl as [_ <-].
      apply Hbt. }
    right. right. exists q, w. split; [done|]. right.
    exact (seg_sched _ _ _ Hpl d c c' Hp Hrun Hs).
  - (* both have ended *)
    assert (Hpl : forall i th, [mkThread true q] !! i = Some th ->
                               finished (code th) = true).
    { intros i th Hl. apply list_lookup_singleton_Some in Hl as [_ <-].
      apply Hbt. }
    rewrite (seg_ended_stuck _ _ _ Hpl d c eq_refl Hend) in Hs. done.
Qed.

Lemma chain_exec ds c c' :
  (exists ph, protocol ph c) -> chain_inv PROGRESS task1 task2 s c ->
  exec ds c = Some c' -> chain_inv PROGRESS task1 task2 s c'.
Proof.
  revert c. induction ds as [|d ds IH]; intros c Hp Hi He; cbn in He.
  - by simplify_eq.
  - destruct (sched d c) as [c1|] eqn:E; [|done]. cbn in He.
    eapply IH; [| |exact He].
    + by eapply protocol_sched.
    + by eapply chain_sched.
Qed.

(** Where the two operations end, whatever the schedule: the second
    worker has ended, in the world of its undisturbed run from the world the
    undisturbed run of the first worker left. *)
Lemma chain_ended ds c' :
  exec ds c0 = Some c' -> finished (main c') = true ->
  exists q w,
    between PROGRESS task1 s q w
    /\ seg_ended [mkThread true q] (Ret tt) (second_alone PROGRESS task2 w) c'.
Proof.
  intros He Hf.
  assert (Hi : chain_inv PROGRESS task1 task2 s c').
  { eapply chain_exec; [| |exact He].
    - exists (Quiet true None). apply chain_protocol.
    - left. exists 0%nat.
      split; [unfold launch_steps; destruct PROGRESS; lia|done]. }
  destruct Hi as
    [(k & Hk & Hc)
    | [Hrun | (q & w & Hbt & [(k & Hk & Hc) | [Hrun | Hend]])]].
  - destruct (chain_before_start k c' Hk Hc) as (Hnf & _). congruence.
  - destruct Hrun as (q & _ & _ & Hm & _).
    destruct (waits_for_unfinished _ _ _ Hm) as [Hnf _]. congruence.
  - destruct Hbt as (Hfq & Hpool & Hthr & Hbl & Hw).
    destruct (chain_before_restart q w k c' Hfq Hpool Hthr Hbl Hk Hc)
      as (Hnf & _). congruence.
  - destruct Hrun as (q' & _ & _ & Hm & _).
    destruct (waits_for_unfinished _ _ _ Hm) as [Hnf _]. congruence.
  - by exists q, w.
Qed.

End Chain.

(** ** [compute] then [verify] *)

Section RoundTrip.

Variable PROGRESS : bool.
Variable c_sloth : nat -> option bytes -> Z -> Z -> LibRun SlothOut.
Variable c_sloth_verification :
  nat -> option bytes -> Z -> option bytes -> option bytes -> Z -> Z -> LibRun Z.

Local Abbreviation script' := (script PROGRESS c_sloth c_sloth_verification).
Local Abbreviation compute_task' := (compute_task PROGRESS c_sloth).
Local Abbreviation verify_task' := (verify_task PROGRESS c_sloth_verification).

(** The object the worker of a background [compute()] leaves when the
    library call returns. *)
Lemma compute_worker_alone (s : Sloth) (o : SlothOut) :
  0 <= int_div8 (bits s) ->
  result (c_sloth 0 (_data s) (bits s) (iterations s)) = Returned o ->
  let W := fst (worker_alone PROGRESS compute_task' s) in
  self W
  = set_final_hash (Some (published_digest o))
      (set_witness (Some (published_witness (bits s) o))
         (set_thread (Some 0%nat) s))
  /\ lock W = None.
Proof.
  intros Hq Ho. cbv zeta. unfold worker_alone, world_at_start.
  rewrite run_wrapped_task.
  rewrite run_compute_task by (cbn; autorewrite with world; done).
  unfold sloth_run. cbn [launch self ncalls set_thread _data bits iterations].
  autorewrite with world. cbn [init_world self ncalls]. rewrite Ho.
  destruct PROGRESS; cbn; done.
Qed.


End RoundTrip.


(** In background mode [verify()] does not wait for its own worker: the
    client that stops after [verify()] can end while [valid] is still
    unset. *)
Example background_verify_still_running :
  (fun c => (finished (main c), valid (self (world c))))
    <$> exec (go 12 Main ++ go 14 (Worker 0) ++ go 9 Main) hello_compute_verify
  = Some (true, None).
Proof. vm_compute. reflexivity. Qed.

